(** * Action scheduling and control dispatch of Companion

    A shallow embedding of [lib/Controls/ActionRunner.ts], of the press,
    rotate and feedback entry points of [lib/Controls/Controller.ts] and of
    the action executor of [lib/Internal/Controls.ts].

    JavaScript objects used as dictionaries are finite maps ([gmap]), the
    insertion-ordered [Map] of pending timers is an association list, and
    every call that leaves the three modelled files (a connector, a control
    object, the trigger event bus, the timer functions of the runtime) is
    recorded in an event trace carried by the state.  The [logger.silly]
    messages are left out, except the two of [#runAction] that are all
    that remains of a dropped or failed action. *)

From Stdlib Require Import ZArith Lia.
From stdpp Require Import base option list gmap strings pretty.

Local Open Scope Z_scope.

(** ** Data model *)

(** The [delay] property of an action as JavaScript sees it.  Numbers are
    integers here: delays are millisecond counts, for which the double
    arithmetic of the runtime is exact. *)
Inductive DelayValue : Type :=
  | DelayMissing                      (* undefined, null or the empty string *)
  | DelayNumber (n : Z)               (* a number *)
  | DelayNaN                          (* the number NaN *)
  | DelayText (parsed : option Z).    (* a non-empty string; [parsed] is what
                                         Number() makes of it, None for NaN *)

(** The options of an action that [executeAction] reads.  [options] is a
    [Record<string, any>]: an action has the options its definition lists,
    so [page] and [bank] may be missing ([None] is [undefined]); the action
    [panic_page] for one has a page but no button. *)
Record ActionOptions : Type := mkActionOptions {
  opt_page : option Z;
  opt_bank : option Z;
  opt_page_from_variable : option Z;  (* Some v: page_from_variable is set and
                                         the expression evaluates to v *)
  opt_bank_from_variable : option Z;
  opt_unlatch : bool;
  opt_ignoreSelf : bool
}.

(** The options of an action that has both a page and a button. *)
Definition mkOptions (page bank : Z) (page_from_variable bank_from_variable : option Z)
    (unlatch ignoreSelf : bool) : ActionOptions :=
  mkActionOptions (Some page) (Some bank) page_from_variable bank_from_variable
    unlatch ignoreSelf.

Record ActionInstance : Type := mkAction {
  id : string;
  instance : string;
  action : string;
  options : ActionOptions;
  delay : DelayValue;
  disabled : bool
}.

Record RunActionExtras : Type := mkExtras {
  x_controlId : string;
  x_deviceid : option string;
  x_page : option Z;
  x_bank : option Z
}.

#[global] Instance DelayValue_eq_dec : EqDecision DelayValue.
Proof. solve_decision. Defined.
#[global] Instance ActionOptions_eq_dec : EqDecision ActionOptions.
Proof. solve_decision. Defined.
#[global] Instance ActionInstance_eq_dec : EqDecision ActionInstance.
Proof. solve_decision. Defined.
#[global] Instance RunActionExtras_eq_dec : EqDecision RunActionExtras.
Proof. solve_decision. Defined.

(** ** Effective delays (first loop of [runMultipleActions]) *)

(** [actions0.filter((act) => !act.disabled)] *)
Definition enabled_actions (actions0 : list ActionInstance) : list ActionInstance :=
  filter (λ act, disabled act = false) actions0.

(** [let this_delay = !action.delay ? 0 : Number(action.delay)]
    followed by [if (isNaN(this_delay)) this_delay = 0]. *)
Definition this_delay (a : ActionInstance) : Z :=
  match delay a with
  | DelayMissing => 0
  | DelayNumber n => if decide (n = 0) then 0 else n
  | DelayNaN => 0
  | DelayText (Some n) => n
  | DelayText None => 0
  end.

(** The successive assignments [effective_delays[action.id] = tmp_delay]
    of the first loop, in the order in which they are made; [tmp] is the
    value of [tmp_delay] on entry. *)
Fixpoint delay_writes (relative_delay : bool) (tmp : Z)
    (actions : list ActionInstance) : list (string * Z) :=
  match actions with
  | [] => []
  | a :: rest =>
      let tmp' := if relative_delay then tmp + this_delay a else this_delay a in
      (id a, tmp') :: delay_writes relative_delay tmp' rest
  end.

(** The object [effective_delays] once the first loop is over. *)
Definition effective_delays (relative_delay : bool)
    (actions : list ActionInstance) : gmap string Z :=
  foldl (λ tbl w, <[w.1 := w.2]> tbl) ∅ (delay_writes relative_delay 0 actions).

(** [effective_delays[action.id] === undefined ? 0 : effective_delays[action.id]] *)
Definition delay_time (tbl : gmap string Z) (a : ActionInstance) : Z :=
  default 0 (tbl !! id a).

(** Sum of a list of delays. *)
Definition sum_delays (l : list Z) : Z := foldr Z.add 0 l.

(** The delays of section 8 of the specification, behind a disabled action. *)
Definition plain_action (i conn : string) (d : DelayValue) (off : bool) : ActionInstance :=
  mkAction i conn "run" (mkOptions 0 0 None None false false) d off.

Definition sample_actions : list ActionInstance :=
  [ plain_action "a1" "conn" (DelayNumber 5) false;
    plain_action "a0" "conn" (DelayNumber 100) true;
    plain_action "a2" "conn" (DelayNumber 0) false;
    plain_action "a3" "conn" (DelayText (Some 10)) false ].

(** ** Control ids *)

Inductive ParsedControlId : Type :=
  | ParsedBank (page bank : Z)
  | ParsedTrigger (trigger : string).

#[global] Instance ParsedControlId_eq_dec : EqDecision ParsedControlId.
Proof. solve_decision. Defined.

(** How a template literal prints a number that may be [undefined]. *)
Definition show_number (n : option Z) : string :=
  match n with
  | Some z => pretty z
  | None => "undefined"
  end.

(** Modelled from the spec: [CreateBankControlId] of Shared/ControlId.js is
    not among the sources; the grammar [bank:<page>-<bank>] is the one of
    section 6, which [previewControlIdFn] of Internal/Controls.ts spells
    out as a template literal. *)
Definition CreateBankControlId (page bank : option Z) : string :=
  "bank:" +:+ show_number page +:+ "-" +:+ show_number bank.

Fixpoint strip_prefix (p s : string) : option string :=
  match p, s with
  | EmptyString, _ => Some s
  | String a p', String b s' => if decide (a = b) then strip_prefix p' s' else None
  | String _ _, EmptyString => None
  end.

Definition digit_value (c : Ascii.ascii) : option Z :=
  let n := Z.of_N (Ascii.N_of_ascii c) in
  if decide (48 <= n <= 57) then Some (n - 48) else None.

Fixpoint digits_value (acc : Z) (s : string) : option Z :=
  match s with
  | EmptyString => Some acc
  | String c r =>
      match digit_value c with
      | Some d => digits_value (10 * acc + d) r
      | None => None
      end
  end.

Definition parse_digits (s : string) : option Z :=
  match s with
  | EmptyString => None
  | _ => digits_value 0 s
  end.

(** Splits at the first occurrence of [sep]. *)
Fixpoint split_first (sep : Ascii.ascii) (s : string) : option (string * string) :=
  match s with
  | EmptyString => None
  | String c r =>
      if decide (c = sep) then Some (EmptyString, r)
      else match split_first sep r with
           | Some (l, r') => Some (String c l, r')
           | None => None
           end
  end.

(** Modelled from the spec: [ParseControlId] of Shared/ControlId.js is not
    among the sources; it reads the two grammars of section 6,
    [bank:<page>-<bank>] with decimal numbers and [trigger:<id>]. *)
Definition ParseControlId (controlId : string) : option ParsedControlId :=
  match strip_prefix "bank:" controlId with
  | Some rest =>
      match split_first (Ascii.ascii_of_N 45) rest with
      | Some (p, b) =>
          match parse_digits p, parse_digits b with
          | Some page, Some bank => Some (ParsedBank page bank)
          | _, _ => None
          end
      | None => None
      end
  | None =>
      match strip_prefix "trigger:" controlId with
      | Some t => Some (ParsedTrigger t)
      | None => None
      end
  end.

(** ** Controls, connectors, events and the state *)

(** A control object as the three files see it: which of the optional
    methods it has, and its running flag.

    Modelled from the spec: the control classes are not among the sources;
    [setActionsRunning(running, skipUp)] stores [running] in the running
    flag that section 3 gives every control. *)
Record Control : Type := mkControl {
  has_setActionsRunning : bool;
  has_pressControl : bool;
  has_rotateControl : bool;
  has_feedbacks : bool;          (* control.feedbacks.updateFeedbackValues *)
  actions_running : bool
}.

Inductive FeedbackValue : Type :=
  | FbBool (b : bool)
  | FbStyle (fragment : string).

Record FeedbackItem : Type := mkItem {
  fb_controlId : string;
  fb_id : string;
  fb_value : FeedbackValue
}.

(** What the promise returned by [actionRun] settles to. *)
Inductive ActionRunResult : Type :=
  | Fulfilled
  | Rejected (message : string).

(** Modelled from the spec: a connector handle of the module host, whose
    [actionRun(action, controlId, context)] gives an asynchronous success
    or failure (section 6); a throw inside the handler is a rejection. *)
Record Connection : Type := mkConnection {
  connectionId : string;
  actionRun : ActionInstance → string → RunActionExtras → ActionRunResult
}.

(** A promise that has not settled yet, and whether a rejection handler was
    attached to it with [.catch]. *)
Record PendingPromise : Type := mkPromise {
  pp_connection : string;
  pp_result : ActionRunResult;
  pp_catch : bool
}.

(** The closure handed to [setTimeout]. *)
Record TimerJob : Type := mkJob {
  job_action : ActionInstance;
  job_controlId : string;
  job_extras : RunActionExtras;
  job_delay : Z
}.

Inductive Event : Type :=
  | EvExecuteAction (a : ActionInstance) (x : RunActionExtras)
  | EvActionRun (connection : string) (a : ActionInstance) (controlId : string)
      (x : RunActionExtras)
  | EvMissingInstance (a : ActionInstance)
  | EvActionError (connection message : string)
  | EvUnhandledRejection (connection message : string)
  | EvSetActionsRunning (controlId : string) (running skipUp : bool)
  | EvSetTimeout (timer : nat) (delay_ms : Z)
  | EvClearTimeout (timer : nat)
  | EvTriggerEmit (name controlId : string) (pressed : bool) (deviceId : option string)
  | EvControlPress (controlId : string) (pressed : bool) (deviceId : option string)
  | EvControlRotate (controlId : string) (direction : bool) (deviceId : option string)
  | EvFeedbackUpdate (controlId instanceId : string) (values : gmap string FeedbackValue).

Record State : Type := mkState {
  controls : gmap string Control;          (* #controls of the controller *)
  timers_running : list (nat * string);    (* #timers_running, oldest first *)
  node_timers : list (nat * TimerJob);     (* timers armed in the runtime *)
  next_timer : nat;                        (* the next fresh timer handle *)
  promises : list PendingPromise;
  trace : list Event
}.

Definition emit (e : Event) (st : State) : State :=
  mkState (controls st) (timers_running st) (node_timers st) (next_timer st)
          (promises st) (trace st ++ [e]).

Definition set_timers_running (m : list (nat * string)) (st : State) : State :=
  mkState (controls st) m (node_timers st) (next_timer st) (promises st) (trace st).

(** [Map.prototype.set]: an existing key keeps its place. *)
Fixpoint map_set (t : nat) (c : string) (m : list (nat * string)) : list (nat * string) :=
  match m with
  | [] => [(t, c)]
  | (t', c') :: rest => if decide (t' = t) then (t, c) :: rest else (t', c') :: map_set t c rest
  end.

(** [Map.prototype.delete] *)
Definition map_delete {V : Type} (t : nat) (m : list (nat * V)) : list (nat * V) :=
  filter (λ e, e.1 ≠ t) m.

Definition map_get {V : Type} (t : nat) (m : list (nat * V)) : option V :=
  (λ r, r.2.2) <$> list_find (λ e, e.1 = t) m.

(** [setTimeout(job, delay)]: arms a timer and returns its fresh handle. *)
Definition setTimeout (job : TimerJob) (st : State) : nat * State :=
  let t := next_timer st in
  (t, mkState (controls st) (timers_running st) (node_timers st ++ [(t, job)])
              (S t) (promises st) (trace st ++ [EvSetTimeout t (job_delay job)])).

(** [clearTimeout(timer)] *)
Definition clearTimeout (t : nat) (st : State) : State :=
  mkState (controls st) (timers_running st) (map_delete t (node_timers st))
          (next_timer st) (promises st) (trace st ++ [EvClearTimeout t]).

(** The running flag of a control, when there is such a control. *)
Definition running_flag (st : State) (controlId : string) : option bool :=
  actions_running <$> controls st !! controlId.

(** ** The scheduler, the dispatch entry points and the internal actions *)

Section Engine.

(** [MAX_BUTTONS] of Resources/Constants.js, which is not among the
    sources: the number of buttons of a page. *)
Variable MAX_BUTTONS : nat.

(** [this.instance.moduleHost.getChild(id)]: the live connector with that
    id, if there is one. *)
Variable getChild : string → option Connection.

(** [#setControlIsRunning(controlId, running, skipUp)]; an omitted
    [skipUp] is [false]. *)
Definition setControlIsRunning (controlId : string) (running skipUp : bool)
    (st : State) : State :=
  match controls st !! controlId with
  | Some control =>
      if has_setActionsRunning control then
        mkState
          (<[controlId := mkControl (has_setActionsRunning control)
               (has_pressControl control) (has_rotateControl control)
               (has_feedbacks control) running]> (controls st))
          (timers_running st) (node_timers st) (next_timer st) (promises st)
          (trace st ++ [EvSetActionsRunning controlId running skipUp])
      else st
  | None => st
  end.

(** The first loop of [abortAllDelayed]: every timer is cleared and its
    owner joins the set [affectedControlIds], which keeps insertion
    order and no duplicates. *)
Fixpoint abort_all_loop (entries : list (nat * string)) (affected : list string)
    (st : State) : list string * State :=
  match entries with
  | [] => (affected, st)
  | (timer, controlId) :: rest =>
      abort_all_loop rest
        (if decide (controlId ∈ affected) then affected else affected ++ [controlId])
        (clearTimeout timer st)
  end.

(** [abortAllDelayed()] *)
Definition abortAllDelayed (st : State) : State :=
  let '(affected, st1) := abort_all_loop (timers_running st) [] st in
  let st2 := set_timers_running [] st1 in
  foldl (λ s controlId, setControlIsRunning controlId false false s) st2 affected.

(** The loop of [abortControlDelayed] over the entries of the map; an
    entry deleted while the map is iterated is the one being visited, so
    the iteration sees every entry once. *)
Fixpoint abort_control_loop (entries : list (nat * string)) (controlId : string)
    (st : State) : State :=
  match entries with
  | [] => st
  | (timer, timerControlId) :: rest =>
      if decide (timerControlId = controlId) then
        abort_control_loop rest controlId
          (clearTimeout timer
             (set_timers_running (map_delete timer (timers_running st)) st))
      else abort_control_loop rest controlId st
  end.

(** [abortControlDelayed(controlId, skipUp)] *)
Definition abortControlDelayed (controlId : string) (skipUp : bool)
    (st : State) : State :=
  setControlIsRunning controlId false skipUp
    (abort_control_loop (timers_running st) controlId st).

(** [abortPageDelayed(page, skipControlIds)] *)
Definition abortPageDelayed (page : option Z) (skipControlIds : option (list string))
    (st : State) : State :=
  foldl
    (λ s bank,
       let controlId := CreateBankControlId page (Some (Z.of_nat bank)) in
       match skipControlIds with
       | Some skip =>
           if decide (controlId ∈ skip) then s
           else abortControlDelayed controlId false s
       | None => abortControlDelayed controlId false s
       end)
    st (seq 1 MAX_BUTTONS).

(** [pressControl(controlId, pressed, deviceId)] of the controller.  The
    call [control.pressControl(pressed, deviceId)] is recorded as the
    event [EvControlPress] and not followed: the press handler of a
    control is not among the sources, and it may start a run of the
    scheduler of its own.  What is stated about a press below is
    therefore about the controller's part of it, and the statements about
    the life of the scheduler are restricted to [followed] actions, which
    press nothing. *)
Definition pressControl (controlId : string) (pressed : bool)
    (deviceId : option string) (st : State) : bool * State :=
  match controls st !! controlId with
  | Some control =>
      if has_pressControl control then
        (true, emit (EvControlPress controlId pressed deviceId)
                 (emit (EvTriggerEmit "control_press" controlId pressed deviceId) st))
      else (false, st)
  | None => (false, st)
  end.

(** [rotateControl(controlId, direction, deviceId)] of the controller. *)
Definition rotateControl (controlId : string) (direction : bool)
    (deviceId : option string) (st : State) : bool * State :=
  match controls st !! controlId with
  | Some control =>
      if has_rotateControl control then
        (true, emit (EvControlRotate controlId direction deviceId) st)
      else (false, st)
  | None => (false, st)
  end.

(** [#fetchPageAndButton(options, info, useVariableFields)] with [info]
    present, as it is for an action. *)
Definition fetchPageAndButton (o : ActionOptions) (info : RunActionExtras)
    (useVariableFields : bool) : option Z * option Z * string :=
  let thePage :=
    match opt_page_from_variable o with
    | Some v => if useVariableFields then Some v else opt_page o
    | None => opt_page o
    end in
  let theButton :=
    match opt_bank_from_variable o with
    | Some v => if useVariableFields then Some v else opt_bank o
    | None => opt_bank o
    end in
  let thePage := if decide (thePage = Some 0) then x_page info else thePage in
  let theButton := if decide (theButton = Some 0) then x_bank info else theButton in
  (thePage, theButton, CreateBankControlId thePage theButton).

(** [executeAction(action, extras)] of Internal/Controls.ts, reached
    through [internalModule.executeAction].  The branches that press,
    rotate or abort are modelled.  The other branches give [None] here
    and are not followed: [button_pressrelease_condition] and
    [button_pressrelease_condition_variable], which press a control when
    a comparison with the variable store holds, [bgcolor], [textcolor]
    and [button_text], which restyle a control, [bank_current_step] and
    [bank_current_step_delta], which change its step, and the actions of
    the other internal fragments.  Only the branches of the three
    aborting actions are complete, as [followed] records. *)
Definition executeAction (a : ActionInstance) (extras : RunActionExtras)
    (st : State) : option bool * State :=
  let '(thePage, _, theControlId) := fetchPageAndButton (options a) extras true in
  if decide (action a = "button_pressrelease") then
    let st1 := (pressControl theControlId true (x_deviceid extras) st).2 in
    (Some true, (pressControl theControlId false (x_deviceid extras) st1).2)
  else if decide (action a = "button_press") then
    (Some true, (pressControl theControlId true (x_deviceid extras) st).2)
  else if decide (action a = "button_release") then
    (Some true, (pressControl theControlId false (x_deviceid extras) st).2)
  else if decide (action a = "button_rotate_left") then
    (Some true, (rotateControl theControlId false (x_deviceid extras) st).2)
  else if decide (action a = "button_rotate_right") then
    (Some true, (rotateControl theControlId true (x_deviceid extras) st).2)
  else if decide (action a = "panic_bank") then
    (Some true, abortControlDelayed theControlId (opt_unlatch (options a)) st)
  else if decide (action a = "panic_page") then
    (Some true,
     abortPageDelayed thePage
       (if opt_ignoreSelf (options a) then Some [theControlId] else None) st)
  else if decide (action a = "panic") then
    (Some true, abortAllDelayed st)
  else (None, st).

(** [#runAction(action, controlId, extras)].  The promise of a connector
    is queued with its [.catch] handler attached. *)
Definition runAction (a : ActionInstance) (controlId : string)
    (extras : RunActionExtras) (st : State) : State :=
  if decide (instance a = "internal") then
    (executeAction a extras (emit (EvExecuteAction a extras) st)).2
  else
    match getChild (instance a) with
    | Some conn =>
        let st1 := emit (EvActionRun (connectionId conn) a controlId extras) st in
        mkState (controls st1) (timers_running st1) (node_timers st1)
          (next_timer st1)
          (promises st1 ++
             [mkPromise (connectionId conn) (actionRun conn a controlId extras) true])
          (trace st1)
    | None => emit (EvMissingInstance a) st
    end.

(** The second loop of [runMultipleActions]; the boolean is
    [has_delayed]. *)
Fixpoint run_loop (tbl : gmap string Z) (controlId : string)
    (extra2 : RunActionExtras) (actions : list ActionInstance)
    (has_delayed : bool) (st : State) : bool * State :=
  match actions with
  | [] => (has_delayed, st)
  | a :: rest =>
      let delay_time := delay_time tbl a in
      if decide (0 < delay_time) then
        let '(timer, st1) := setTimeout (mkJob a controlId extra2 delay_time) st in
        run_loop tbl controlId extra2 rest true
          (set_timers_running (map_set timer controlId (timers_running st1)) st1)
      else
        run_loop tbl controlId extra2 rest has_delayed (runAction a controlId extra2 st)
  end.

(** The [extra2] object built by [runMultipleActions]. *)
Definition make_extras (controlId : string) (deviceid : option string) : RunActionExtras :=
  match ParseControlId controlId with
  | Some (ParsedBank page bank) => mkExtras controlId deviceid (Some page) (Some bank)
  | _ => mkExtras controlId deviceid None None
  end.

(** [runMultipleActions(actions0, controlId, relative_delay, extra)];
    [deviceid] is [extra?.deviceid]. *)
Definition runMultipleActions (actions0 : list ActionInstance) (controlId : string)
    (relative_delay : bool) (deviceid : option string) (st : State) : State :=
  let actions := enabled_actions actions0 in
  match actions with
  | [] => st
  | _ =>
      let tbl := effective_delays relative_delay actions in
      let extra2 := make_extras controlId deviceid in
      let '(has_delayed, st1) := run_loop tbl controlId extra2 actions false st in
      if has_delayed then setControlIsRunning controlId true false st1 else st1
  end.

(** The callback given to [setTimeout], run by the runtime when the timer
    [timer] expires; a timer that is not armed does not fire. *)
Definition fire_timer (timer : nat) (st : State) : State :=
  match map_get timer (node_timers st) with
  | None => st
  | Some job =>
      let st0 :=
        mkState (controls st) (timers_running st) (map_delete timer (node_timers st))
                (next_timer st) (promises st) (trace st) in
      let st1 := runAction (job_action job) (job_controlId job) (job_extras job) st0 in
      let st2 := set_timers_running (map_delete timer (timers_running st1)) st1 in
      if decide (job_controlId job ∈ (timers_running st2).*2) then st2
      else setControlIsRunning (job_controlId job) false false st2
  end.

(** The promises settle once the synchronous code has returned: a
    rejection runs the handler attached with [.catch], which logs it, and
    is an unhandled rejection when there is none. *)
Definition settle (p : PendingPromise) : list Event :=
  match pp_result p with
  | Fulfilled => []
  | Rejected message =>
      if pp_catch p then [EvActionError (pp_connection p) message]
      else [EvUnhandledRejection (pp_connection p) message]
  end.

Definition settle_promises (st : State) : State :=
  mkState (controls st) (timers_running st) (node_timers st) (next_timer st) []
          (trace st ++ concat (settle <$> promises st)).

(** [values[k]] and [values[k] = v] on the object [values] of
    [updateFeedbackValues], whose keys are kept in insertion order, the
    order in which [Object.entries] lists control ids.  As for the other
    objects used as dictionaries, the keys are taken to be ids as the
    system makes them, none of which is the name of a member of
    [Object.prototype]. *)
Fixpoint obj_get {V : Type} (k : string) (o : list (string * V)) : option V :=
  match o with
  | [] => None
  | (k', v) :: rest => if decide (k' = k) then Some v else obj_get k rest
  end.

Fixpoint obj_set {V : Type} (k : string) (v : V) (o : list (string * V)) : list (string * V) :=
  match o with
  | [] => [(k, v)]
  | (k', v') :: rest =>
      if decide (k' = k) then (k, v) :: rest else (k', v') :: obj_set k v rest
  end.

(** The grouping loop of [updateFeedbackValues]. *)
Definition group_values (result : list FeedbackItem)
    : list (string * gmap string FeedbackValue) :=
  foldl
    (λ values item,
       let objForControl := default ∅ (obj_get (fb_controlId item) values) in
       obj_set (fb_controlId item) (<[fb_id item := fb_value item]> objForControl) values)
    [] result.

(** [updateFeedbackValues(instanceId, result)] *)
Definition updateFeedbackValues (instanceId : string) (result : list FeedbackItem)
    (st : State) : State :=
  foldl
    (λ s entry,
       match controls s !! entry.1 with
       | Some control =>
           if has_feedbacks control then emit (EvFeedbackUpdate entry.1 instanceId entry.2) s
           else s
       | None => s
       end)
    st (group_values result).

End Engine.

(** ** Observations on states and traces *)

#[global] Instance Control_eq_dec : EqDecision Control.
Proof. solve_decision. Defined.
#[global] Instance FeedbackValue_eq_dec : EqDecision FeedbackValue.
Proof. solve_decision. Defined.
#[global] Instance Event_eq_dec : EqDecision Event.
Proof. solve_decision. Defined.

(** The action an event hands to a connector, to the internal module or to
    the log of dropped actions: one such event per call of [#runAction]. *)
Definition dispatched (e : Event) : option ActionInstance :=
  match e with
  | EvExecuteAction a _ => Some a
  | EvActionRun _ a _ _ => Some a
  | EvMissingInstance a => Some a
  | _ => None
  end.

Definition dispatched_actions (evs : list Event) : list ActionInstance :=
  omap dispatched evs.

(** What becomes of an action in the second loop of [runMultipleActions]:
    it is handed over at once by [#runAction], or [setTimeout] is called
    with a delay for it. *)
Inductive Fate : Type :=
  | Ran (a : ActionInstance)
  | Scheduled (delay_ms : Z).

#[global] Instance Fate_eq_dec : EqDecision Fate.
Proof. solve_decision. Defined.




(** The calls [setActionsRunning(running, skipUp)] a control receives. *)
Definition set_calls (controlId : string) (evs : list Event) : list (bool * bool) :=
  omap (λ e, match e with
             | EvSetActionsRunning c running skipUp =>
                 if decide (c = controlId) then Some (running, skipUp) else None
             | _ => None
             end) evs.

(** The value groups a control's feedback store receives. *)
Definition deliveries_to (controlId : string) (evs : list Event)
    : list (gmap string FeedbackValue) :=
  omap (λ e, match e with
             | EvFeedbackUpdate c _ values =>
                 if decide (c = controlId) then Some values else None
             | _ => None
             end) evs.

(** The raw notifications sent to the trigger system. *)
Definition is_trigger_emit (e : Event) : bool :=
  match e with EvTriggerEmit _ _ _ _ => true | _ => false end.

Definition trigger_events (evs : list Event) : list Event :=
  filter (λ e, is_trigger_emit e = true) evs.

(** The last value a batch reports for feedback [f] of control [c]. *)
Definition last_value (c f : string) (batch : list FeedbackItem) : option FeedbackValue :=
  last (fb_value <$> filter (λ item, fb_controlId item = c ∧ fb_id item = f) batch).

(** The handles of the entries of [#timers_running] owned by a control. *)
Definition timers_of (controlId : string) (m : list (nat * string)) : list nat :=
  (filter (λ e, e.2 = controlId) m).*1.

(** Can the control be told whether actions are running? *)
Definition can_run (st : State) (controlId : string) : bool :=
  match controls st !! controlId with
  | Some control => has_setActionsRunning control
  | None => false
  end.

(** The pending set is a [Map] whose keys are timers armed in the runtime
    for the control that owns them, and the handles in use are below the
    next fresh one. *)
Definition timers_consistent (st : State) : Prop :=
  NoDup (timers_running st).*1 ∧
  NoDup (node_timers st).*1 ∧
  (∀ t c, (t, c) ∈ timers_running st →
     ∃ job, (t, job) ∈ node_timers st ∧ job_controlId job = c) ∧
  (∀ t job, (t, job) ∈ node_timers st → (t < next_timer st)%nat).

Section Runs.

Variable MAX_BUTTONS : nat.
Variable getChild : string → option Connection.

(** A sequence of timers expiring one after the other. *)
Definition fire_timers (timers : list nat) (st : State) : State :=
  foldl (λ s t, fire_timer MAX_BUTTONS getChild t s) st timers.

(** How often the running flag of a control goes from true to false from
    one expiry to the next. *)
Fixpoint running_falls (controlId : string) (timers : list nat) (st : State) : nat :=
  match timers with
  | [] => 0%nat
  | t :: rest =>
      let st' := fire_timer MAX_BUTTONS getChild t st in
      ((if decide (running_flag st controlId = Some true ∧
                   running_flag st' controlId = Some false) then 1 else 0)
       + running_falls controlId rest st')%nat
  end.

End Runs.

(** A rejection that no handler caught. *)
Definition is_unhandled (e : Event) : bool :=
  match e with EvUnhandledRejection _ _ => true | _ => false end.

(** ** Steps that leave the scheduling to others

    [calm st st'] describes what the aborts, the presses and the rotations
    do to a state, alone or one after the other: they dispatch nothing and
    arm nothing, a pending timer that survives is still armed, and a
    control is only ever told that its actions stopped, at a moment when
    it owns no pending timer any more. *)
Inductive calm (st st' : State) : Prop :=
  | Calm (evs : list Event)
      (Htrace : trace st' = trace st ++ evs)
      (Hquiet : dispatched_actions evs = [])
      (Hcalls : ∀ c x, x ∈ set_calls c evs →
                  x.1 = false ∧ c ∉ (timers_running st').*2)
      (Hframe : ∀ c, set_calls c evs = [] → controls st' !! c = controls st !! c)
      (Hcan : ∀ c, can_run st' c = can_run st c)
      (Htimers : timers_running st' `sublist_of` timers_running st)
      (Hnode : node_timers st' `sublist_of` node_timers st)
      (Hnext : next_timer st' = next_timer st)
      (Hprom : promises st' = promises st)
      (Hsurvive : ∀ t c job, (t, c) ∈ timers_running st' →
                    (t, job) ∈ node_timers st → (t, job) ∈ node_timers st')
      (Hlost : NoDup (timers_running st).*1 →
               ∀ c, c ∈ (timers_running st).*2 → c ∉ (timers_running st').*2 →
                    can_run st c = true → running_flag st' c = Some false)
      (Hfalse : ∀ c, running_flag st c = Some false → running_flag st' c = Some false)
      (Hhandled : Forall (λ e, is_unhandled e = false) evs).

(** The state in which [#runAction] has made its call: the event of the
    call is in the trace and the promises the call returned are pending. *)
Definition called (e : Event) (ps : list PendingPromise) (st : State) : State :=
  mkState (controls st) (timers_running st) (node_timers st) (next_timer st)
          (promises st ++ ps) (trace st ++ [e]).

(** A control whose running flag is set while it owns a pending timer, and
    one whose flag is clear while it owns none. *)
Definition awaiting (c : string) (st : State) : Prop :=
  timers_consistent st ∧ can_run st c = true ∧
  running_flag st c = Some true ∧ c ∈ (timers_running st).*2.

Definition settled (c : string) (st : State) : Prop :=
  timers_consistent st ∧ can_run st c = true ∧
  running_flag st c = Some false ∧ c ∉ (timers_running st).*2.

(** The invariant of section 3 of the specification: a control that can
    be told has its running flag set exactly when it owns a pending
    timer. *)
Definition running_invariant (st : State) : Prop :=
  timers_consistent st ∧
  ∀ c, can_run st c = true →
       (running_flag st c = Some true ↔ c ∈ (timers_running st).*2).

(** The actions whose dispatch is followed to its end here: the actions of
    a connector, which the connector runs on its own, and the three
    internal actions that abort delayed actions.  The other internal
    actions reach code that is not among the sources, such as the press
    handler of a control, which may start a run of its own. *)
Definition followed (a : ActionInstance) : Prop :=
  instance a ≠ "internal" ∨ action a ∈ ["panic_bank"; "panic_page"; "panic"].

#[global] Instance followed_dec a : Decision (followed a).
Proof. unfold followed. apply _. Defined.

Section Steps.

Variable MAX_BUTTONS : nat.
Variable getChild : string → option Connection.

(** The calls and expiries that make up the life of the scheduler, as far
    as they concern followed actions only.  A call of [runMultipleActions]
    counts here only when none of its actions is delayed or when the
    control still owns a pending timer on return, that is, when its
    immediate actions did not abort all that it armed. *)
Inductive step : State → State → Prop :=
  | step_run actions0 c relative dev st :
      Forall followed (enabled_actions actions0) →
      (¬ Exists (λ a, 0 < delay_time
                        (effective_delays relative (enabled_actions actions0)) a)
           (enabled_actions actions0) ∨
       c ∈ (timers_running
              (runMultipleActions MAX_BUTTONS getChild actions0 c relative dev st)).*2) →
      step st (runMultipleActions MAX_BUTTONS getChild actions0 c relative dev st)
  | step_fire t st :
      (∀ job, map_get t (node_timers st) = Some job → followed (job_action job)) →
      step st (fire_timer MAX_BUTTONS getChild t st)
  | step_abort_control c skipUp st :
      step st (abortControlDelayed c skipUp st)
  | step_abort_page page skip st :
      step st (abortPageDelayed MAX_BUTTONS page skip st)
  | step_abort_all st :
      step st (abortAllDelayed st).

End Steps.

(** ** Sample states *)

Definition button : Control := mkControl true true true true false.

Definition one_button : State :=
  mkState {[ "bank:1-1" := button ]} [] [] 0%nat [] [].

Definition no_connector : string → option Connection := λ _, None.

(** A connector [conn] whose handler rejects every action. *)
Definition failing_connector (c : string) : option Connection :=
  if decide (c = "conn") then Some (mkConnection "conn" (λ _ _ _, Rejected "boom"))
  else None.


(** Actions without a usable delay around a delayed and a disabled one. *)
Definition mixed_actions : list ActionInstance :=
  [ plain_action "m1" "conn" DelayMissing false;
    plain_action "m2" "conn" (DelayNumber 100) false;
    plain_action "m3" "gone" (DelayText None) false;
    plain_action "m4" "conn" DelayNaN false;
    plain_action "m5" "conn" (DelayNumber 0) true;
    plain_action "m6" "internal" (DelayNumber (-3)) false ].

(** The state in which the sample actions were run in relative mode for the
    button of [one_button], and the job of the first timer armed there. *)
Definition sample_run : State :=
  runMultipleActions 32 failing_connector sample_actions "bank:1-1" true None one_button.

Definition sample_job : TimerJob :=
  mkJob (plain_action "a1" "conn" (DelayNumber 5) false) "bank:1-1"
        (mkExtras "bank:1-1" None (Some 1) (Some 1)) 5.

(** Is the control one whose feedback store takes values? *)
Definition feedback_host (st : State) (controlId : string) : bool :=
  match controls st !! controlId with
  | Some control => has_feedbacks control
  | None => false
  end.

(** A delayed connector action followed by an immediate internal action
    that aborts the delayed actions of the button it is on. *)
Definition abort_self_actions : list ActionInstance :=
  [ plain_action "d1" "conn" (DelayNumber 100) false;
    mkAction "p1" "internal" "panic_bank" (mkOptions 0 0 None None false false)
             (DelayNumber 0) false ].

(** The feedback batch of section 8 of the specification. *)
Definition sample_batch : list FeedbackItem :=
  [ mkItem "A" "f1" (FbBool true);
    mkItem "B" "f2" (FbBool false);
    mkItem "A" "f3" (FbBool false) ].

Definition controls_A_B : State :=
  mkState {[ "A" := button; "B" := button ]} [] [] 0%nat [] [].

(** The controls whose delayed actions [abortPageDelayed] aborts: those of
    the buttons 1 to [MAX_BUTTONS] of the page, less the ones to skip. *)
Definition page_targets (MAX_BUTTONS : nat) (page : option Z)
    (skipControlIds : option (list string)) : list string :=
  filter (λ controlId, controlId ∉ default [] skipControlIds)
    ((λ bank, CreateBankControlId page (Some (Z.of_nat bank))) <$> seq 1 MAX_BUTTONS).

(** The enabled actions that [runMultipleActions] puts on a timer. *)
Definition delayed_actions (relative_delay : bool) (actions0 : list ActionInstance)
    : list ActionInstance :=
  filter (λ a, 0 < delay_time (effective_delays relative_delay (enabled_actions actions0)) a)
    (enabled_actions actions0).

(** Two buttons of page 1 with delayed actions pending for both. *)
Definition two_buttons_run : State :=
  runMultipleActions 32 failing_connector sample_actions "bank:1-2" false None
    (runMultipleActions 32 failing_connector sample_actions "bank:1-1" true None
       (mkState {[ "bank:1-1" := button; "bank:1-2" := button ]} [] [] 0%nat [] [])).

(** The internal action that aborts the delayed actions of the page of the
    button it is on, with "Skip this button?" set: page 0 is the page of
    the button, and there is no button option. *)
Definition panic_page_action : ActionInstance :=
  mkAction "pp" "internal" "panic_page"
           (mkActionOptions (Some 0) None None None false true)
           (DelayNumber 0) false.

(** ** The store of connections ([Instance/Controller.ts]) *)

(** An entry of [store.db]; [sortOrder] is [None] when the stored value is
    not a number, and [product] is what the code reads of [config]. *)
Record InstanceStoreConfig : Type := mkInstanceConfig {
  instance_type : string;
  label : string;
  product : option string;
  enabled : bool;
  sortOrder : option Z;
  isFirstInit : bool
}.

#[global] Instance InstanceStoreConfig_eq_dec : EqDecision InstanceStoreConfig.
Proof. solve_decision. Defined.

(** [getAllInstanceIds()]: the keys of [store.db], an object whose entries
    may be [undefined].  The keys are ids as [nanoid()] makes them, kept in
    the order in which they were added. *)
Definition getAllInstanceIds (db : list (string * option InstanceStoreConfig))
    : list string := db.*1.

(** [getInstanceConfig(instance_id)] *)
Definition getInstanceConfig (instance_id : string)
    (db : list (string * option InstanceStoreConfig)) : option InstanceStoreConfig :=
  mjoin (obj_get instance_id db).

(** [getLabelForInstance(id)] *)
Definition getLabelForInstance (i : string)
    (db : list (string * option InstanceStoreConfig)) : option string :=
  label <$> getInstanceConfig i db.

(** [getIdForLabel(label)]: the first entry with that label. *)
Fixpoint getIdForLabel (lbl : string) (db : list (string * option InstanceStoreConfig))
    : option string :=
  match db with
  | [] => None
  | (i, conf) :: rest =>
      match conf with
      | Some c => if decide (label c = lbl) then Some i else getIdForLabel lbl rest
      | None => getIdForLabel lbl rest
      end
  end.

(** One round of the loop of [getInstancesMetrics()]. *)
Definition count_instance (db : list (string * option InstanceStoreConfig))
    (instancesCounts : gmap string nat) (instanceId : string) : gmap string nat :=
  match getInstanceConfig instanceId db with
  | Some instanceConfig =>
      if enabled instanceConfig then
        match instancesCounts !! instance_type instanceConfig with
        | Some n =>
            if decide (n = 0%nat) then <[instance_type instanceConfig := 1%nat]> instancesCounts
            else <[instance_type instanceConfig := S n]> instancesCounts
        | None => <[instance_type instanceConfig := 1%nat]> instancesCounts
        end
      else instancesCounts
  | None => instancesCounts
  end.

(** [getInstancesMetrics()]: how many enabled connections there are of each
    module type.  The module types are taken to be names as modules have
    them, none of which is the name of a member of [Object.prototype]. *)
Definition getInstancesMetrics (db : list (string * option InstanceStoreConfig))
    : gmap string nat :=
  foldl (count_instance db) ∅ (getAllInstanceIds db).

(** The labels that [makeLabelUnique] must avoid: those of the entries
    other than [ignoreId] that have a label. *)
Definition knownLabels (ignoreId : option string)
    (db : list (string * option InstanceStoreConfig)) : list string :=
  omap (λ e : string * option InstanceStoreConfig,
          match e.2 with
             | Some obj =>
                 if decide (Some e.1 ≠ ignoreId ∧ label obj ≠ "") then Some (label obj)
                 else None
             | None => None
             end) db.

(** The loop of [makeLabelUnique]: [i] and [lbl] are the variables [i] and
    [label]; the loop runs as long as [lbl] is a known label. *)
Fixpoint label_loop (fuel : nat) (known : list string) (prefix lbl : string) (i : nat)
    : option string :=
  match fuel with
  | O => None
  | S fuel' =>
      if decide (lbl ∈ known)
      then label_loop fuel' known prefix (prefix +:+ "_" +:+ pretty (S i)) (S i)
      else Some lbl
  end.

(** The label tried in round [k] of that loop: the prefix itself in the
    first round, then the prefix with the suffixes _2, _3, ... *)
Definition nth_label (prefix : string) (k : nat) : string :=
  if decide (k = 1%nat) then prefix else prefix +:+ "_" +:+ pretty k.

Section Labels.

(** [makeLabelSafe] of Shared/Label.js, which is not among the sources. *)
Variable makeLabelSafe : string → string.

(** [makeLabelUnique(prefix, ignoreId)]; the loop is given one round more
    than there are known labels. *)
Definition makeLabelUnique (prefix : string) (ignoreId : option string)
    (db : list (string * option InstanceStoreConfig)) : option string :=
  let known := knownLabels ignoreId db in
  label_loop (S (length known)) known (makeLabelSafe prefix) (makeLabelSafe prefix) 1.

End Labels.

(** The entry [c] after [c.sortOrder = v]. *)
Definition with_sortOrder (v : Z) (c : InstanceStoreConfig) : InstanceStoreConfig :=
  mkInstanceConfig (instance_type c) (label c) (product c) (enabled c) (Some v)
    (isFirstInit c).

(** [entry.sortOrder = v] on the entry with key [k], when there is one. *)
Definition set_sortOrder (k : string) (v : Z)
    (db : list (string * option InstanceStoreConfig))
    : list (string * option InstanceStoreConfig) :=
  (λ e : string * option InstanceStoreConfig,
     if decide (e.1 = k) then (e.1, with_sortOrder v <$> e.2) else e) <$> db.

(** A sequence of such assignments, in order. *)
Definition assign_orders (ps : list (string * Z))
    (db : list (string * option InstanceStoreConfig))
    : list (string * option InstanceStoreConfig) :=
  foldl (λ d (p : string * Z), set_sortOrder p.1 p.2 d) db ps.

(** [a?.sortOrder ?? 0] *)
Definition order_key (e : string * option InstanceStoreConfig) : Z :=
  default 0 (e.2 ≫= sortOrder).

(** [Array.prototype.sort] with the comparator of [instances:set-order]:
    a stable sort by [order_key]. *)
Fixpoint sort_insert (x : string * option InstanceStoreConfig)
    (l : list (string * option InstanceStoreConfig))
    : list (string * option InstanceStoreConfig) :=
  match l with
  | [] => [x]
  | y :: l' => if decide (order_key y < order_key x) then y :: sort_insert x l'
               else x :: y :: l'
  end.

Definition sort_by_order (l : list (string * option InstanceStoreConfig))
    : list (string * option InstanceStoreConfig) :=
  foldr sort_insert [] l.

(** The second loop of [instances:set-order]: the entries that were not
    provided get the following indices; the number is [nextIndex]. *)
Fixpoint order_rest (allKnownIds instanceIds : list string) (nextIndex : Z)
    (db : list (string * option InstanceStoreConfig))
    : list (string * option InstanceStoreConfig) :=
  match allKnownIds with
  | [] => db
  | i :: rest =>
      if decide (i ∈ instanceIds) then order_rest rest instanceIds nextIndex db
      else match getInstanceConfig i db with
           | Some _ => order_rest rest instanceIds (nextIndex + 1)
                         (set_sortOrder i nextIndex db)
           | None => order_rest rest instanceIds nextIndex db
           end
  end.

(** The first loop of [instances:set-order]: each id provided gets its
    index. *)
Definition listed_orders (instanceIds : list string) : list (string * Z) :=
  imap (λ index i, (i, Z.of_nat index)) instanceIds.

(** The handler of [instances:set-order], up to [commitChanges]: the ids
    provided get their index, the others follow in the order they had. *)
Definition instances_set_order (instanceIds : list string)
    (db : list (string * option InstanceStoreConfig))
    : list (string * option InstanceStoreConfig) :=
  let db1 := assign_orders (listed_orders instanceIds) db in
  let allKnownIds := (sort_by_order db1).*1 in
  order_rest allKnownIds instanceIds (Z.of_nat (length instanceIds)) db1.

(** The ids that the second loop numbers, in the order in which it does. *)
Definition unlisted_ids (instanceIds : list string)
    (db : list (string * option InstanceStoreConfig)) : list string :=
  filter (λ i, (i ∉ instanceIds) ∧ is_Some (getInstanceConfig i db))
    (sort_by_order db).*1.

(** All the assignments of [instances:set-order], in the order in which
    they are made. *)
Definition order_plan (instanceIds : list string)
    (db : list (string * option InstanceStoreConfig)) : list (string * Z) :=
  listed_orders instanceIds ++
  imap (λ r i, (i, Z.of_nat (length instanceIds) + Z.of_nat r))
    (unlisted_ids instanceIds (assign_orders (listed_orders instanceIds) db)).

(** The orders of the entries of the store, in the order of its keys. *)
Definition store_orders (db : list (string * option InstanceStoreConfig)) : list Z :=
  omap (λ e : string * option InstanceStoreConfig, e.2 ≫= sortOrder) db.

(** A store with three connections, two of them enabled. *)
Definition sample_store : list (string * option InstanceStoreConfig) :=
  [ ("i1", Some (mkInstanceConfig "atem" "atem" None true (Some 7) false));
    ("i2", Some (mkInstanceConfig "atem" "atem_2" None true (Some 3) false));
    ("gone", None);
    ("i3", Some (mkInstanceConfig "osc" "osc" None false (Some 3) false)) ].

(** Whether an entry of the store counts for the module type [t] in the
    metrics: it has a configuration, is enabled and is of that type. *)
Definition counted (t : string) (e : string * option InstanceStoreConfig) : bool :=
  match e.2 with
  | Some c => enabled c && bool_decide (instance_type c = t)
  | None => false
  end.

(** ** Adding and enabling connections ([Instance/Controller.ts]) *)

(** What the controller reads of a [ModuleInfo]: [display.shortname]. *)
Record ModuleInfo : Type := mkModuleInfo {
  shortname : string
}.

(** The calls the controller makes on the other parts of the application.
    A configuration object is given by its [product], as in an entry. *)
Inductive InstanceCall : Type :=
  | CallCommitChanges
  | CallQueueRestartConnection (i : string) (config : InstanceStoreConfig)
      (moduleInfo : ModuleInfo)
  | CallQueueStopConnection (i : string) (lbl : string)
  | CallUpdateInstanceStatus (i : string) (status : string)
  | CallInstanceLabelRename (oldLabel newLabel : string)
  | CallUpdateVariablePrefixes (i newLabel : string)
  | CallUpdateChildLabel (i newLabel : string)
  | CallUpdateLabel (i newLabel : string)
  | CallUpdateConfig (i : string) (config : option string).

#[global] Instance ModuleInfo_eq_dec : EqDecision ModuleInfo.
Proof. solve_decision. Defined.
#[global] Instance InstanceCall_eq_dec : EqDecision InstanceCall.
Proof. solve_decision. Defined.

Record InstanceState : Type := mkInstances {
  store_db : list (string * option InstanceStoreConfig);
  instance_calls : list InstanceCall
}.

Definition instance_call (c : InstanceCall) (st : InstanceState) : InstanceState :=
  mkInstances (store_db st) (instance_calls st ++ [c]).

(** [this.store.db[id] = entry], also for the writes to the fields of the
    entry of [id], which is one object. *)
Definition set_entry (i : string) (entry : InstanceStoreConfig) (st : InstanceState)
    : InstanceState :=
  mkInstances (obj_set i (Some entry) (store_db st)) (instance_calls st).

(** [Math.max(0, ...orders) || 0] over the entries whose order is a number. *)
Definition highestRank (db : list (string * option InstanceStoreConfig)) : Z :=
  foldr Z.max 0 (store_orders db).

(** Whether a call asks the module host to start a connection. *)
Definition is_restart (c : InstanceCall) : bool :=
  match c with
  | CallQueueRestartConnection _ _ _ => true
  | _ => false
  end.

Section Connections.

Variable makeLabelSafe : string → string.
Variable known_modules : gmap string ModuleInfo.
Variable module_renames : gmap string string.

(** [moduleHost.getChild(id, true)]: whether the connection has a child. *)
Variable has_child : string → bool.

(** [verifyInstanceTypeIsCurrent(instance_type)] *)
Definition verifyInstanceTypeIsCurrent (t : string) : string :=
  match module_renames !! t with
  | Some renamed => if decide (renamed = "") then t else renamed
  | None => t
  end.

(** [setInstanceLabelAndConfig(id, newLabel, config, skip_notify_instance)];
    [None] stands for [null]. *)
Definition setInstanceLabelAndConfig (i : string) (newLabel : option string)
    (config : option (option string)) (skip_notify_instance : bool)
    (st : InstanceState) : InstanceState :=
  match getInstanceConfig i (store_db st) with
  | None => st
  | Some entry =>
      let product1 := default (product entry) config in
      let rename :=
        match newLabel with
        | Some l => bool_decide (l ≠ "" ∧ label entry ≠ l)
        | None => false
        end in
      let label1 := if rename then default "" newLabel else label entry in
      let entry1 :=
        mkInstanceConfig (instance_type entry) label1 product1 (enabled entry)
          (sortOrder entry) false in
      let truthy_label :=
        match newLabel with
        | Some l => if decide (l = "") then None else Some l
        | None => None
        end in
      mkInstances (obj_set i (Some entry1) (store_db st))
        (instance_calls st
           ++ (if rename
               then [CallInstanceLabelRename (label entry) label1;
                     CallUpdateVariablePrefixes i label1]
               else [])
           ++ [CallCommitChanges]
           ++ match truthy_label with
              | Some l =>
                  CallUpdateChildLabel i l ::
                  (if has_child i then [CallUpdateLabel i l] else [])
              | None => []
              end
           ++ match config with
              | Some c =>
                  if has_child i && negb skip_notify_instance
                  then [CallUpdateConfig i c] else []
              | None => []
              end)
  end.

(** [activate_module(id, is_being_created)]; [None] when it throws. *)
Definition activate_module (i : string) (is_being_created : bool)
    (st : InstanceState) : option InstanceState :=
  match getInstanceConfig i (store_db st) with
  | None => None
  | Some config =>
      let config1 :=
        mkInstanceConfig (verifyInstanceTypeIsCurrent (instance_type config))
          (label config) (product config) (enabled config) (sortOrder config)
          (isFirstInit config) in
      let st1 := set_entry i config1 st in
      if negb (enabled config1) then Some st1
      else
        let safeLabel := makeLabelSafe (label config1) in
        let st2 :=
          if negb is_being_created && bool_decide (safeLabel ≠ label config1)
          then setInstanceLabelAndConfig i (Some safeLabel) None true st1
          else st1 in
        match getInstanceConfig i (store_db st2) with
        | Some config2 =>
            match known_modules !! instance_type config2 with
            | Some moduleInfo =>
                Some (instance_call (CallQueueRestartConnection i config2 moduleInfo) st2)
            | None => Some st2
            end
        | None => Some st2
        end
  end.

(** [addInstance(data, disabled)], where [i] is the id that [nanoid()]
    gives.  [makeLabelUnique] is modelled with fuel, so that there is a
    branch here for a loop that runs out of it. *)
Definition addInstance (type : string) (data_product : option string)
    (disabled : bool) (i : string) (st : InstanceState)
    : option string * InstanceState :=
  let highest := highestRank (store_db st) in
  match known_modules !! type with
  | Some moduleInfo =>
      match makeLabelUnique makeLabelSafe (shortname moduleInfo) None (store_db st) with
      | Some lbl =>
          let config :=
            mkInstanceConfig type lbl data_product false (Some (highest + 1)) true in
          let st1 := set_entry i config st in
          let st2 :=
            if disabled
            then set_entry i
                   (mkInstanceConfig type lbl data_product false (Some (highest + 1)) true)
                   st1
            else st1 in
          match activate_module i true st2 with
          | Some st3 => (Some i, instance_call CallCommitChanges st3)
          | None => (None, st2)
          end
      | None => (None, st)
      end
  | None => (None, st)
  end.

(** [enableDisableInstance(id, state)]; the work that follows the stop of
    a connection is left to the promise it is chained on. *)
Definition enableDisableInstance (i : string) (state : bool) (st : InstanceState)
    : option InstanceState :=
  match getInstanceConfig i (store_db st) with
  | Some instanceConfig =>
      if bool_decide (enabled instanceConfig ≠ state) then
        let st1 :=
          set_entry i
            (mkInstanceConfig (instance_type instanceConfig) (label instanceConfig)
               (product instanceConfig) state (sortOrder instanceConfig)
               (isFirstInit instanceConfig)) st in
        if state then
          st2 ← activate_module i false
                  (instance_call (CallUpdateInstanceStatus i "Starting") st1);
          Some (instance_call CallCommitChanges st2)
        else
          Some (instance_call CallCommitChanges
                  (instance_call (CallQueueStopConnection i (label instanceConfig)) st1))
      else Some st
  | None => Some st
  end.

End Connections.

Section SetConfig.

Variable has_child : string → bool.

(** [isLabelValid] of Shared/Label.js, which is not among the sources. *)
Variable isLabelValid : string → bool.

(** The handler of [instances:set-config]; the answer [None] is [null]. *)
Definition instances_set_config (i lbl : string) (config : option (option string))
    (st : InstanceState) : option string * InstanceState :=
  let refused :=
    match getIdForLabel lbl (store_db st) with
    | Some idUsingLabel => bool_decide (idUsingLabel ≠ "" ∧ idUsingLabel ≠ i)
    | None => false
    end in
  if refused then (Some "duplicate label", st)
  else if negb (isLabelValid lbl) then (Some "invalid label", st)
  else (None, setInstanceLabelAndConfig has_child i (Some lbl) config false st).

End SetConfig.

(** ** The registry of controls ([Controls/Controller.ts]) *)

(** The control classes, which are not among the sources: a control object
    is taken to be the class it was made from together with the arguments
    its constructor was given. *)
Inductive ControlClass : Type :=
  | ControlButtonNormal
  | ControlButtonPageNumber
  | ControlButtonPageUp
  | ControlButtonPageDown
  | ControlTrigger.

(** A control as it is exported and stored: its [type] and the rest. *)
Record ControlJson : Type := mkJson {
  json_type : string;
  json_rest : string
}.

Record SomeControl : Type := mkSomeControl {
  ctl_class : ControlClass;
  ctl_controlId : string;
  ctl_controlObj : option ControlJson;
  ctl_isImport : bool
}.

Inductive Category : Type := CategoryAll | CategoryBank | CategoryTrigger.

(** The calls the registry makes on its controls and on the other parts of
    the application. *)
Inductive RegistryCall : Type :=
  | CallDestroy (control : SomeControl)
  | CallDbUnset (controlId : string)
  | CallUpdateBankState (page bank : Z)
  | CallInvalidateControl (controlId : string)
  | CallCommitChange (control : SomeControl)
  | CallWarnUnknownType (controlId controlType : string).

#[global] Instance ControlClass_eq_dec : EqDecision ControlClass.
Proof. solve_decision. Defined.
#[global] Instance ControlJson_eq_dec : EqDecision ControlJson.
Proof. solve_decision. Defined.
#[global] Instance SomeControl_eq_dec : EqDecision SomeControl.
Proof. solve_decision. Defined.
#[global] Instance RegistryCall_eq_dec : EqDecision RegistryCall.
Proof. solve_decision. Defined.

(** The object [#controls], whose keys may hold [undefined], and the calls
    made so far. *)
Record ControlStore : Type := mkStore {
  store_controls : list (string * option SomeControl);
  store_calls : list RegistryCall
}.

Definition log_call (c : RegistryCall) (r : ControlStore) : ControlStore :=
  mkStore (store_controls r) (store_calls r ++ [c]).

(** [delete o[k]] *)
Definition obj_delete {V : Type} (k : string) (o : list (string * V)) : list (string * V) :=
  filter (λ e, e.1 ≠ k) o.

(** [this.#controls[controlId] = v] *)
Definition set_control (controlId : string) (v : option SomeControl)
    (r : ControlStore) : ControlStore :=
  mkStore (obj_set controlId v (store_controls r)) (store_calls r).

(** [getControl(controlId)] *)
Definition getControl (controlId : string) (r : ControlStore) : option SomeControl :=
  mjoin (obj_get controlId (store_controls r)).

(** The class that [#createClassForControl] picks for a category and a
    type, if any. *)
Definition class_for (category : Category) (controlType : string) : option ControlClass :=
  let bank_class :=
    if decide (controlType = "button") then Some ControlButtonNormal
    else if decide (controlType = "pagenum") then Some ControlButtonPageNumber
    else if decide (controlType = "pageup") then Some ControlButtonPageUp
    else if decide (controlType = "pagedown") then Some ControlButtonPageDown
    else None in
  let trigger_class :=
    if decide (controlType = "trigger") then Some ControlTrigger else None in
  match category with
  | CategoryAll => match bank_class with Some c => Some c | None => trigger_class end
  | CategoryBank => bank_class
  | CategoryTrigger => trigger_class
  end.

(** [#createClassForControl(controlId, category, controlType, controlObj, isImport)] *)
Definition createClassForControl (controlId : string) (category : Category)
    (controlType : string) (controlObj : option ControlJson) (isImport : bool)
    (r : ControlStore) : option SomeControl * ControlStore :=
  match class_for category controlType with
  | Some cls => (Some (mkSomeControl cls controlId controlObj isImport), r)
  | None => (None, log_call (CallWarnUnknownType controlId controlType) r)
  end.

(** [#validateTriggerControlId(controlId)] *)
Definition validateTriggerControlId (controlId : string) : bool :=
  match ParseControlId controlId with
  | Some (ParsedTrigger _) => true
  | _ => false
  end.

(** The constructor: the controls of the stored configuration. *)
Definition init_controls (config : list (string * option ControlJson)) : ControlStore :=
  foldl
    (λ r (e : string * option ControlJson),
       match e.2 with
       | Some controlObj =>
           if decide (json_type controlObj = "") then r
           else
             let '(inst, r1) :=
               createClassForControl e.1 CategoryAll (json_type controlObj)
                 (Some controlObj) false r in
             match inst with
             | Some _ => set_control e.1 inst r1
             | None => r1
             end
       | None => r
       end)
    (mkStore [] []) config.

(** The three statements by which [resetControl] and [triggers:delete]
    take a control away: [control.destroy()], the [delete] and the
    [db.setKey] with [undefined]. *)
Definition destroy_control (controlId : string) (control : SomeControl)
    (r : ControlStore) : ControlStore :=
  let r1 := log_call (CallDestroy control) r in
  log_call (CallDbUnset controlId)
    (mkStore (obj_delete controlId (store_controls r1)) (store_calls r1)).

(** [triggers:delete] *)
Definition triggers_delete (controlId : string) (r : ControlStore) : bool * ControlStore :=
  if validateTriggerControlId controlId then
    match getControl controlId r with
    | Some control => (true, destroy_control controlId control r)
    | None => (false, r)
    end
  else (false, r).

(** The first statement of [resetControl]: the control of that id, if
    there is one, is taken away. *)
Definition drop_control (controlId : string) (r : ControlStore) : ControlStore :=
  match getControl controlId r with
  | Some control => destroy_control controlId control r
  | None => r
  end.

(** The notification of [resetControl] to the Ember+ service. *)
Definition notify_reset (controlId : string) (r : ControlStore) : ControlStore :=
  match ParseControlId controlId with
  | Some (ParsedBank page bank) => log_call (CallUpdateBankState page bank) r
  | _ => r
  end.

Section Registry.

Variable MAX_BUTTONS : nat.

(** [toJSON(clone)] of the control classes. *)
Variable toJSON : SomeControl → bool → ControlJson.

(** [#validateBankControlId(controlId)] *)
Definition validateBankControlId (controlId : string) : bool :=
  match ParseControlId controlId with
  | Some (ParsedBank page bank) =>
      if decide (page < 1 ∨ page > 99) then false
      else if decide (bank < 1 ∨ bank > Z.of_nat MAX_BUTTONS) then false
      else true
  | _ => false
  end.

(** [resetControl(controlId, newType)] *)
Definition resetControl (controlId : string) (newType : option string)
    (r : ControlStore) : bool * ControlStore :=
  let r1 := drop_control controlId r in
  if validateBankControlId controlId then
    let r2 := notify_reset controlId r1 in
    match newType with
    | Some t =>
        if decide (t = "") then (true, log_call (CallInvalidateControl controlId) r2)
        else
          let '(inst, r3) := createClassForControl controlId CategoryBank t None false r2 in
          (true, set_control controlId inst r3)
    | None => (true, log_call (CallInvalidateControl controlId) r2)
    end
  else (false, r1).

(** [resetAllControls()] *)
Definition resetAllControls (r : ControlStore) : ControlStore :=
  foldl (λ r' controlId, (resetControl controlId None r').2) r (store_controls r).*1.

(** [importControl(controlId, definition)] *)
Definition importControl (controlId : string) (definition : ControlJson)
    (r : ControlStore) : bool * ControlStore :=
  if validateBankControlId controlId then
    let '(newControl, r1) :=
      createClassForControl controlId CategoryBank (json_type definition)
        (Some definition) true r in
    match newControl with
    | Some control =>
        let r2 := (resetControl controlId None r1).2 in
        (true, log_call (CallCommitChange control) (set_control controlId newControl r2))
    | None => (false, r1)
    end
  else (false, r).

(** [controls:copy] *)
Definition controls_copy (fromControlId toControlId : string) (r : ControlStore)
    : bool * ControlStore :=
  if validateBankControlId toControlId then
    match getControl fromControlId r with
    | Some fromControl =>
        if decide (fromControlId ≠ toControlId) then
          let controlJson := toJSON fromControl true in
          let '(newControl, r1) :=
            createClassForControl toControlId CategoryBank (json_type controlJson)
              (Some controlJson) true r in
          match newControl with
          | Some _ =>
              let r2 := (resetControl toControlId None r1).2 in
              (true, set_control toControlId newControl r2)
          | None => (false, r1)
          end
        else (false, r)
    | None => (false, r)
    end
  else (false, r).

(** [controls:move] *)
Definition controls_move (fromControlId toControlId : string) (r : ControlStore)
    : bool * ControlStore :=
  if validateBankControlId toControlId then
    match getControl fromControlId r with
    | Some fromControl =>
        if decide (fromControlId ≠ toControlId) then
          let controlJson := toJSON fromControl true in
          let '(newControl, r1) :=
            createClassForControl toControlId CategoryBank (json_type controlJson)
              (Some controlJson) true r in
          match newControl with
          | Some _ =>
              let r2 := (resetControl toControlId None r1).2 in
              let r3 := (resetControl fromControlId None r2).2 in
              (true, set_control toControlId newControl r3)
          | None => (false, r1)
          end
        else (false, r)
    | None => (false, r)
    end
  else (false, r).

(** The two halves of [controls:swap] that create the new controls. *)
Definition place_json (controlId : string) (json : option ControlJson)
    (r : ControlStore) : ControlStore :=
  match json with
  | Some controlJson =>
      let '(newControl, r1) :=
        createClassForControl controlId CategoryBank (json_type controlJson)
          (Some controlJson) true r in
      match newControl with
      | Some _ => set_control controlId newControl r1
      | None => r1
      end
  | None => r
  end.

(** [controls:swap] *)
Definition controls_swap (controlIdA controlIdB : string) (r : ControlStore)
    : bool * ControlStore :=
  if negb (validateBankControlId controlIdA) || negb (validateBankControlId controlIdB)
  then (false, r)
  else
    let controlA := getControl controlIdA r in
    let controlB := getControl controlIdB r in
    match controlA, controlB with
    | None, None => (true, r)
    | _, _ =>
        let controlAJson := (λ c, toJSON c true) <$> controlA in
        let controlBJson := (λ c, toJSON c true) <$> controlB in
        let r1 := (resetControl controlIdA None r).2 in
        let r2 := (resetControl controlIdB None r1).2 in
        (true, place_json controlIdA controlBJson (place_json controlIdB controlAJson r2))
    end.

(** [triggers:clone], where [newControlId] is the id made from [nanoid()]. *)
Definition triggers_clone (controlId newControlId : string) (r : ControlStore)
    : option string * ControlStore :=
  if validateTriggerControlId controlId then
    match getControl controlId r with
    | Some fromControl =>
        let controlJson := toJSON fromControl true in
        let '(newControl, r1) :=
          createClassForControl newControlId CategoryTrigger (json_type controlJson)
            (Some controlJson) true r in
        match newControl with
        | Some _ => (Some newControlId, set_control newControlId newControl r1)
        | None => (None, r1)
        end
    | None => (None, r)
    end
  else (None, r).

End Registry.

(** The control that an import of [json] makes for a button id, if the
    type of [json] is one a button may have. *)
Definition imported_control (controlId : string) (json : ControlJson) : option SomeControl :=
  (λ cls, mkSomeControl cls controlId (Some json) true)
    <$> class_for CategoryBank (json_type json).

(** Every control is kept under its own id, and no trigger is kept under
    the id of a button. *)
Definition well_placed (MAX_BUTTONS : nat) (r : ControlStore) : Prop :=
  ∀ k c, getControl k r = Some c →
    ctl_controlId c = k ∧
    (validateBankControlId MAX_BUTTONS k = true → ctl_class c ≠ ControlTrigger).

Section RegistrySteps.

Variable MAX_BUTTONS : nat.
Variable toJSON : SomeControl → bool → ControlJson.

(** The operations on the registry.  The id that [triggers:clone] makes
    with [CreateTriggerControlId] is taken to be the id of a trigger. *)
Inductive registry_step : ControlStore → ControlStore → Prop :=
  | reg_reset k newType r :
      registry_step r (resetControl MAX_BUTTONS k newType r).2
  | reg_reset_all r :
      registry_step r (resetAllControls MAX_BUTTONS r)
  | reg_import k definition r :
      registry_step r (importControl MAX_BUTTONS k definition r).2
  | reg_copy k k' r :
      registry_step r (controls_copy MAX_BUTTONS toJSON k k' r).2
  | reg_move k k' r :
      registry_step r (controls_move MAX_BUTTONS toJSON k k' r).2
  | reg_swap k k' r :
      registry_step r (controls_swap MAX_BUTTONS toJSON k k' r).2
  | reg_trigger_delete k r :
      registry_step r (triggers_delete k r).2
  | reg_trigger_clone k newControlId r :
      validateTriggerControlId newControlId = true →
      registry_step r (triggers_clone toJSON k newControlId r).2.

End RegistrySteps.

(** A stand-in for the exports of the control classes, and a registry with
    a button, an emptied key and a trigger. *)
Definition class_type (cls : ControlClass) : string :=
  match cls with
  | ControlButtonNormal => "button"
  | ControlButtonPageNumber => "pagenum"
  | ControlButtonPageUp => "pageup"
  | ControlButtonPageDown => "pagedown"
  | ControlTrigger => "trigger"
  end.

Definition sample_toJSON (c : SomeControl) (clone : bool) : ControlJson :=
  mkJson (class_type (ctl_class c)) (from_option json_rest "" (ctl_controlObj c)).

Definition sample_registry : ControlStore :=
  mkStore
    [ ("bank:1-1", Some (mkSomeControl ControlButtonNormal "bank:1-1" None false));
      ("bank:1-2", None);
      ("trigger:t1", Some (mkSomeControl ControlTrigger "trigger:t1" None false)) ]
    [].

(** The controls a trace of calls destroyed, in order. *)
Definition destroyed (calls : list RegistryCall) : list SomeControl :=
  omap (λ c, match c with CallDestroy control => Some control | _ => None end) calls.

(** ** The effective delays *)

Section Delays.

Implicit Types (actions : list ActionInstance) (tbl : gmap string Z).

Lemma delay_writes_keys relative tmp actions :
  (delay_writes relative tmp actions).*1 = id <$> actions.
Proof.
  revert tmp. induction actions as [|a rest IH]; intros tmp; [done|].
  cbn. by rewrite IH.
Qed.


Lemma delay_writes_relative tmp actions :
  delay_writes true tmp actions =
  imap (λ i a, (id a, tmp + sum_delays (this_delay <$> take (S i) actions))) actions.
Proof.
  revert tmp. induction actions as [|a rest IH]; intros tmp; [done|].
  cbn [delay_writes imap]. f_equal.
  - unfold sum_delays. cbn. rewrite take_0. cbn. f_equal. lia.
  - rewrite IH. apply imap_ext. intros i b _. unfold sum_delays. cbn. f_equal. lia.
Qed.

Lemma delay_writes_absolute tmp actions :
  delay_writes false tmp actions = (λ a, (id a, this_delay a)) <$> actions.
Proof.
  revert tmp. induction actions as [|a rest IH]; intros tmp; [done|].
  cbn. by rewrite IH.
Qed.

(** A key that is not written keeps its value. *)
Lemma writes_lookup_other (writes : list (string * Z)) tbl k :
  k ∉ writes.*1 →
  foldl (λ tbl w, <[w.1 := w.2]> tbl) tbl writes !! k = tbl !! k.
Proof.
  revert tbl. induction writes as [|[k' v] rest IH]; intros tbl Hk; [done|].
  cbn in *. apply not_elem_of_cons in Hk as [Hne Hk].
  rewrite IH by done. by rewrite lookup_insert_ne.
Qed.

(** The table holds, for a key, the value of the last write to it. *)
Lemma writes_lookup_last (before after : list (string * Z)) tbl k v :
  k ∉ after.*1 →
  foldl (λ tbl w, <[w.1 := w.2]> tbl) tbl (before ++ (k, v) :: after) !! k = Some v.
Proof.
  intros Hk. rewrite foldl_app. cbn.
  rewrite writes_lookup_other by done. apply lookup_insert_eq.
Qed.

Lemma delay_time_last_occurrence relative actions j b d :
  actions !! j = Some b →
  (∀ k c, (j < k)%nat → actions !! k = Some c → id c ≠ id b) →
  delay_writes relative 0 actions !! j = Some (id b, d) →
  delay_time (effective_delays relative actions) b = d.
Proof.
  intros Hb Hlast Hw. unfold delay_time, effective_delays.
  rewrite <- (take_drop_middle _ _ _ Hw).
  rewrite writes_lookup_last; [done|].
  intros Hin. apply list_elem_of_lookup in Hin as [k Hk].
  rewrite list_lookup_fmap, lookup_drop in Hk.
  destruct (delay_writes relative 0 actions !! (S j + k)%nat) as [[k' v']|] eqn:E;
    [|done].
  cbn in Hk. injection Hk as ->.
  assert (Hk' : (delay_writes relative 0 actions).*1 !! (S j + k)%nat = Some (id b))
    by (by rewrite list_lookup_fmap, E).
  rewrite delay_writes_keys, list_lookup_fmap in Hk'.
  destruct (actions !! (S j + k)%nat) as [c|] eqn:Ec; [|done].
  cbn in Hk'. injection Hk' as Hid.
  by eapply (Hlast (S j + k)%nat c); [lia| |].
Qed.


End Delays.

(** C1. In relative mode the value assigned to the action at position [i]
    of the enabled actions is the sum of the coerced delays of the enabled
    actions at positions [0..i]; disabled actions take no part.  For the
    delays 5, 0, 10 (behind a disabled action with delay 100) the effective
    delays read back by the second loop, and the delays of the timers armed
    by [runMultipleActions], are 5, 5, 15. *)
Theorem C1_relative_running_sum :
  (∀ actions0,
     let actions := enabled_actions actions0 in
     delay_writes true 0 actions =
       imap (λ i a, (id a, sum_delays (this_delay <$> take (S i) actions))) actions) ∧
  (∀ actions0 a, a ∈ enabled_actions actions0 ↔ a ∈ actions0 ∧ disabled a = false) ∧
  this_delay <$> enabled_actions sample_actions = [5; 0; 10] ∧
  delay_time (effective_delays true (enabled_actions sample_actions))
    <$> enabled_actions sample_actions = [5; 5; 15] ∧
  (λ e, job_delay e.2)
    <$> node_timers (runMultipleActions 32 no_connector sample_actions "bank:1-1"
                       true None one_button) = [5; 5; 15].
Proof.
  split_and!.
  - intros actions0 actions. rewrite delay_writes_relative.
    apply imap_ext. intros i a _. cbn. f_equal.
  - intros actions0 a. unfold enabled_actions. by rewrite list_elem_of_filter, (comm and).
  - reflexivity.
  - vm_compute. reflexivity.
  - vm_compute. reflexivity.
Qed.


(** ** Association lists with distinct keys *)

Section Assoc.

Context {V : Type}.
Implicit Types (m : list (nat * V)).

Lemma NoDup_keys_agree m k v1 v2 :
  NoDup m.*1 → (k, v1) ∈ m → (k, v2) ∈ m → v1 = v2.
Proof.
  induction m as [|[k' v'] m IH]; cbn; intros Hnd H1 H2.
  - by apply elem_of_nil in H1.
  - apply NoDup_cons in Hnd as [Hk Hnd].
    apply elem_of_cons in H1 as [H1|H1], H2 as [H2|H2]; simplify_eq.
    + done.
    + destruct Hk. by apply (list_elem_of_fmap_2' fst _ (k', v2)).
    + destruct Hk. by apply (list_elem_of_fmap_2' fst _ (k', v1)).
    + eauto.
Qed.

Lemma map_get_Some m t v : map_get t m = Some v → (t, v) ∈ m.
Proof.
  unfold map_get. intros H.
  destruct (list_find (λ e, e.1 = t) m) as [[i [t' v']]|] eqn:E; [|done].
  cbn in H. injection H as ->.
  apply list_find_Some in E as (Hi & Ht & _). cbn in Ht. subst.
  by eapply list_elem_of_lookup_2.
Qed.

Lemma map_get_elem_of m t v : NoDup m.*1 → (t, v) ∈ m → map_get t m = Some v.
Proof.
  intros Hnd Hin. unfold map_get.
  destruct (list_find_elem_of (λ e : nat * V, e.1 = t) m (t, v) Hin eq_refl)
    as [[i [t' v']] E].
  rewrite E. cbn. f_equal.
  apply list_find_Some in E as (Hi & Ht & _). cbn in Ht. subst.
  apply list_elem_of_lookup_2 in Hi. by eapply NoDup_keys_agree.
Qed.

Lemma map_delete_elem_of m t e : e ∈ map_delete t m ↔ e.1 ≠ t ∧ e ∈ m.
Proof. unfold map_delete. by rewrite list_elem_of_filter. Qed.

Lemma map_delete_sublist m t : map_delete t m `sublist_of` m.
Proof. apply sublist_filter. Qed.

Lemma map_delete_key m t : t ∉ (map_delete t m).*1.
Proof.
  intros Hin. apply list_elem_of_fmap in Hin as ([t' v] & -> & Hin).
  apply map_delete_elem_of in Hin as [Hne _]. by destruct Hne.
Qed.

Lemma sublist_keys_NoDup m m' : m' `sublist_of` m → NoDup m.*1 → NoDup m'.*1.
Proof. intros Hs Hnd. eapply sublist_NoDup; [done|]. by apply fmap_sublist. Qed.

End Assoc.

Lemma map_set_fresh t c (m : list (nat * string)) :
  t ∉ m.*1 → map_set t c m = m ++ [(t, c)].
Proof.
  induction m as [|[t' c'] m IH]; cbn; intros Hin; [done|].
  apply not_elem_of_cons in Hin as [Hne Hin].
  rewrite decide_False by done. by rewrite IH.
Qed.

Lemma keys_sublist {V : Type} (m m' : list (nat * V)) t :
  m' `sublist_of` m → t ∈ m'.*1 → t ∈ m.*1.
Proof. intros Hs. apply sublist_subseteq. by apply fmap_sublist. Qed.

Lemma owners_sublist (m m' : list (nat * string)) c :
  m' `sublist_of` m → c ∈ m'.*2 → c ∈ m.*2.
Proof. intros Hs. apply sublist_subseteq. by apply fmap_sublist. Qed.

(** ** Telling a control whether its actions run *)

Section Running.

Implicit Types (st : State) (c : string).

Lemma sir_off c r s st :
  can_run st c = false → setControlIsRunning c r s st = st.
Proof.
  unfold can_run, setControlIsRunning.
  destruct (controls st !! c) as [control|]; [|done]. by intros ->.
Qed.

Lemma sir_timers c r s st :
  timers_running (setControlIsRunning c r s st) = timers_running st.
Proof.
  unfold setControlIsRunning.
  destruct (controls st !! c) as [control|]; [|done].
  by destruct (has_setActionsRunning control).
Qed.

Lemma sir_node c r s st :
  node_timers (setControlIsRunning c r s st) = node_timers st.
Proof.
  unfold setControlIsRunning.
  destruct (controls st !! c) as [control|]; [|done].
  by destruct (has_setActionsRunning control).
Qed.

Lemma sir_next c r s st :
  next_timer (setControlIsRunning c r s st) = next_timer st.
Proof.
  unfold setControlIsRunning.
  destruct (controls st !! c) as [control|]; [|done].
  by destruct (has_setActionsRunning control).
Qed.

Lemma sir_promises c r s st :
  promises (setControlIsRunning c r s st) = promises st.
Proof.
  unfold setControlIsRunning.
  destruct (controls st !! c) as [control|]; [|done].
  by destruct (has_setActionsRunning control).
Qed.

Lemma sir_trace c r s st :
  trace (setControlIsRunning c r s st) =
  trace st ++ (if can_run st c then [EvSetActionsRunning c r s] else []).
Proof.
  unfold setControlIsRunning, can_run.
  destruct (controls st !! c) as [control|]; [|by rewrite app_nil_r].
  destruct (has_setActionsRunning control); [done|by rewrite app_nil_r].
Qed.

Lemma sir_controls_ne c c' r s st :
  c' ≠ c → controls (setControlIsRunning c r s st) !! c' = controls st !! c'.
Proof.
  intros Hne. unfold setControlIsRunning.
  destruct (controls st !! c) as [control|]; [|done].
  destruct (has_setActionsRunning control); [|done].
  cbn. by rewrite lookup_insert_ne.
Qed.

Lemma sir_can_run c c' r s st :
  can_run (setControlIsRunning c r s st) c' = can_run st c'.
Proof.
  destruct (decide (c' = c)) as [->|Hne].
  - unfold can_run, setControlIsRunning.
    destruct (controls st !! c) as [control|] eqn:E; [|by rewrite E].
    destruct (has_setActionsRunning control) eqn:Eh; [|by rewrite E, Eh].
    cbn. by rewrite lookup_insert_eq.
  - unfold can_run. by rewrite sir_controls_ne.
Qed.

Lemma sir_flag c r s st :
  running_flag (setControlIsRunning c r s st) c =
  if can_run st c then Some r else running_flag st c.
Proof.
  unfold running_flag, can_run, setControlIsRunning.
  destruct (controls st !! c) as [control|] eqn:E; [|by rewrite E].
  destruct (has_setActionsRunning control) eqn:Eh; [|by rewrite E].
  cbn. by rewrite lookup_insert_eq.
Qed.

Lemma sir_flag_ne c c' r s st :
  c' ≠ c → running_flag (setControlIsRunning c r s st) c' = running_flag st c'.
Proof. intros Hne. unfold running_flag. by rewrite sir_controls_ne. Qed.

Lemma sir_flag_false c c' s st :
  running_flag st c' = Some false →
  running_flag (setControlIsRunning c false s st) c' = Some false.
Proof.
  intros Hf. destruct (decide (c' = c)) as [->|Hne].
  - rewrite sir_flag. by destruct (can_run st c).
  - by rewrite sir_flag_ne.
Qed.

End Running.

(** ** What a trace shows *)

Section Traces.

Implicit Types (evs : list Event) (c : string).

Lemma dispatched_actions_app evs1 evs2 :
  dispatched_actions (evs1 ++ evs2) = dispatched_actions evs1 ++ dispatched_actions evs2.
Proof. apply omap_app. Qed.

Lemma dispatched_actions_cons e a evs :
  dispatched e = Some a → dispatched_actions (e :: evs) = a :: dispatched_actions evs.
Proof. intros He. unfold dispatched_actions. cbn. by rewrite He. Qed.

Lemma set_calls_app c evs1 evs2 :
  set_calls c (evs1 ++ evs2) = set_calls c evs1 ++ set_calls c evs2.
Proof. apply omap_app. Qed.

Lemma set_calls_clear c (ts : list nat) : set_calls c (EvClearTimeout <$> ts) = [].
Proof. induction ts as [|t ts IH]; [done|]. cbn. apply IH. Qed.

Lemma dispatched_clear (ts : list nat) : dispatched_actions (EvClearTimeout <$> ts) = [].
Proof. induction ts as [|t ts IH]; [done|]. cbn. apply IH. Qed.

Lemma handled_clear (ts : list nat) :
  Forall (λ e, is_unhandled e = false) (EvClearTimeout <$> ts).
Proof. apply Forall_fmap. by apply Forall_forall. Qed.

Lemma set_calls_self c r s : set_calls c [EvSetActionsRunning c r s] = [(r, s)].
Proof. cbn. by rewrite decide_True. Qed.

Lemma set_calls_other c c' r s :
  c' ≠ c → set_calls c [EvSetActionsRunning c' r s] = [].
Proof. intros Hne. cbn. by rewrite decide_False. Qed.

End Traces.

(** ** Composition of calm steps *)

Section Calm.

Implicit Types (st : State) (c : string).

Lemma calm_refl st : calm st st.
Proof.
  apply (Calm st st []).
  - by rewrite app_nil_r.
  - done.
  - intros c x Hx. by apply elem_of_nil in Hx.
  - done.
  - done.
  - done.
  - done.
  - done.
  - done.
  - done.
  - intros _ c Hin Hout. done.
  - done.
  - done.
Qed.

Lemma calm_trans st1 st2 st3 : calm st1 st2 → calm st2 st3 → calm st1 st3.
Proof.
  intros [evs1 Ht1 Hq1 Hc1 Hf1 Hr1 Hs1 Hn1 Hx1 Hp1 Hv1 Hl1 Hz1 Hh1]
         [evs2 Ht2 Hq2 Hc2 Hf2 Hr2 Hs2 Hn2 Hx2 Hp2 Hv2 Hl2 Hz2 Hh2].
  apply (Calm st1 st3 (evs1 ++ evs2)).
  - by rewrite Ht2, Ht1, app_assoc.
  - by rewrite dispatched_actions_app, Hq1, Hq2.
  - intros c x. rewrite set_calls_app, elem_of_app. intros [Hx|Hx].
    + destruct (Hc1 c x Hx) as [? Hown]. split; [done|].
      intros Hin. apply Hown. by eapply owners_sublist.
    + by apply Hc2.
  - intros c. rewrite set_calls_app. intros [H1 H2]%app_eq_nil.
    by rewrite Hf2, Hf1.
  - intros c. by rewrite Hr2, Hr1.
  - by etrans.
  - by etrans.
  - congruence.
  - congruence.
  - intros t c job Hin Hjob. eapply Hv2; [done|]. eapply Hv1; [|done].
    by eapply (sublist_subseteq _ _ Hs2).
  - intros Hnd c Hin Hout Hcan.
    destruct (decide (c ∈ (timers_running st2).*2)) as [Hmid|Hmid].
    + apply Hl2; [by eapply sublist_keys_NoDup|done|done|by rewrite Hr1].
    + apply Hz2. by apply Hl1.
  - auto.
  - by apply Forall_app.
Qed.

(** An event that is neither a dispatch nor a call of a control's
    [setActionsRunning]. *)
Lemma calm_emit e st :
  dispatched e = None →
  (∀ c, set_calls c [e] = []) →
  is_unhandled e = false →
  calm st (emit e st).
Proof.
  intros Hd Hs Hu. apply (Calm st (emit e st) [e]).
  - done.
  - cbn. by rewrite Hd.
  - intros c x. rewrite Hs. intros Hx. by apply elem_of_nil in Hx.
  - done.
  - done.
  - done.
  - done.
  - done.
  - done.
  - done.
  - intros _ c Hin Hout. done.
  - done.
  - by constructor.
Qed.

(** A control that owns no pending timer is told that its actions
    stopped. *)
Lemma calm_stopped c s st :
  c ∉ (timers_running st).*2 → calm st (setControlIsRunning c false s st).
Proof.
  intros Hown.
  apply (Calm st _ (if can_run st c then [EvSetActionsRunning c false s] else [])).
  - apply sir_trace.
  - by destruct (can_run st c).
  - intros c' x Hx. rewrite sir_timers.
    destruct (can_run st c); [|by apply elem_of_nil in Hx].
    destruct (decide (c = c')) as [->|Hne].
    + rewrite set_calls_self in Hx. apply list_elem_of_singleton in Hx as ->. done.
    + rewrite set_calls_other in Hx by done. by apply elem_of_nil in Hx.
  - intros c' Hx. destruct (can_run st c) eqn:E.
    + destruct (decide (c = c')) as [->|Hne].
      * by rewrite set_calls_self in Hx.
      * by apply sir_controls_ne.
    + by rewrite sir_off.
  - intros c'. apply sir_can_run.
  - by rewrite sir_timers.
  - by rewrite sir_node.
  - apply sir_next.
  - apply sir_promises.
  - intros t c' job _. by rewrite sir_node.
  - intros _ c' Hin Hout. rewrite sir_timers in Hout. done.
  - intros c'. apply sir_flag_false.
  - destruct (can_run st c); by repeat constructor.
Qed.

End Calm.

(** ** Aborting the delayed actions of one control *)

Section AbortControl.

Implicit Types (st : State) (c : string) (m : list (nat * string)).

Lemma timers_of_cons c t c' m :
  timers_of c ((t, c') :: m) =
  if decide (c' = c) then t :: timers_of c m else timers_of c m.
Proof. unfold timers_of. rewrite filter_cons. cbn. by destruct (decide (c' = c)). Qed.

Lemma filter_all {A} (P : A → Prop) `{!∀ x, Decision (P x)} (l : list A) :
  (∀ x, P x) → filter P l = l.
Proof.
  intros HP. induction l as [|x l IH]; [done|].
  by rewrite filter_cons_True, IH.
Qed.

Lemma abort_control_loop_spec entries c st :
  abort_control_loop entries c st =
  mkState (controls st)
    (filter (λ e, e.1 ∉ timers_of c entries) (timers_running st))
    (filter (λ e, e.1 ∉ timers_of c entries) (node_timers st))
    (next_timer st) (promises st)
    (trace st ++ (EvClearTimeout <$> timers_of c entries)).
Proof.
  revert st. induction entries as [|[t c'] entries IH]; intros st.
  - cbn. rewrite !filter_all by (intros x; apply not_elem_of_nil).
    rewrite app_nil_r. by destruct st.
  - cbn [abort_control_loop]. rewrite timers_of_cons.
    destruct (decide (c' = c)) as [->|Hne]; [|apply IH].
    rewrite IH. cbn. unfold map_delete. rewrite !list_filter_filter.
    f_equal.
    + apply list_filter_iff. intros e. rewrite not_elem_of_cons. tauto.
    + apply list_filter_iff. intros e. rewrite not_elem_of_cons. tauto.
    + by rewrite <- app_assoc.
Qed.

Lemma elem_of_timers_of c t m : t ∈ timers_of c m ↔ (t, c) ∈ m.
Proof.
  unfold timers_of. rewrite list_elem_of_fmap. split.
  - intros ([t' c'] & -> & Hin). apply list_elem_of_filter in Hin as [Hc Hin].
    cbn in *. by subst.
  - intros Hin. exists (t, c). split; [done|]. by apply list_elem_of_filter.
Qed.

(** With distinct keys, deleting the keys of a control's entries removes
    the entries of that control and no other. *)
Lemma filter_keys_owner c m :
  NoDup m.*1 →
  filter (λ e, e.1 ∉ timers_of c m) m = filter (λ e, e.2 ≠ c) m.
Proof.
  intros Hnd.
  assert (H : ∀ m', m' ⊆ m →
    filter (λ e, e.1 ∉ timers_of c m) m' = filter (λ e, e.2 ≠ c) m').
  { induction m' as [|[t c'] m' IH]; intros Hsub; [done|].
    rewrite !filter_cons. cbn.
    assert (Hin : (t, c') ∈ m) by (apply Hsub; left).
    rewrite IH by (intros x Hx; apply Hsub; by right).
    destruct (decide (c' ≠ c)) as [Hne|Heq].
    - rewrite decide_True; [done|].
      rewrite elem_of_timers_of. intros Hin'. apply Hne.
      by eapply NoDup_keys_agree.
    - apply dec_stable in Heq as ->.
      rewrite decide_False; [done|].
      intros Hout. apply Hout. by apply elem_of_timers_of. }
  by apply H.
Qed.

Lemma acd_timers c s st :
  timers_running (abortControlDelayed c s st) =
  filter (λ e, e.1 ∉ timers_of c (timers_running st)) (timers_running st).
Proof.
  unfold abortControlDelayed. by rewrite sir_timers, abort_control_loop_spec.
Qed.

Lemma acd_node c s st :
  node_timers (abortControlDelayed c s st) =
  filter (λ e, e.1 ∉ timers_of c (timers_running st)) (node_timers st).
Proof.
  unfold abortControlDelayed. by rewrite sir_node, abort_control_loop_spec.
Qed.

Lemma acd_trace c s st :
  trace (abortControlDelayed c s st) =
  trace st ++ (EvClearTimeout <$> timers_of c (timers_running st)) ++
    (if can_run st c then [EvSetActionsRunning c false s] else []).
Proof.
  unfold abortControlDelayed. rewrite sir_trace, abort_control_loop_spec. cbn.
  by rewrite <- app_assoc.
Qed.

Lemma acd_not_owner c s st : c ∉ (timers_running (abortControlDelayed c s st)).*2.
Proof.
  rewrite acd_timers. intros Hin.
  apply list_elem_of_fmap in Hin as ([t c'] & -> & Hin).
  apply list_elem_of_filter in Hin as [Hout Hin]. cbn in *.
  apply Hout. by apply elem_of_timers_of.
Qed.

Lemma calm_abortControlDelayed c s st : calm st (abortControlDelayed c s st).
Proof.
  pose proof (abort_control_loop_spec (timers_running st) c st) as Hloop.
  set (K := timers_of c (timers_running st)) in *.
  set (st1 := abort_control_loop (timers_running st) c st) in *.
  assert (Hcan1 : ∀ c', can_run st1 c' = can_run st c') by by rewrite Hloop.
  apply (Calm st _ ((EvClearTimeout <$> K) ++
                    (if can_run st c then [EvSetActionsRunning c false s] else []))).
  - apply acd_trace.
  - rewrite dispatched_actions_app, dispatched_clear. by destruct (can_run st c).
  - intros c' x. rewrite set_calls_app, set_calls_clear. cbn [app]. intros Hx.
    destruct (can_run st c); [|by apply elem_of_nil in Hx].
    destruct (decide (c = c')) as [->|Hne].
    + rewrite set_calls_self in Hx. apply list_elem_of_singleton in Hx as ->.
      split; [done|apply acd_not_owner].
    + rewrite set_calls_other in Hx by done. by apply elem_of_nil in Hx.
  - intros c'. rewrite set_calls_app, set_calls_clear. cbn [app]. intros Hx.
    unfold abortControlDelayed. fold st1.
    destruct (can_run st c) eqn:E.
    + destruct (decide (c = c')) as [->|Hne].
      * by rewrite set_calls_self in Hx.
      * rewrite sir_controls_ne by done. by rewrite Hloop.
    + rewrite sir_off by (by rewrite Hcan1). by rewrite Hloop.
  - intros c'. unfold abortControlDelayed. fold st1. by rewrite sir_can_run.
  - rewrite acd_timers. apply sublist_filter.
  - rewrite acd_node. apply sublist_filter.
  - unfold abortControlDelayed. fold st1. rewrite sir_next. by rewrite Hloop.
  - unfold abortControlDelayed. fold st1. rewrite sir_promises. by rewrite Hloop.
  - intros t c' job. rewrite acd_timers, acd_node, !list_elem_of_filter. cbn.
    intros [Hout _] Hjob. done.
  - intros Hnd c' Hin Hout Hcan.
    assert (c' = c) as ->.
    { rewrite acd_timers, filter_keys_owner in Hout by done.
      destruct (decide (c' = c)) as [|Hne]; [done|]. destruct Hout.
      apply list_elem_of_fmap in Hin as ([t c''] & -> & Hin).
      apply (list_elem_of_fmap_2' snd _ (t, c'')); [|done].
      by apply list_elem_of_filter. }
    unfold abortControlDelayed. fold st1. rewrite sir_flag. by rewrite Hcan1, Hcan.
  - intros c' Hf. unfold abortControlDelayed. fold st1. apply sir_flag_false.
    by rewrite Hloop.
  - apply Forall_app. split; [apply handled_clear|].
    destruct (can_run st c); by repeat constructor.
Qed.

End AbortControl.

(** ** Aborting every delayed action *)

Section AbortAll.

Implicit Types (st : State) (c : string) (affected : list string).

Lemma abort_all_loop_state entries affected st :
  (abort_all_loop entries affected st).2 =
  mkState (controls st) (timers_running st)
    (filter (λ e, e.1 ∉ entries.*1) (node_timers st))
    (next_timer st) (promises st) (trace st ++ (EvClearTimeout <$> entries.*1)).
Proof.
  revert affected st. induction entries as [|[t c] entries IH]; intros affected st.
  - cbn. rewrite filter_all by (intros x; apply not_elem_of_nil).
    rewrite app_nil_r. by destruct st.
  - cbn [abort_all_loop]. rewrite IH. cbn. unfold map_delete.
    rewrite list_filter_filter. f_equal.
    + apply list_filter_iff. intros e. rewrite not_elem_of_cons. tauto.
    + by rewrite <- app_assoc.
Qed.

Lemma abort_all_loop_affected entries affected st :
  NoDup affected →
  NoDup (abort_all_loop entries affected st).1 ∧
  ∀ c, c ∈ (abort_all_loop entries affected st).1 ↔ c ∈ affected ∨ c ∈ entries.*2.
Proof.
  revert affected st. induction entries as [|[t c'] entries IH]; intros affected st Hnd.
  - cbn. split; [done|]. intros c. rewrite elem_of_nil. tauto.
  - cbn [abort_all_loop].
    destruct (decide (c' ∈ affected)) as [Hin|Hout].
    + destruct (IH affected (clearTimeout t st) Hnd) as [Hnd' Hiff].
      split; [done|]. intros c. rewrite Hiff. cbn. rewrite elem_of_cons.
      split; [tauto|]. intros [?|[->|?]]; tauto.
    + assert (Hnd2 : NoDup (affected ++ [c'])).
      { apply NoDup_app. split_and!; [done| |apply NoDup_singleton].
        intros x Hx ->%list_elem_of_singleton. done. }
      destruct (IH (affected ++ [c']) (clearTimeout t st) Hnd2) as [Hnd' Hiff].
      split; [done|]. intros c. rewrite Hiff. cbn.
      rewrite elem_of_app, !elem_of_cons, elem_of_nil. tauto.
Qed.

Lemma abortAllDelayed_unfold st :
  abortAllDelayed st =
  foldl (λ s c, setControlIsRunning c false false s)
    (set_timers_running [] (abort_all_loop (timers_running st) [] st).2)
    (abort_all_loop (timers_running st) [] st).1.
Proof.
  unfold abortAllDelayed.
  by destruct (abort_all_loop (timers_running st) [] st) as [affected st1].
Qed.

(** The second loop of [abortAllDelayed]. *)
Lemma stop_fold_timers affected st :
  timers_running (foldl (λ s c, setControlIsRunning c false false s) st affected)
  = timers_running st.
Proof.
  revert st. induction affected as [|c affected IH]; intros st; [done|].
  cbn. by rewrite IH, sir_timers.
Qed.

Lemma stop_fold_node affected st :
  node_timers (foldl (λ s c, setControlIsRunning c false false s) st affected)
  = node_timers st.
Proof.
  revert st. induction affected as [|c affected IH]; intros st; [done|].
  cbn. by rewrite IH, sir_node.
Qed.

Lemma stop_fold_can_run affected st c :
  can_run (foldl (λ s c, setControlIsRunning c false false s) st affected) c
  = can_run st c.
Proof.
  revert st. induction affected as [|c' affected IH]; intros st; [done|].
  cbn. by rewrite IH, sir_can_run.
Qed.

Lemma stop_fold_false affected st c :
  running_flag st c = Some false →
  running_flag (foldl (λ s c, setControlIsRunning c false false s) st affected) c
  = Some false.
Proof.
  revert st. induction affected as [|c' affected IH]; intros st Hf; [done|].
  cbn. apply IH. by apply sir_flag_false.
Qed.

Lemma stop_fold_flag affected st c :
  c ∈ affected → can_run st c = true →
  running_flag (foldl (λ s c, setControlIsRunning c false false s) st affected) c
  = Some false.
Proof.
  revert st. induction affected as [|c' affected IH]; intros st Hin Hcan.
  - by apply elem_of_nil in Hin.
  - cbn. destruct (decide (c = c')) as [->|Hne].
    + apply stop_fold_false. by rewrite sir_flag, Hcan.
    + apply elem_of_cons in Hin as [?|Hin]; [done|].
      apply IH; [done|]. by rewrite sir_can_run.
Qed.

Lemma stop_fold_trace affected st :
  trace (foldl (λ s c, setControlIsRunning c false false s) st affected) =
  trace st ++
    ((λ c, EvSetActionsRunning c false false)
       <$> filter (λ c, can_run st c = true) affected).
Proof.
  revert st. induction affected as [|c affected IH]; intros st.
  - cbn. by rewrite app_nil_r.
  - cbn [foldl]. rewrite IH, sir_trace, filter_cons.
    rewrite (list_filter_iff _ (λ c0, can_run st c0 = true))
      by (intros c0; by rewrite sir_can_run).
    destruct (can_run st c) eqn:E.
    + rewrite decide_True by done. cbn. by rewrite <- app_assoc.
    + rewrite decide_False by done. by rewrite app_nil_r.
Qed.

Lemma stop_fold_calm affected st :
  timers_running st = [] →
  calm st (foldl (λ s c, setControlIsRunning c false false s) st affected).
Proof.
  revert st. induction affected as [|c affected IH]; intros st Hnil.
  - apply calm_refl.
  - cbn. eapply calm_trans.
    + apply (calm_stopped c false st). rewrite Hnil. apply not_elem_of_nil.
    + apply IH. by rewrite sir_timers.
Qed.

(** Each control of a duplicate-free list is told once. *)
Lemma set_calls_stop_events c (l : list string) :
  NoDup l →
  set_calls c ((λ c, EvSetActionsRunning c false false) <$> l) =
  if decide (c ∈ l) then [(false, false)] else [].
Proof.
  induction l as [|c' l IH]; intros Hnd.
  - cbn. rewrite decide_False; [done|apply not_elem_of_nil].
  - apply NoDup_cons in Hnd as [Hout Hnd]. rewrite fmap_cons.
    change (set_calls c (?e :: ?r)) with (set_calls c ([e] ++ r)).
    rewrite set_calls_app, IH by done.
    destruct (decide (c' = c)) as [->|Hne].
    + rewrite set_calls_self. rewrite decide_False by done.
      rewrite decide_True; [done|by left].
    + rewrite set_calls_other by done. cbn [app].
      destruct (decide (c ∈ l)) as [Hin|Hin].
      * rewrite decide_True; [done|by right].
      * rewrite decide_False; [done|].
        rewrite not_elem_of_cons. split; [congruence|done].
Qed.

Lemma dispatched_stop_events (l : list string) :
  dispatched_actions ((λ c, EvSetActionsRunning c false false) <$> l) = [].
Proof. induction l as [|c l IH]; [done|apply IH]. Qed.

Lemma aad_timers st : timers_running (abortAllDelayed st) = [].
Proof. rewrite abortAllDelayed_unfold. by rewrite stop_fold_timers. Qed.

Lemma aad_node st :
  node_timers (abortAllDelayed st) =
  filter (λ e, e.1 ∉ (timers_running st).*1) (node_timers st).
Proof.
  rewrite abortAllDelayed_unfold, stop_fold_node. cbn.
  by rewrite abort_all_loop_state.
Qed.

Lemma aad_trace st :
  ∃ affected, NoDup affected ∧
    (∀ c, c ∈ affected ↔ c ∈ (timers_running st).*2) ∧
    trace (abortAllDelayed st) =
      trace st ++ (EvClearTimeout <$> (timers_running st).*1) ++
        ((λ c, EvSetActionsRunning c false false)
           <$> filter (λ c, can_run st c = true) affected).
Proof.
  exists (abort_all_loop (timers_running st) [] st).1.
  destruct (abort_all_loop_affected (timers_running st) [] st (NoDup_nil_2))
    as [Hnd Hiff].
  split_and!; [done| |].
  - intros c. rewrite Hiff, elem_of_nil. tauto.
  - rewrite abortAllDelayed_unfold, stop_fold_trace. cbn.
    rewrite abort_all_loop_state. cbn. by rewrite <- app_assoc.
Qed.

Lemma calm_abortAllDelayed st : calm st (abortAllDelayed st).
Proof.
  destruct (aad_trace st) as (affected & Hnd & Hiff & Htr).
  pose proof (abortAllDelayed_unfold st) as Hun.
  set (st2 := set_timers_running [] (abort_all_loop (timers_running st) [] st).2) in *.
  assert (Hst2 : controls st2 = controls st ∧ next_timer st2 = next_timer st ∧
                 promises st2 = promises st ∧ timers_running st2 = [])
    by (unfold st2; by rewrite abort_all_loop_state).
  destruct Hst2 as (Hc2 & Hn2 & Hp2 & Ht2).
  assert (Hcan2 : ∀ c, can_run st2 c = can_run st c)
    by (intros c; unfold can_run; by rewrite Hc2).
  destruct (stop_fold_calm (abort_all_loop (timers_running st) [] st).1 st2 Ht2)
    as [evs' Ht' Hq' Hcl' Hf' Hr' Hs' Hnn' Hx' Hpp' Hv' Hl' Hz' Hh'].
  rewrite <- Hun in *.
  apply (Calm st _ ((EvClearTimeout <$> (timers_running st).*1) ++
           ((λ c, EvSetActionsRunning c false false)
              <$> filter (λ c, can_run st c = true) affected))).
  - done.
  - by rewrite dispatched_actions_app, dispatched_clear, dispatched_stop_events.
  - intros c x. rewrite set_calls_app, set_calls_clear, aad_timers. cbn [app].
    intros Hx. split; [|apply not_elem_of_nil].
    apply list_elem_of_omap in Hx as (e & He & Hx).
    apply list_elem_of_fmap in He as (c' & -> & _).
    destruct (decide (c' = c)); by simplify_eq.
  - intros c. rewrite set_calls_app, set_calls_clear. cbn [app].
    rewrite set_calls_stop_events by by apply NoDup_filter.
    destruct (decide (c ∈ filter (λ c0, can_run st c0 = true) affected))
      as [Hin|Hout]; [done|]. intros _.
    rewrite Hun. unfold st2.
    assert (Hgen : ∀ l s,
      (∀ c', c' ∈ l → c' = c → can_run s c = false) →
      controls (foldl (λ s c, setControlIsRunning c false false s) s l) !! c
      = controls s !! c).
    { induction l as [|c' l IH]; intros s Hl; [done|]. cbn.
      rewrite IH.
      - destruct (decide (c' = c)) as [->|Hne].
        + rewrite sir_off; [done|]. apply (Hl c); [by left|done].
        + by apply sir_controls_ne.
      - intros c'' Hin' ->. rewrite sir_can_run. apply (Hl c); [by right|done]. }
    rewrite Hgen; [by rewrite abort_all_loop_state|].
    intros c' Hin' ->. cbn.
    destruct (can_run st c) eqn:E; [|by rewrite <- Hcan2 in E].
    destruct Hout. apply list_elem_of_filter. split; [done|].
    apply Hiff.
    destruct (abort_all_loop_affected (timers_running st) [] st (NoDup_nil_2))
      as [_ Hiff2].
    apply Hiff2 in Hin' as [Hin'|Hin']; [by apply elem_of_nil in Hin'|done].
  - intros c. by rewrite Hr', Hcan2.
  - rewrite aad_timers. apply sublist_nil_l.
  - rewrite aad_node. apply sublist_filter.
  - congruence.
  - congruence.
  - intros t c job. rewrite aad_timers. intros Hin. by apply elem_of_nil in Hin.
  - intros _ c Hin _ Hcan. rewrite Hun. apply stop_fold_flag; [|by rewrite Hcan2].
    destruct (abort_all_loop_affected (timers_running st) [] st (NoDup_nil_2))
      as [_ Hiff2].
    apply Hiff2. by right.
  - intros c Hf. apply Hz'. unfold running_flag. by rewrite Hc2.
  - apply Forall_app. split; [apply handled_clear|].
    apply Forall_fmap. by apply Forall_forall.
Qed.

End AbortAll.

(** ** The internal actions and the dispatch of one action *)

Section Dispatch.

Variable MAX_BUTTONS : nat.
Variable getChild : string → option Connection.

Implicit Types (st : State) (c : string).

Lemma calm_consistent st st' :
  calm st st' → timers_consistent st → timers_consistent st'.
Proof.
  intros [evs _ _ _ _ _ Hs Hn Hx _ Hv _ _ _] (Hnd1 & Hnd2 & Harmed & Hfresh).
  split_and!.
  - by eapply sublist_keys_NoDup.
  - by eapply sublist_keys_NoDup.
  - intros t c Hin.
    destruct (Harmed t c) as (job & Hjob & Hc); [by eapply sublist_subseteq|].
    exists job. split; [|done]. by eapply Hv.
  - intros t job Hin. rewrite Hx. eapply Hfresh. by eapply (sublist_subseteq _ _ Hn).
Qed.

Lemma calm_abortPageDelayed page skip st :
  calm st (abortPageDelayed MAX_BUTTONS page skip st).
Proof.
  unfold abortPageDelayed. generalize (seq 1 MAX_BUTTONS). intros banks.
  revert st. induction banks as [|bank banks IH]; intros st; [apply calm_refl|].
  cbn [foldl]. eapply calm_trans; [|apply IH].
  destruct skip as [skip|]; [|apply calm_abortControlDelayed].
  case_decide; [apply calm_refl|apply calm_abortControlDelayed].
Qed.

Lemma calm_pressControl c pressed dev st : calm st (pressControl c pressed dev st).2.
Proof.
  unfold pressControl. destruct (controls st !! c) as [control|]; [|apply calm_refl].
  destruct (has_pressControl control); [|apply calm_refl]. cbn.
  eapply calm_trans; by apply calm_emit.
Qed.

Lemma calm_rotateControl c direction dev st :
  calm st (rotateControl c direction dev st).2.
Proof.
  unfold rotateControl. destruct (controls st !! c) as [control|]; [|apply calm_refl].
  destruct (has_rotateControl control); [|apply calm_refl]. cbn.
  by apply calm_emit.
Qed.

Lemma calm_executeAction a x st : calm st (executeAction MAX_BUTTONS a x st).2.
Proof.
  unfold executeAction.
  destruct (fetchPageAndButton (options a) x true) as [[thePage theButton] theControlId].
  repeat case_decide; cbn [snd].
  - eapply calm_trans; apply calm_pressControl.
  - apply calm_pressControl.
  - apply calm_pressControl.
  - apply calm_rotateControl.
  - apply calm_rotateControl.
  - apply calm_abortControlDelayed.
  - apply calm_abortPageDelayed.
  - apply calm_abortAllDelayed.
  - apply calm_refl.
Qed.

Lemma called_nil e st : called e [] st = emit e st.
Proof. unfold called, emit. by rewrite app_nil_r. Qed.

(** One call of [#runAction] makes one dispatch, with a rejection
    handler on whatever promise it gets back, and then only does what
    the internal action does. *)
Lemma runAction_calm a c x st :
  ∃ e ps, dispatched e = Some a ∧ (∀ c', set_calls c' [e] = []) ∧
          Forall (λ p, pp_catch p = true) ps ∧
          calm (called e ps st) (runAction MAX_BUTTONS getChild a c x st).
Proof.
  unfold runAction. case_decide.
  - exists (EvExecuteAction a x), []. split_and!; [done|done|done|].
    rewrite called_nil. apply calm_executeAction.
  - destruct (getChild (instance a)) as [conn|].
    + exists (EvActionRun (connectionId conn) a c x),
             [mkPromise (connectionId conn) (actionRun conn a c x) true].
      split_and!; [done|done|by repeat constructor|apply calm_refl].
    + exists (EvMissingInstance a), []. split_and!; [done|done|done|].
      rewrite called_nil. apply calm_refl.
Qed.

End Dispatch.

(** ** Running a list of actions *)

Section Run.

Variable MAX_BUTTONS : nat.
Variable getChild : string → option Connection.

Implicit Types (st : State) (c : string) (tbl : gmap string Z).

Lemma consistent_called e ps st :
  timers_consistent st → timers_consistent (called e ps st).
Proof. done. Qed.

(** Arming a timer and entering it in the pending set. *)
Lemma consistent_scheduled job st :
  timers_consistent st →
  timers_consistent
    (set_timers_running
       (map_set (next_timer st) (job_controlId job)
          (timers_running (setTimeout job st).2))
       (setTimeout job st).2).
Proof.
  intros (Hnd1 & Hnd2 & Harmed & Hfresh). cbn.
  assert (Hnew2 : next_timer st ∉ (node_timers st).*1).
  { intros Hin. apply list_elem_of_fmap in Hin as ([t job'] & Heq & Hin).
    cbn in Heq. subst t. apply Hfresh in Hin. lia. }
  assert (Hnew1 : next_timer st ∉ (timers_running st).*1).
  { intros Hin. apply list_elem_of_fmap in Hin as ([t c'] & Heq & Hin).
    cbn in Heq. subst t. destruct (Harmed _ _ Hin) as (job' & Hjob & _).
    apply Hfresh in Hjob. lia. }
  rewrite map_set_fresh by done.
  unfold timers_consistent. cbn. split_and!.
  - rewrite fmap_app. apply NoDup_app. split_and!; [done| |apply NoDup_singleton].
    intros t Ht ->%list_elem_of_singleton. done.
  - rewrite fmap_app. apply NoDup_app. split_and!; [done| |apply NoDup_singleton].
    intros t Ht ->%list_elem_of_singleton. done.
  - intros t c'. rewrite elem_of_app, list_elem_of_singleton. intros [Hin|Heq].
    + destruct (Harmed _ _ Hin) as (job' & Hjob & Hc). exists job'.
      split; [|done]. apply elem_of_app. by left.
    + injection Heq as -> ->. exists job. split; [|done].
      apply elem_of_app. right. by apply list_elem_of_singleton.
  - intros t job'. rewrite elem_of_app, list_elem_of_singleton. intros [Hin|Heq].
    + apply Hfresh in Hin. lia.
    + injection Heq as -> ->. lia.
Qed.

Lemma run_loop_spec tbl c x actions has_delayed st :
  ∃ evs ps,
    trace (run_loop MAX_BUTTONS getChild tbl c x actions has_delayed st).2
      = trace st ++ evs ∧
    dispatched_actions evs = filter (λ a, delay_time tbl a ≤ 0) actions ∧
    Forall (λ e, is_unhandled e = false) evs ∧
    promises (run_loop MAX_BUTTONS getChild tbl c x actions has_delayed st).2
      = promises st ++ ps ∧
    Forall (λ p, pp_catch p = true) ps ∧
    (∀ c', can_run (run_loop MAX_BUTTONS getChild tbl c x actions has_delayed st).2 c'
           = can_run st c') ∧
    (run_loop MAX_BUTTONS getChild tbl c x actions has_delayed st).1
      = has_delayed || bool_decide (Exists (λ a, 0 < delay_time tbl a) actions) ∧
    (timers_consistent st →
     timers_consistent (run_loop MAX_BUTTONS getChild tbl c x actions has_delayed st).2).
Proof.
  revert has_delayed st.
  induction actions as [|a actions IH]; intros has_delayed st.
  - exists [], []. cbn. rewrite !app_nil_r, orb_false_r. by split_and!.
  - cbn [run_loop]. cbv zeta. case_decide as Hd.
    + cbn [setTimeout].
      match goal with |- context [run_loop _ _ _ _ _ _ true ?s] => set (st1 := s) end.
      destruct (IH true st1) as (evs & ps & Ht & Hq & Hh & Hp & Hc & Hr & Hb & Hk).
      exists (EvSetTimeout (next_timer st) (delay_time tbl a) :: evs), ps.
      split_and!.
      * rewrite Ht. cbn. by rewrite <- app_assoc.
      * rewrite filter_cons_False by lia. cbn. apply Hq.
      * by constructor.
      * by rewrite Hp.
      * done.
      * intros c'. by rewrite Hr.
      * rewrite Hb. cbn [orb]. rewrite (bool_decide_true (Exists _ (a :: actions)))
          by (by left).
        by rewrite orb_true_r.
      * intros Hcons. apply Hk.
        apply (consistent_scheduled (mkJob a c x (delay_time tbl a)) st Hcons).
    + destruct (runAction_calm MAX_BUTTONS getChild a c x st)
        as (e & ps0 & He & Hs0 & Hps0 &
            [evs0 Ht0 Hq0 _ _ Hr0 _ _ _ Hp0 _ _ _ Hh0]).
      pose proof (runAction_calm MAX_BUTTONS getChild a c x st) as Hcalm.
      set (st1 := runAction MAX_BUTTONS getChild a c x st) in *.
      destruct (IH has_delayed st1)
        as (evs & ps & Ht & Hq & Hh & Hp & Hc & Hr & Hb & Hk).
      exists (e :: evs0 ++ evs), (ps0 ++ ps).
      split_and!.
      * rewrite Ht, Ht0. cbn. rewrite <- !app_assoc. done.
      * rewrite filter_cons_True by lia.
        rewrite (dispatched_actions_cons e a) by done.
        by rewrite dispatched_actions_app, Hq0, Hq.
      * constructor; [by destruct e|]. by apply Forall_app.
      * rewrite Hp, Hp0. cbn. by rewrite app_assoc.
      * by apply Forall_app.
      * intros c'. by rewrite Hr, Hr0.
      * rewrite Hb. f_equal. apply bool_decide_ext.
        rewrite Exists_cons. split; [tauto|]. intros [?|?]; [lia|done].
      * intros Hcons. apply Hk.
        destruct Hcalm as (e' & ps' & _ & _ & _ & Hcalm).
        eapply calm_consistent; [exact Hcalm|]. by apply consistent_called.
Qed.

End Run.

Section RunMultiple.

Variable MAX_BUTTONS : nat.
Variable getChild : string → option Connection.

Implicit Types (st : State) (c : string).

Lemma runMultipleActions_none actions0 c relative dev st :
  enabled_actions actions0 = [] →
  runMultipleActions MAX_BUTTONS getChild actions0 c relative dev st = st.
Proof. unfold runMultipleActions. by intros ->. Qed.

Lemma runMultipleActions_some actions0 c relative dev st :
  enabled_actions actions0 ≠ [] →
  runMultipleActions MAX_BUTTONS getChild actions0 c relative dev st =
  let r := run_loop MAX_BUTTONS getChild
             (effective_delays relative (enabled_actions actions0)) c
             (make_extras c dev) (enabled_actions actions0) false st in
  if r.1 then setControlIsRunning c true false r.2 else r.2.
Proof.
  unfold runMultipleActions. intros Hne.
  destruct (enabled_actions actions0) as [|a l] eqn:E; [done|].
  cbv zeta. by destruct (run_loop _ _ _ _ _ _ _ _).
Qed.

Lemma runMultipleActions_spec actions0 c relative dev st :
  let actions := enabled_actions actions0 in
  let tbl := effective_delays relative actions in
  let st' := runMultipleActions MAX_BUTTONS getChild actions0 c relative dev st in
  ∃ evs ps,
    trace st' = trace st ++ evs ∧
    dispatched_actions evs = filter (λ a, delay_time tbl a ≤ 0) actions ∧
    Forall (λ e, is_unhandled e = false) evs ∧
    promises st' = promises st ++ ps ∧
    Forall (λ p, pp_catch p = true) ps ∧
    (∀ c', can_run st' c' = can_run st c') ∧
    (timers_consistent st → timers_consistent st') ∧
    (Exists (λ a, 0 < delay_time tbl a) actions → can_run st c = true →
     running_flag st' c = Some true ∧
     last (trace st') = Some (EvSetActionsRunning c true false)).
Proof.
  intros actions tbl st'. subst st'.
  destruct (decide (actions = [])) as [Hnil|Hne].
  - rewrite runMultipleActions_none by done. exists [], []. fold actions. rewrite Hnil.
    rewrite !app_nil_r. split_and!; try done. intros He. by apply Exists_nil in He.
  - rewrite runMultipleActions_some by done. cbv zeta. fold actions tbl.
    destruct (run_loop_spec MAX_BUTTONS getChild tbl c (make_extras c dev)
                actions false st)
      as (evs & ps & Ht & Hq & Hh & Hp & Hc & Hr & Hb & Hk).
    set (r := run_loop MAX_BUTTONS getChild tbl c (make_extras c dev) actions false st)
      in *.
    cbn [orb] in Hb.
    destruct (r.1) eqn:E.
    + exists (evs ++ (if can_run st c then [EvSetActionsRunning c true false] else [])), ps.
      split_and!.
      * by rewrite sir_trace, Ht, Hr, app_assoc.
      * rewrite dispatched_actions_app, Hq. destruct (can_run st c); cbn;
          by rewrite app_nil_r.
      * apply Forall_app. split; [done|]. destruct (can_run st c); by repeat constructor.
      * by rewrite sir_promises.
      * done.
      * intros c'. by rewrite sir_can_run.
      * intros Hcons. destruct (Hk Hcons) as (H1 & H2 & H3 & H4).
        unfold timers_consistent. rewrite sir_timers, sir_node, sir_next. done.
      * intros _ Hcan. split.
        -- by rewrite sir_flag, Hr, Hcan.
        -- rewrite sir_trace, Hr, Hcan. apply last_snoc.
    + exists evs, ps. split_and!; try done.
      intros He. symmetry in Hb. apply bool_decide_eq_false in Hb. done.
Qed.


End RunMultiple.

(** ** What a run does with each action *)

Section RunFates.

Variable MAX_BUTTONS : nat.
Variable getChild : string → option Connection.

Implicit Types (st : State) (c : string).
















End RunFates.


(** ** A timer expires *)

Section Fire.

Variable MAX_BUTTONS : nat.
Variable getChild : string → option Connection.

Implicit Types (st : State) (c : string).

Lemma fire_timer_unarmed t st :
  map_get t (node_timers st) = None → fire_timer MAX_BUTTONS getChild t st = st.
Proof. unfold fire_timer. by intros ->. Qed.

(** The callback: the call of [#runAction] on the state in which the
    runtime has dropped the timer, whatever the internal action does,
    the removal of the timer from the pending set, and the last check. *)
Lemma fire_timer_armed t job st :
  map_get t (node_timers st) = Some job →
  ∃ e ps st1 st3,
    dispatched e = Some (job_action job) ∧
    (∀ c', set_calls c' [e] = []) ∧
    Forall (λ p, pp_catch p = true) ps ∧
    calm (called e ps
            (mkState (controls st) (timers_running st)
               (map_delete t (node_timers st)) (next_timer st) (promises st)
               (trace st))) st1 ∧
    calm (set_timers_running (map_delete t (timers_running st1)) st1) st3 ∧
    timers_running st3 = map_delete t (timers_running st1) ∧
    (job_controlId job ∉ (timers_running st3).*2 →
     can_run st3 (job_controlId job) = true →
     running_flag st3 (job_controlId job) = Some false) ∧
    fire_timer MAX_BUTTONS getChild t st = st3.
Proof.
  intros Hget. unfold fire_timer. rewrite Hget.
  set (st0 := mkState (controls st) (timers_running st)
                (map_delete t (node_timers st)) (next_timer st) (promises st)
                (trace st)).
  destruct (runAction_calm MAX_BUTTONS getChild (job_action job) (job_controlId job)
              (job_extras job) st0) as (e & ps & He & Hs & Hps & Hcalm).
  set (st1 := runAction MAX_BUTTONS getChild (job_action job) (job_controlId job)
                (job_extras job) st0) in *.
  set (st2 := set_timers_running (map_delete t (timers_running st1)) st1).
  case_decide as Hown.
  - exists e, ps, st1, st2. split_and!.
    + done.
    + done.
    + done.
    + done.
    + apply calm_refl.
    + done.
    + intros Hout. done.
    + done.
  - exists e, ps, st1, (setControlIsRunning (job_controlId job) false false st2).
    split_and!.
    + done.
    + done.
    + done.
    + done.
    + by apply calm_stopped.
    + by rewrite sir_timers.
    + intros _. rewrite sir_can_run, sir_flag. by intros ->.
    + done.
Qed.

Lemma fire_timer_consistent t st :
  timers_consistent st → timers_consistent (fire_timer MAX_BUTTONS getChild t st).
Proof.
  intros Hcons. destruct (map_get t (node_timers st)) as [job|] eqn:Hget;
    [|by rewrite fire_timer_unarmed].
  destruct (fire_timer_armed t job st Hget)
    as (e & ps & st1 & st3 & _ & _ & _ & Hcalm1 & Hcalm3 & _ & _ & ->).
  eapply calm_consistent; [exact Hcalm3|].
  destruct Hcalm1 as [evs _ _ _ _ _ Hs Hn Hx _ Hv _ _ _].
  destruct Hcons as (Hnd1 & Hnd2 & Harmed & Hfresh). cbn in *.
  unfold timers_consistent. cbn. split_and!.
  - eapply sublist_keys_NoDup; [|exact Hnd1].
    etrans; [apply map_delete_sublist|done].
  - eapply sublist_keys_NoDup; [|exact Hnd2].
    etrans; [done|apply map_delete_sublist].
  - intros t' c' [Hne Hin]%map_delete_elem_of. cbn in Hne.
    destruct (Harmed t' c') as (job' & Hjob & Hc); [by eapply sublist_subseteq|].
    exists job'. split; [|done]. eapply Hv; [done|].
    by apply map_delete_elem_of.
  - intros t' job' Hin. rewrite Hx. eapply Hfresh.
    eapply (sublist_subseteq _ _ (map_delete_sublist _ t)).
    by eapply (sublist_subseteq _ _ Hn).
Qed.

Lemma fire_timer_owners t st c :
  c ∈ (timers_running (fire_timer MAX_BUTTONS getChild t st)).*2 →
  c ∈ (timers_running st).*2.
Proof.
  destruct (map_get t (node_timers st)) as [job|] eqn:Hget;
    [|by rewrite fire_timer_unarmed].
  destruct (fire_timer_armed t job st Hget)
    as (e & ps & st1 & st3 & _ & _ & _ & Hcalm1 & Hcalm3 & _ & _ & ->).
  destruct Hcalm1 as [evs1 _ _ _ _ _ Hs1 _ _ _ _ _ _ _].
  destruct Hcalm3 as [evs3 _ _ _ _ _ Hs3 _ _ _ _ _ _ _]. cbn in *.
  intros Hin. eapply owners_sublist; [exact Hs1|].
  eapply owners_sublist; [apply (map_delete_sublist _ t)|].
  by eapply owners_sublist.
Qed.

Lemma fire_timer_can_run t st c :
  can_run (fire_timer MAX_BUTTONS getChild t st) c = can_run st c.
Proof.
  destruct (map_get t (node_timers st)) as [job|] eqn:Hget;
    [|by rewrite fire_timer_unarmed].
  destruct (fire_timer_armed t job st Hget)
    as (e & ps & st1 & st3 & _ & _ & _ & Hcalm1 & Hcalm3 & _ & _ & ->).
  destruct Hcalm1 as [evs1 _ _ _ _ Hr1 _ _ _ _ _ _ _ _].
  destruct Hcalm3 as [evs3 _ _ _ _ Hr3 _ _ _ _ _ _ _ _].
  rewrite Hr3. apply (Hr1 c).
Qed.

(** The timers a control still owns after an expiry are among those it
    owned, less the one that expired. *)
Lemma fire_timer_timers_of t st c t' :
  timers_consistent st →
  t' ∈ timers_of c (timers_running (fire_timer MAX_BUTTONS getChild t st)) →
  t' ∈ timers_of c (timers_running st) ∧ t' ≠ t.
Proof.
  intros (Hnd1 & Hnd2 & Harmed & Hfresh). rewrite !elem_of_timers_of.
  destruct (map_get t (node_timers st)) as [job|] eqn:Hget.
  - destruct (fire_timer_armed t job st Hget)
      as (e & ps & st1 & st3 & _ & _ & _ & Hcalm1 & Hcalm3 & _ & _ & ->).
    destruct Hcalm1 as [evs1 _ _ _ _ _ Hs1 _ _ _ _ _ _ _].
    destruct Hcalm3 as [evs3 _ _ _ _ _ Hs3 _ _ _ _ _ _ _]. cbn in *.
    intros Hin. apply (sublist_subseteq _ _ Hs3) in Hin.
    apply map_delete_elem_of in Hin as [Hne Hin]. split; [|done].
    by apply (sublist_subseteq _ _ Hs1).
  - rewrite fire_timer_unarmed by done. intros Hin. split; [done|].
    intros ->. destruct (Harmed _ _ Hin) as (job & Hjob & _).
    by rewrite (map_get_elem_of _ _ _ Hnd2 Hjob) in Hget.
Qed.

Lemma fire_timer_settled c t st :
  settled c st → settled c (fire_timer MAX_BUTTONS getChild t st).
Proof.
  intros (Hcons & Hcan & Hflag & Hown). split_and!.
  - by apply fire_timer_consistent.
  - by rewrite fire_timer_can_run.
  - destruct (map_get t (node_timers st)) as [job|] eqn:Hget;
      [|by rewrite fire_timer_unarmed].
    destruct (fire_timer_armed t job st Hget)
      as (e & ps & st1 & st3 & _ & _ & _ & Hcalm1 & Hcalm3 & _ & _ & ->).
    destruct Hcalm1 as [evs1 _ _ _ _ _ _ _ _ _ _ _ Hz1 _].
    destruct Hcalm3 as [evs3 _ _ _ _ _ _ _ _ _ _ _ Hz3 _].
    apply Hz3. cbn. by apply Hz1.
  - intros Hin. by apply Hown, (fire_timer_owners t).
Qed.

Lemma fire_timer_awaiting c t st :
  awaiting c st →
  awaiting c (fire_timer MAX_BUTTONS getChild t st) ∨
  settled c (fire_timer MAX_BUTTONS getChild t st).
Proof.
  intros (Hcons & Hcan & Hflag & Hown).
  pose proof (fire_timer_consistent t st Hcons) as Hcons'.
  pose proof (fire_timer_can_run t st c) as Hcan'. rewrite Hcan in Hcan'.
  destruct (map_get t (node_timers st)) as [job|] eqn:Hget;
    [|left; by rewrite fire_timer_unarmed].
  destruct (fire_timer_armed t job st Hget)
    as (e & ps & st1 & st3 & He & Hse & _ & Hcalm1 & Hcalm3 & Htr3 & Hlast & Heq).
  rewrite Heq in *. clear Heq.
  destruct Hcons as (Hnd1 & Hnd2 & Harmed & Hfresh).
  destruct Hcalm1 as [evs1 _ _ Hc1 Hf1 Hr1 Hs1 _ _ _ _ Hl1 Hz1 _].
  destruct Hcalm3 as [evs3 _ _ Hc3 Hf3 Hr3 Hs3 _ _ _ _ _ Hz3 _].
  cbn in *.
  destruct (decide (c ∈ (timers_running st3).*2)) as [Hin3|Hout3].
  - left. split_and!; [done|done| |done].
    assert (Hin1 : c ∈ (timers_running st1).*2).
    { eapply owners_sublist; [apply (map_delete_sublist _ t)|].
      by eapply owners_sublist. }
    assert (Hno1 : set_calls c evs1 = []).
    { destruct (set_calls c evs1) as [|x l] eqn:E; [done|].
      destruct (Hc1 c x) as [_ Hout]; [rewrite E; by left|]. done. }
    assert (Hno3 : set_calls c evs3 = []).
    { destruct (set_calls c evs3) as [|x l] eqn:E; [done|].
      destruct (Hc3 c x) as [_ Hout]; [rewrite E; by left|]. done. }
    unfold running_flag in *. by rewrite (Hf3 c Hno3), (Hf1 c Hno1).
  - right. split_and!; [done|done| |done].
    destruct (decide (c ∈ (timers_running st1).*2)) as [Hin1|Hout1].
    + assert (Hjob : job_controlId job = c).
      { apply list_elem_of_fmap in Hin1 as ([t1 c1] & -> & Hin1). cbn in *.
        assert (t1 = t) as ->.
        { destruct (decide (t1 = t)) as [|Hne]; [done|].
          destruct Hout3. rewrite Htr3.
          apply (list_elem_of_fmap_2' snd _ (t1, c1)); [|done].
          by apply map_delete_elem_of. }
        apply (sublist_subseteq _ _ Hs1) in Hin1.
        destruct (Harmed _ _ Hin1) as (job' & Hjob' & <-).
        f_equal. eapply NoDup_keys_agree; [exact Hnd2| |done].
        by apply map_get_Some. }
      subst c. by apply Hlast.
    + apply Hz3. cbn. by apply Hl1.
Qed.

End Fire.

(** ** Timers expiring one after the other *)

Section Expiries.

Variable MAX_BUTTONS : nat.
Variable getChild : string → option Connection.

Implicit Types (st : State) (c : string) (ts : list nat).

Lemma fire_timers_settled c ts st :
  settled c st →
  settled c (fire_timers MAX_BUTTONS getChild ts st) ∧
  running_falls MAX_BUTTONS getChild c ts st = 0%nat.
Proof.
  revert st. induction ts as [|t ts IH]; intros st Hs; [done|].
  cbn. destruct (IH _ (fire_timer_settled MAX_BUTTONS getChild c t st Hs)) as [H1 H2].
  split; [done|]. rewrite H2.
  destruct Hs as (_ & _ & Hflag & _). rewrite Hflag.
  rewrite decide_False; [done|]. by intros [? _].
Qed.

Lemma fire_timers_awaiting c ts st :
  awaiting c st →
  awaiting c (fire_timers MAX_BUTTONS getChild ts st) ∨
  settled c (fire_timers MAX_BUTTONS getChild ts st).
Proof.
  revert st. induction ts as [|t ts IH]; intros st Ha; [by left|].
  cbn. destruct (fire_timer_awaiting MAX_BUTTONS getChild c t st Ha) as [Ha'|Hs'].
  - by apply IH.
  - right. by apply fire_timers_settled.
Qed.

Lemma running_falls_once c ts st :
  awaiting c st →
  (∀ t, t ∈ timers_of c (timers_running st) → t ∈ ts) →
  running_falls MAX_BUTTONS getChild c ts st = 1%nat ∧
  settled c (fire_timers MAX_BUTTONS getChild ts st).
Proof.
  revert st. induction ts as [|t ts IH]; intros st Ha Hcover.
  - destruct Ha as (_ & _ & _ & Hown).
    apply list_elem_of_fmap in Hown as ([t c'] & -> & Hin). cbn in *.
    specialize (Hcover t). rewrite elem_of_timers_of in Hcover.
    by apply Hcover, elem_of_nil in Hin.
  - cbn.
    assert (Hcover' : ∀ t', t' ∈ timers_of c
               (timers_running (fire_timer MAX_BUTTONS getChild t st)) → t' ∈ ts).
    { intros t' Ht'. destruct Ha as (Hcons & _).
      apply fire_timer_timers_of in Ht' as [Ht' Hne]; [|done].
      apply Hcover, elem_of_cons in Ht' as [?|?]; done. }
    destruct (fire_timer_awaiting MAX_BUTTONS getChild c t st Ha) as [Ha'|Hs'].
    + destruct (IH _ Ha' Hcover') as [H1 H2]. split; [|done]. rewrite H1.
      destruct Ha' as (_ & _ & Hflag' & _). rewrite Hflag'.
      rewrite decide_False; [done|]. by intros [_ ?].
    + destruct (fire_timers_settled c ts _ Hs') as [H1 H2]. split; [|done].
      rewrite H2. destruct Ha as (_ & _ & Hflag & _).
      destruct Hs' as (_ & _ & Hflag' & _). rewrite Hflag, Hflag'.
      by rewrite decide_True.
Qed.

Lemma fire_timer_dispatch t job st :
  map_get t (node_timers st) = Some job →
  ∃ e evs,
    trace (fire_timer MAX_BUTTONS getChild t st) = trace st ++ e :: evs ∧
    dispatched e = Some (job_action job) ∧
    dispatched_actions evs = [] ∧
    (t ∉ (timers_running (fire_timer MAX_BUTTONS getChild t st)).*1) ∧
    (t ∉ (node_timers (fire_timer MAX_BUTTONS getChild t st)).*1) ∧
    (∀ c x, x ∈ set_calls c (e :: evs) →
       x.1 = false ∧
       c ∉ (timers_running (fire_timer MAX_BUTTONS getChild t st)).*2).
Proof.
  intros Hget.
  destruct (fire_timer_armed MAX_BUTTONS getChild t job st Hget)
    as (e & ps & st1 & st3 & He & Hse & _ & Hcalm1 & Hcalm3 & Htr3 & _ & ->).
  destruct Hcalm1 as [evs1 Ht1 Hq1 Hc1 _ _ _ Hn1 _ _ _ _ _ _].
  destruct Hcalm3 as [evs3 Ht3 Hq3 Hc3 _ _ Hs3 Hn3 _ _ _ _ _ _].
  cbn in Ht1, Hn1, Ht3, Hs3, Hn3, Hc3. exists e, (evs1 ++ evs3). split_and!.
  - rewrite Ht3, Ht1. by rewrite <- !app_assoc.
  - done.
  - by rewrite dispatched_actions_app, Hq1, Hq3.
  - rewrite Htr3. apply map_delete_key.
  - intros Hin.
    apply (map_delete_key (node_timers st) t).
    eapply keys_sublist; [exact Hn1|]. by eapply keys_sublist.
  - intros c x.
    change (set_calls c (e :: ?l)) with (set_calls c ([e] ++ l)).
    rewrite !set_calls_app, Hse, !elem_of_app. intros [Hx|[Hx|Hx]].
    + by apply elem_of_nil in Hx.
    + destruct (Hc1 c x Hx) as [? Hout]. split; [done|].
      intros Hin. apply Hout.
      eapply owners_sublist; [apply (map_delete_sublist _ t)|].
      by eapply owners_sublist.
    + by apply Hc3.
Qed.

(** X26. The life of the running flag for followed actions.  (1) When an
    enabled action has a positive effective delay, [runMultipleActions]
    ends by telling the control, if it can be told, that its actions run,
    so its running flag is set on return.  (2) A timer that expires first
    dispatches its action, is then neither pending nor armed, and a
    control is told that its actions stopped only when it owns no pending
    timer any more.  (3) If the control still owns a pending timer when
    [runMultipleActions] returns, then along any sequence of expiries
    that covers its timers the running flag is set exactly as long as the
    control owns a pending timer, it falls from set to clear exactly
    once, and it is clear at the end.  The run that aborts the timers it
    armed is left out of (3): there the flag never falls. *)
Theorem running_flag_lifecycle :
  (∀ actions0 c relative dev st,
     let actions := enabled_actions actions0 in
     let tbl := effective_delays relative actions in
     let st' := runMultipleActions MAX_BUTTONS getChild actions0 c relative dev st in
     Forall followed actions →
     Exists (λ a, 0 < delay_time tbl a) actions → can_run st c = true →
     running_flag st' c = Some true ∧
     last (trace st') = Some (EvSetActionsRunning c true false)) ∧
  (∀ t job st,
     map_get t (node_timers st) = Some job →
     followed (job_action job) →
     let st' := fire_timer MAX_BUTTONS getChild t st in
     ∃ e evs,
       trace st' = trace st ++ e :: evs ∧
       dispatched e = Some (job_action job) ∧
       dispatched_actions evs = [] ∧
       (t ∉ (timers_running st').*1) ∧ (t ∉ (node_timers st').*1) ∧
       (∀ c x, x ∈ set_calls c (e :: evs) →
          x.1 = false ∧ c ∉ (timers_running st').*2)) ∧
  (∀ actions0 c relative dev st ts,
     let actions := enabled_actions actions0 in
     let tbl := effective_delays relative actions in
     let st' := runMultipleActions MAX_BUTTONS getChild actions0 c relative dev st in
     Forall followed actions →
     (∀ t job, map_get t (node_timers st) = Some job → followed (job_action job)) →
     timers_consistent st → can_run st c = true →
     Exists (λ a, 0 < delay_time tbl a) actions →
     c ∈ (timers_running st').*2 →
     (∀ t, t ∈ timers_of c (timers_running st') → t ∈ ts) →
     running_falls MAX_BUTTONS getChild c ts st' = 1%nat ∧
     running_flag (fire_timers MAX_BUTTONS getChild ts st') c = Some false ∧
     ∀ k, let s := fire_timers MAX_BUTTONS getChild (take k ts) st' in
          running_flag s c = Some true ↔ c ∈ (timers_running s).*2).
Proof.
  split_and!.
  - intros actions0 c relative dev st actions tbl st' _ Hex Hcan.
    destruct (runMultipleActions_spec MAX_BUTTONS getChild actions0 c relative dev st)
      as (evs & ps & _ & _ & _ & _ & _ & _ & _ & Hrun).
    by apply Hrun.
  - intros t job st Hget _ st'. by apply fire_timer_dispatch.
  - intros actions0 c relative dev st ts actions tbl st' _ _ Hcons Hcan Hex Hown Hcover.
    destruct (runMultipleActions_spec MAX_BUTTONS getChild actions0 c relative dev st)
      as (evs & ps & _ & _ & _ & _ & _ & Hcan' & Hcons' & Hrun).
    assert (Ha : awaiting c st').
    { split_and!; [by apply Hcons'|by rewrite Hcan'|by apply Hrun|done]. }
    destruct (running_falls_once c ts st' Ha Hcover) as [Hfalls Hs].
    split_and!; [done|by destruct Hs as (_ & _ & ? & _)|].
    intros k s.
    destruct (fire_timers_awaiting c (take k ts) st' Ha)
      as [(_ & _ & Hf & Ho)|(_ & _ & Hf & Ho)]; subst s; rewrite Hf.
    + done.
    + split; [done|]. intros Hin. done.
Qed.

End Expiries.

Lemma consistent_without_timers st :
  timers_running st = [] → node_timers st = [] → timers_consistent st.
Proof.
  intros H1 H2. unfold timers_consistent. rewrite H1, H2. split_and!.
  - constructor.
  - constructor.
  - intros t c Hin. by apply elem_of_nil in Hin.
  - intros t job Hin. by apply elem_of_nil in Hin.
Qed.

Lemma running_flag_lifecycle_witness :
  (running_flag sample_run "bank:1-1" = Some true ∧
   last (trace sample_run) = Some (EvSetActionsRunning "bank:1-1" true false)) ∧
  (∃ e evs,
     trace (fire_timer 32 failing_connector 0 sample_run) = trace sample_run ++ e :: evs ∧
     dispatched e = Some (job_action sample_job) ∧
     dispatched_actions evs = [] ∧
     (0%nat ∉ (timers_running (fire_timer 32 failing_connector 0 sample_run)).*1) ∧
     (0%nat ∉ (node_timers (fire_timer 32 failing_connector 0 sample_run)).*1) ∧
     (∀ c x, x ∈ set_calls c (e :: evs) →
        x.1 = false ∧
        c ∉ (timers_running (fire_timer 32 failing_connector 0 sample_run)).*2)) ∧
  (running_falls 32 failing_connector "bank:1-1" [7; 1; 0; 2]%nat sample_run = 1%nat ∧
   running_flag (fire_timers 32 failing_connector [7; 1; 0; 2]%nat sample_run) "bank:1-1"
     = Some false ∧
   ∀ k, running_flag
          (fire_timers 32 failing_connector (take k [7; 1; 0; 2]%nat) sample_run)
          "bank:1-1" = Some true ↔
        "bank:1-1" ∈
          (timers_running
             (fire_timers 32 failing_connector (take k [7; 1; 0; 2]%nat) sample_run)).*2).
Proof.
  destruct (running_flag_lifecycle 32 failing_connector) as (H1 & H2 & H3).
  assert (Hfol : Forall followed (enabled_actions sample_actions))
    by (apply (bool_decide_unpack _); vm_compute; exact I).
  split; [|split].
  - apply (H1 sample_actions "bank:1-1" true None one_button).
    + exact Hfol.
    + apply (bool_decide_unpack _). vm_compute. exact I.
    + reflexivity.
  - apply (H2 0%nat sample_job sample_run).
    + vm_compute. reflexivity.
    + left. discriminate.
  - apply (H3 sample_actions "bank:1-1" true None one_button [7; 1; 0; 2]%nat).
    + exact Hfol.
    + intros t job Hget. discriminate Hget.
    + by apply consistent_without_timers.
    + reflexivity.
    + apply (bool_decide_unpack _). vm_compute. exact I.
    + apply (bool_decide_unpack _). vm_compute. exact I.
    + apply Forall_forall. apply (bool_decide_unpack _). vm_compute. exact I.
Defined.

(** C3. A button whose actions are a delayed action followed by an
    immediate internal action that aborts the delayed actions of the same
    button, run in absolute mode.  The first action has the effective
    delay 100 and is put on a timer, and the button is told that its
    actions run when [runMultipleActions] returns.  The only call that
    says they stopped comes before that one, from the abort; afterwards
    no timer is left, so whatever timers expire, nothing changes: the
    running flag stays set and never falls. *)
Theorem C3_running_flag_never_falls :
  let st := runMultipleActions 32 failing_connector abort_self_actions
              "bank:1-1" false None one_button in
  delayed_actions false abort_self_actions
    = [plain_action "d1" "conn" (DelayNumber 100) false] ∧
  trace one_button = [] ∧
  head (trace st) = Some (EvSetTimeout 0 100) ∧
  set_calls "bank:1-1" (trace st) = [(false, false); (true, false)] ∧
  running_flag st "bank:1-1" = Some true ∧
  ∀ ts, fire_timers 32 failing_connector ts st = st ∧
        running_falls 32 failing_connector "bank:1-1" ts st = 0%nat.
Proof.
  cbv zeta. split_and!; [vm_compute; reflexivity..|].
  set (st := runMultipleActions 32 failing_connector abort_self_actions
               "bank:1-1" false None one_button).
  assert (Hnone : ∀ t, fire_timer 32 failing_connector t st = st).
  { intros t. unfold fire_timer.
    replace (node_timers st) with (@nil (nat * TimerJob)) by (vm_compute; reflexivity).
    reflexivity. }
  assert (Hfire : ∀ ts, fire_timers 32 failing_connector ts st = st).
  { induction ts as [|t ts IH]; [done|].
    unfold fire_timers in *. cbn [foldl]. by rewrite Hnone. }
  intros ts. split; [apply Hfire|].
  induction ts as [|t ts IH]; [done|].
  cbn [running_falls]. rewrite Hnone, IH.
  rewrite decide_False; [done|].
  intros [H1 H2]. rewrite H1 in H2. discriminate H2.
Qed.

(** ** The aborts, seen from outside *)

Section Aborts.

Implicit Types (st : State) (c : string).

Lemma timers_of_none c (m : list (nat * string)) : c ∉ m.*2 → timers_of c m = [].
Proof.
  intros Hout. unfold timers_of.
  induction m as [|[t c'] m IH]; [done|].
  cbn in Hout. apply not_elem_of_cons in Hout as [Hne Hout].
  rewrite filter_cons_False by (cbn; congruence). by apply IH.
Qed.

Lemma acd_controls_ne c c' s st :
  c' ≠ c → controls (abortControlDelayed c s st) !! c' = controls st !! c'.
Proof.
  intros Hne. unfold abortControlDelayed.
  rewrite sir_controls_ne by done. by rewrite abort_control_loop_spec.
Qed.

Lemma acd_flag c s st :
  running_flag (abortControlDelayed c s st) c =
  if can_run st c then Some false else running_flag st c.
Proof.
  unfold abortControlDelayed. rewrite sir_flag.
  by rewrite abort_control_loop_spec.
Qed.

(** C5, as the code has it.  [abortControlDelayed] removes from the
    pending set exactly the entries owned by the control and clears
    their timers, and leaves every other control as it was; the control
    itself, if it can be told, is told that its actions stopped, with
    the [skipUp] it was given, also when it owned no pending timer: in
    that case the pending set and the armed timers are unchanged and the
    one call is all that happens. *)
Theorem C5_abort_control_frame c skipUp st :
  NoDup (timers_running st).*1 →
  let st' := abortControlDelayed c skipUp st in
  let told := if can_run st c then [EvSetActionsRunning c false skipUp] else [] in
  timers_running st' = filter (λ e, e.2 ≠ c) (timers_running st) ∧
  node_timers st' =
    filter (λ e, e.1 ∉ timers_of c (timers_running st)) (node_timers st) ∧
  (∀ c', c' ≠ c → controls st' !! c' = controls st !! c') ∧
  running_flag st' c = (if can_run st c then Some false else running_flag st c) ∧
  trace st' =
    trace st ++ (EvClearTimeout <$> timers_of c (timers_running st)) ++ told ∧
  (c ∉ (timers_running st).*2 →
   timers_running st' = timers_running st ∧ node_timers st' = node_timers st ∧
   trace st' = trace st ++ told).
Proof.
  intros Hnd st' told. subst st' told. split_and!.
  - by rewrite acd_timers, filter_keys_owner.
  - apply acd_node.
  - intros c' Hne. by apply acd_controls_ne.
  - apply acd_flag.
  - apply acd_trace.
  - intros Hout. rewrite acd_timers, acd_node, acd_trace.
    rewrite (timers_of_none c _ Hout). cbn.
    by rewrite !filter_all by (intros x; apply not_elem_of_nil).
Qed.

(** C6. [abortAllDelayed] empties the pending set and clears every timer
    that was in it; every control that owned a pending timer and can be
    told is told once that its actions stopped, however many timers it
    owned, and no other control is told anything. *)
Theorem C6_abort_all_once_per_control st :
  let st' := abortAllDelayed st in
  timers_running st' = [] ∧
  node_timers st' = filter (λ e, e.1 ∉ (timers_running st).*1) (node_timers st) ∧
  ∃ evs,
    trace st' = trace st ++ (EvClearTimeout <$> (timers_running st).*1) ++ evs ∧
    ∀ c,
      set_calls c evs =
        (if decide (c ∈ (timers_running st).*2 ∧ can_run st c = true)
         then [(false, false)] else []) ∧
      running_flag st' c =
        (if decide (c ∈ (timers_running st).*2 ∧ can_run st c = true)
         then Some false else running_flag st c).
Proof.
  intros st'. subst st'. split_and!; [apply aad_timers|apply aad_node|].
  destruct (aad_trace st) as (affected & Hnd & Hiff & Htr).
  eexists. split; [exact Htr|]. intros c.
  rewrite set_calls_stop_events by by apply NoDup_filter.
  destruct (calm_abortAllDelayed st)
    as [evs Ht _ _ Hframe _ _ _ _ _ _ Hlost _ _].
  assert (Hevs : evs = (EvClearTimeout <$> (timers_running st).*1) ++
            ((λ c, EvSetActionsRunning c false false)
               <$> filter (λ c, can_run st c = true) affected)).
  { rewrite Htr in Ht. by apply app_inv_head in Ht. }
  destruct (decide (c ∈ (timers_running st).*2 ∧ can_run st c = true))
    as [[Hin Hcan]|Hno].
  - split.
    + rewrite decide_True; [done|]. apply list_elem_of_filter. by rewrite Hiff.
    + rewrite abortAllDelayed_unfold. apply stop_fold_flag.
      * destruct (abort_all_loop_affected (timers_running st) [] st NoDup_nil_2)
          as [_ Hiff2]. apply Hiff2. by right.
      * unfold can_run in *. cbn. by rewrite abort_all_loop_state.
  - assert (Hout : c ∉ filter (λ c, can_run st c = true) affected).
    { rewrite list_elem_of_filter, Hiff. tauto. }
    split.
    + by rewrite decide_False.
    + unfold running_flag. rewrite Hframe; [done|]. rewrite Hevs.
      rewrite set_calls_app, set_calls_clear, set_calls_stop_events
        by by apply NoDup_filter.
      by rewrite decide_False.
Qed.

End Aborts.

Lemma C5_abort_control_frame_witness :
  let st' := abortControlDelayed "bank:1-1" false sample_run in
  timers_running st' = [] ∧ node_timers st' = [] ∧
  running_flag st' "bank:1-1" = Some false.
Proof.
  destruct (C5_abort_control_frame "bank:1-1" false sample_run)
    as (H1 & H2 & _ & H4 & _).
  - apply (bool_decide_unpack _). vm_compute. exact I.
  - cbv zeta. rewrite H1, H2, H4. vm_compute. done.
Defined.

(** C5, as the specification has it, fails: a button that owns no pending
    timer is still told that its actions stopped, so the call is not
    without effect on it. *)
Lemma C5_abort_without_timers_not_noop :
  ("bank:1-1" ∉ (timers_running one_button).*2) ∧
  set_calls "bank:1-1" (trace (abortControlDelayed "bank:1-1" false one_button))
    = [(false, false)] ∧
  abortControlDelayed "bank:1-1" false one_button ≠ one_button.
Proof.
  split_and!.
  - cbn. apply not_elem_of_nil.
  - vm_compute. reflexivity.
  - intros Heq. apply (f_equal trace) in Heq. vm_compute in Heq. discriminate.
Qed.

(** ** Presses and rotations *)

Section Press.

Implicit Types (st : State) (c : string).

(** C7, as the code has it.  [pressControl] notifies the trigger system
    only when it has found a control that can be pressed, just before it
    forwards the press; on any other id it returns false and leaves the
    state, the trace included, as it was.  [rotateControl] never
    notifies the trigger system. *)
Theorem C7_press_rotate_dispatch c flag dev st :
  pressControl c flag dev st =
    (if bool_decide (has_pressControl <$> controls st !! c = Some true)
     then (true, mkState (controls st) (timers_running st) (node_timers st)
                   (next_timer st) (promises st)
                   (trace st ++ [EvTriggerEmit "control_press" c flag dev;
                                 EvControlPress c flag dev]))
     else (false, st)) ∧
  rotateControl c flag dev st =
    (if bool_decide (has_rotateControl <$> controls st !! c = Some true)
     then (true, mkState (controls st) (timers_running st) (node_timers st)
                   (next_timer st) (promises st)
                   (trace st ++ [EvControlRotate c flag dev]))
     else (false, st)) ∧
  trigger_events (trace (rotateControl c flag dev st).2) = trigger_events (trace st).
Proof.
  unfold pressControl, rotateControl, emit.
  destruct (controls st !! c) as [control|]; cbn.
  - destruct (has_pressControl control), (has_rotateControl control); cbn;
      rewrite <- ?app_assoc; split_and!; try done.
    + unfold trigger_events. rewrite filter_app. cbn. by rewrite app_nil_r.
    + unfold trigger_events. rewrite filter_app. cbn. by rewrite app_nil_r.
  - done.
Qed.

End Press.

(** C7, as the specification has it, fails: a press of an id that no
    control has returns false and sends nothing to the trigger system. *)
Lemma C7_unknown_press_emits_nothing :
  pressControl "bank:9-9" true None one_button = (false, one_button) ∧
  trigger_events (trace (pressControl "bank:9-9" true None one_button).2) = [] ∧
  trigger_events (trace (rotateControl "bank:1-1" true None one_button).2) = [].
Proof. vm_compute. by split_and!. Qed.

(** ** Connectors that are missing or that fail *)

Section Connectors.

Variable MAX_BUTTONS : nat.
Variable getChild : string → option Connection.

Implicit Types (st : State) (c : string).

Lemma settle_caught (ps : list PendingPromise) :
  Forall (λ p, pp_catch p = true) ps →
  Forall (λ e, is_unhandled e = false) (concat (settle <$> ps)) ∧
  dispatched_actions (concat (settle <$> ps)) = [].
Proof.
  induction 1 as [|p ps Hp _ [IH1 IH2]]; [done|].
  cbn. unfold settle at 1 3. rewrite Hp.
  destruct (pp_result p); cbn; [done|]. split; [by constructor|done].
Qed.

Lemma dispatched_handled e a : dispatched e = Some a → is_unhandled e = false.
Proof. by destruct e. Qed.

Lemma fire_timer_promises t st :
  ∃ evs ps,
    trace (fire_timer MAX_BUTTONS getChild t st) = trace st ++ evs ∧
    Forall (λ e, is_unhandled e = false) evs ∧
    promises (fire_timer MAX_BUTTONS getChild t st) = promises st ++ ps ∧
    Forall (λ p, pp_catch p = true) ps.
Proof.
  destruct (map_get t (node_timers st)) as [job|] eqn:Hget.
  - destruct (fire_timer_armed MAX_BUTTONS getChild t job st Hget)
      as (e & ps & st1 & st3 & He & _ & Hps & Hcalm1 & Hcalm3 & _ & _ & ->).
    destruct Hcalm1 as [evs1 Ht1 _ _ _ _ _ _ _ Hp1 _ _ _ Hh1].
    destruct Hcalm3 as [evs3 Ht3 _ _ _ _ _ _ _ Hp3 _ _ _ Hh3].
    cbn in Ht1, Hp1, Ht3, Hp3.
    exists (e :: evs1 ++ evs3), ps. split_and!.
    + rewrite Ht3, Ht1. by rewrite <- !app_assoc.
    + constructor; [by eapply dispatched_handled|]. by apply Forall_app.
    + by rewrite Hp3, Hp1.
    + done.
  - rewrite fire_timer_unarmed by done. exists [], [].
    by rewrite !app_nil_r.
Qed.

(** C8. An action for a connector that cannot be resolved is logged and
    nothing else happens.  An action for a resolved connector is handed
    over with a rejection handler on the promise, so a failure of the
    handler is logged when the promise settles.  Whatever the connectors
    do, [runMultipleActions] hands over every enabled action whose
    effective delay is not positive, and neither a run nor an expiring
    timer leaves a rejection unhandled. *)
Theorem C8_connector_failures_contained :
  (∀ a c x st,
     instance a ≠ "internal" → getChild (instance a) = None →
     runAction MAX_BUTTONS getChild a c x st = emit (EvMissingInstance a) st) ∧
  (∀ a c x st conn,
     instance a ≠ "internal" → getChild (instance a) = Some conn →
     promises st = [] →
     let st' := runAction MAX_BUTTONS getChild a c x st in
     controls st' = controls st ∧ timers_running st' = timers_running st ∧
     node_timers st' = node_timers st ∧
     trace st' = trace st ++ [EvActionRun (connectionId conn) a c x] ∧
     trace (settle_promises st') =
       trace st' ++
         match actionRun conn a c x with
         | Fulfilled => []
         | Rejected message => [EvActionError (connectionId conn) message]
         end) ∧
  (∀ actions0 c relative dev st,
     Forall (λ p, pp_catch p = true) (promises st) →
     let actions := enabled_actions actions0 in
     let tbl := effective_delays relative actions in
     let st' := settle_promises
                  (runMultipleActions MAX_BUTTONS getChild actions0 c relative dev st) in
     ∃ evs,
       trace st' = trace st ++ evs ∧
       Forall (λ e, is_unhandled e = false) evs ∧
       dispatched_actions evs = filter (λ a, delay_time tbl a ≤ 0) actions) ∧
  (∀ t st,
     Forall (λ p, pp_catch p = true) (promises st) →
     ∃ evs,
       trace (settle_promises (fire_timer MAX_BUTTONS getChild t st)) = trace st ++ evs ∧
       Forall (λ e, is_unhandled e = false) evs).
Proof.
  split_and!.
  - intros a c x st Hint Hnone. unfold runAction.
    rewrite decide_False by done. by rewrite Hnone.
  - intros a c x st conn Hint Hsome Hnil st'. subst st'. unfold runAction.
    rewrite decide_False by done. rewrite Hsome. cbn. rewrite Hnil. cbn.
    split_and!; try done. unfold settle. cbn.
    destruct (actionRun conn a c x); cbn; by rewrite ?app_nil_r.
  - intros actions0 c relative dev st Hcaught actions tbl st'. subst st'.
    destruct (runMultipleActions_spec MAX_BUTTONS getChild actions0 c relative dev st)
      as (evs & ps & Ht & Hq & Hh & Hp & Hps & _).
    destruct (settle_caught (promises st ++ ps)) as [Hs1 Hs2];
      [by apply Forall_app|].
    exists (evs ++ concat (settle <$> promises st ++ ps)). cbn. split_and!.
    + rewrite Ht, Hp. by rewrite <- app_assoc.
    + by apply Forall_app.
    + rewrite dispatched_actions_app, Hs2, app_nil_r. apply Hq.
  - intros t st Hcaught.
    destruct (fire_timer_promises t st) as (evs & ps & Ht & Hh & Hp & Hps).
    destruct (settle_caught (promises st ++ ps)) as [Hs1 _];
      [by apply Forall_app|].
    exists (evs ++ concat (settle <$> promises st ++ ps)). cbn. split.
    + rewrite Ht, Hp. by rewrite <- app_assoc.
    + by apply Forall_app.
Qed.

End Connectors.

Lemma C8_connector_failures_contained_witness :
  runAction 32 failing_connector (plain_action "m3" "gone" (DelayText None) false)
    "bank:1-1" (mkExtras "bank:1-1" None (Some 1) (Some 1)) one_button
  = emit (EvMissingInstance (plain_action "m3" "gone" (DelayText None) false)) one_button ∧
  trace (settle_promises
           (runAction 32 failing_connector (plain_action "m1" "conn" DelayMissing false)
              "bank:1-1" (mkExtras "bank:1-1" None (Some 1) (Some 1)) one_button))
  = [ EvActionRun "conn" (plain_action "m1" "conn" DelayMissing false) "bank:1-1"
        (mkExtras "bank:1-1" None (Some 1) (Some 1));
      EvActionError "conn" "boom" ] ∧
  (∃ evs,
     trace (settle_promises
              (runMultipleActions 32 failing_connector mixed_actions "bank:1-1" false
                 None one_button)) = trace one_button ++ evs ∧
     Forall (λ e, is_unhandled e = false) evs ∧
     id <$> dispatched_actions evs = ["m1"; "m3"; "m4"; "m6"]) ∧
  (∃ evs,
     trace (settle_promises (fire_timer 32 failing_connector 0 sample_run))
       = trace sample_run ++ evs ∧
     Forall (λ e, is_unhandled e = false) evs).
Proof.
  destruct (C8_connector_failures_contained 32 failing_connector) as (H1 & H2 & H3 & H4).
  split; [|split; [|split]].
  - apply H1; [done|reflexivity].
  - destruct (H2 (plain_action "m1" "conn" DelayMissing false) "bank:1-1"
                (mkExtras "bank:1-1" None (Some 1) (Some 1)) one_button
                (mkConnection "conn" (λ _ _ _, Rejected "boom")))
      as (_ & _ & _ & Ht & Hs); [done|reflexivity|reflexivity|].
    rewrite Hs, Ht. reflexivity.
  - destruct (H3 mixed_actions "bank:1-1" false None one_button) as (evs & Ht & Hh & Hq);
      [constructor|].
    exists evs. split_and!; [done|done|]. rewrite Hq. vm_compute. reflexivity.
  - apply H4. constructor.
Defined.

(** ** Feedback values *)

Section Feedback.

Implicit Types (st : State) (c f : string) (batch : list FeedbackItem).

Lemma obj_get_set {V : Type} k (v : V) o : obj_get k (obj_set k v o) = Some v.
Proof.
  induction o as [|[k' v'] o IH]; cbn.
  - by rewrite decide_True.
  - destruct (decide (k' = k)) as [->|Hne]; cbn.
    + by rewrite decide_True.
    + by rewrite decide_False.
Qed.

Lemma obj_get_set_ne {V : Type} k k' (v : V) o :
  k' ≠ k → obj_get k' (obj_set k v o) = obj_get k' o.
Proof.
  intros Hne. induction o as [|[k0 v0] o IH]; cbn.
  - by rewrite decide_False.
  - destruct (decide (k0 = k)) as [->|Hne0]; cbn.
    + by rewrite !decide_False.
    + by rewrite IH.
Qed.

Lemma obj_set_keys {V : Type} k (v : V) o :
  (obj_set k v o).*1 = if decide (k ∈ o.*1) then o.*1 else o.*1 ++ [k].
Proof.
  induction o as [|[k' v'] o IH]; cbn.
  - rewrite decide_False; [done|apply not_elem_of_nil].
  - destruct (decide (k' = k)) as [->|Hne]; cbn.
    + rewrite decide_True; [done|by left].
    + rewrite IH. destruct (decide (k ∈ o.*1)) as [Hin|Hout].
      * rewrite decide_True; [done|by right].
      * rewrite decide_False; [done|].
        rewrite not_elem_of_cons. split; [congruence|done].
Qed.

Lemma obj_get_None {V : Type} k (o : list (string * V)) :
  obj_get k o = None ↔ k ∉ o.*1.
Proof.
  induction o as [|[k' v'] o IH]; cbn.
  - split; [intros _; apply not_elem_of_nil|done].
  - destruct (decide (k' = k)) as [->|Hne].
    + split; [done|]. intros Hout. destruct Hout. by left.
    + rewrite IH, not_elem_of_cons. split; [|tauto]. split; [congruence|done].
Qed.

Lemma group_values_snoc batch item :
  group_values (batch ++ [item]) =
  obj_set (fb_controlId item)
    (<[fb_id item := fb_value item]>
       (default ∅ (obj_get (fb_controlId item) (group_values batch))))
    (group_values batch).
Proof. unfold group_values. by rewrite foldl_snoc. Qed.

(** The object has one key per control of the batch. *)
Lemma group_values_keys batch :
  NoDup (group_values batch).*1 ∧
  ∀ c, c ∈ (group_values batch).*1 ↔ c ∈ fb_controlId <$> batch.
Proof.
  induction batch as [|item batch [IH1 IH2]] using rev_ind.
  - split; [constructor|]. intros c. cbn. by rewrite !elem_of_nil.
  - rewrite group_values_snoc, obj_set_keys, fmap_app. cbn.
    destruct (decide (fb_controlId item ∈ (group_values batch).*1)) as [Hin|Hout].
    + split; [done|]. intros c. rewrite elem_of_app, list_elem_of_singleton, IH2.
      split; [tauto|]. intros [? | ->]; [done|]. by apply IH2.
    + split.
      * apply NoDup_app. split_and!; [done| |apply NoDup_singleton].
        intros x Hx ->%list_elem_of_singleton. done.
      * intros c. by rewrite !elem_of_app, !list_elem_of_singleton, IH2.
Qed.

(** Within the group of a control the last value of the batch wins. *)
Lemma group_values_last batch c f :
  default ∅ (obj_get c (group_values batch)) !! f = last_value c f batch.
Proof.
  induction batch as [|item batch IH] using rev_ind; [done|].
  rewrite group_values_snoc. unfold last_value. rewrite filter_app, fmap_app.
  destruct (decide (fb_controlId item = c)) as [Hc|Hne].
  - subst c. rewrite obj_get_set. cbn [from_option Datatypes.id].
    destruct (decide (fb_id item = f)) as [Hf|Hnf]; [subst f|].
    + rewrite lookup_insert_eq, filter_cons_True by done. cbn.
      by rewrite last_snoc.
    + rewrite lookup_insert_ne by done.
      rewrite filter_cons_False by (intros [_ ?]; done).
      cbn. rewrite app_nil_r. apply IH.
  - rewrite obj_get_set_ne by done.
    rewrite filter_cons_False by (intros [? _]; done).
    cbn. rewrite app_nil_r. apply IH.
Qed.

(** The forwarding loop over the entries of the object. *)
Lemma forward_entries instanceId (o : list (string * gmap string FeedbackValue)) st :
  NoDup o.*1 →
  let st' :=
    foldl (λ s entry,
             match controls s !! entry.1 with
             | Some control =>
                 if has_feedbacks control
                 then emit (EvFeedbackUpdate entry.1 instanceId entry.2) s else s
             | None => s
             end) st o in
  controls st' = controls st ∧ timers_running st' = timers_running st ∧
  node_timers st' = node_timers st ∧ promises st' = promises st ∧
  ∃ evs, trace st' = trace st ++ evs ∧
    ∀ c, deliveries_to c evs =
           if feedback_host st c then option_list (obj_get c o) else [].
Proof.
  revert st. induction o as [|[k g] o IH]; intros st Hnd; cbn zeta.
  - split_and!; try done. exists []. rewrite app_nil_r. split; [done|].
    intros c. cbn. by destruct (feedback_host st c).
  - apply NoDup_cons in Hnd as [Hk Hnd]. cbn [fst] in Hk. cbn [foldl fst snd].
    match goal with |- context [foldl _ ?s o] => set (st1 := s) end.
    assert (H1 : controls st1 = controls st ∧ timers_running st1 = timers_running st ∧
                 node_timers st1 = node_timers st ∧ promises st1 = promises st ∧
                 trace st1 = trace st ++
                   (if feedback_host st k then [EvFeedbackUpdate k instanceId g] else [])).
    { subst st1. unfold feedback_host.
      destruct (controls st !! k) as [control|]; [|by rewrite app_nil_r].
      destruct (has_feedbacks control); [done|by rewrite app_nil_r]. }
    destruct H1 as (Hc1 & Ht1 & Hn1 & Hp1 & Htr1).
    destruct (IH st1 Hnd) as (Hc & Ht & Hn & Hp & evs & Htr & Hdel).
    split_and!; try congruence.
    exists ((if feedback_host st k then [EvFeedbackUpdate k instanceId g] else []) ++ evs).
    split; [by rewrite Htr, Htr1, app_assoc|].
    intros c. unfold deliveries_to. rewrite omap_app. fold (deliveries_to c evs).
    rewrite Hdel.
    assert (Hh : feedback_host st1 c = feedback_host st c)
      by (unfold feedback_host; by rewrite Hc1).
    rewrite Hh. cbn [obj_get].
    destruct (decide (k = c)) as [->|Hne].
    + apply obj_get_None in Hk. rewrite Hk.
      destruct (feedback_host st c); cbn; [|done]. by rewrite decide_True.
    + destruct (feedback_host st k); cbn; [|done]. by rewrite decide_False.
Qed.

(** C9. [updateFeedbackValues] changes nothing but the trace, to which it
    adds the deliveries.  A control receives one group when it hosts
    feedbacks and the batch has a tuple for it, and nothing otherwise;
    the group holds, for each feedback id, the last value the batch has
    for that id and that control, and so nothing of another control.
    For the batch of section 8, A receives f1:true, f3:false and B
    receives f2:false. *)
Theorem C9_feedback_grouped_by_control :
  (∀ instanceId batch st,
     let st' := updateFeedbackValues instanceId batch st in
     controls st' = controls st ∧ timers_running st' = timers_running st ∧
     node_timers st' = node_timers st ∧ promises st' = promises st ∧
     ∃ evs, trace st' = trace st ++ evs ∧
       ∀ c, ∃ group,
         (∀ f, group !! f = last_value c f batch) ∧
         deliveries_to c evs =
           if decide (feedback_host st c = true ∧ c ∈ fb_controlId <$> batch)
           then [group] else []) ∧
  deliveries_to "A" (trace (updateFeedbackValues "conn" sample_batch controls_A_B))
    = [ {[ "f1" := FbBool true; "f3" := FbBool false ]} ] ∧
  deliveries_to "B" (trace (updateFeedbackValues "conn" sample_batch controls_A_B))
    = [ {[ "f2" := FbBool false ]} ].
Proof.
  split_and!.
  - intros instanceId batch st st'. subst st'. unfold updateFeedbackValues.
    destruct (group_values_keys batch) as [Hnd Hkeys].
    destruct (forward_entries instanceId (group_values batch) st Hnd)
      as (Hc & Ht & Hn & Hp & evs & Htr & Hdel).
    split_and!; try done. exists evs. split; [done|]. intros c.
    exists (default ∅ (obj_get c (group_values batch))).
    split; [intros f; apply group_values_last|].
    rewrite Hdel.
    destruct (feedback_host st c); [|by rewrite decide_False by (by intros [? _])].
    destruct (obj_get c (group_values batch)) as [g|] eqn:E.
    + rewrite decide_True; [done|]. split; [done|]. apply Hkeys.
      destruct (decide (c ∈ (group_values batch).*1)) as [|Hout]; [done|].
      apply obj_get_None in Hout. congruence.
    + rewrite decide_False; [done|]. intros [_ Hin].
      apply Hkeys in Hin. by apply obj_get_None in E.
  - vm_compute. reflexivity.
  - vm_compute. reflexivity.
Qed.

End Feedback.

(** ** The invariant of the running flag along the steps that keep it *)

Section Invariant.

Variable MAX_BUTTONS : nat.
Variable getChild : string → option Connection.

Implicit Types (st : State) (c : string).

Lemma running_invariant_cases st :
  running_invariant st ↔
  timers_consistent st ∧ ∀ c, can_run st c = true → awaiting c st ∨ settled c st.
Proof.
  unfold running_invariant, awaiting, settled. split.
  - intros [Hcons Hinv]. split; [done|]. intros c Hcan.
    destruct (decide (c ∈ (timers_running st).*2)) as [Hin|Hout].
    + left. split_and!; [done|done| |done]. by apply Hinv.
    + right. split_and!; [done|done| |done].
      unfold can_run, running_flag in *.
      destruct (controls st !! c) as [control|] eqn:E; [|done]. cbn.
      destruct (actions_running control) eqn:Er; [|done].
      destruct Hout. apply Hinv; [by rewrite E|]. by rewrite E; cbn; rewrite Er.
  - intros [Hcons Hinv]. split; [done|]. intros c Hcan.
    destruct (Hinv c Hcan) as [(_ & _ & Hf & Ho)|(_ & _ & Hf & Ho)]; rewrite Hf.
    + done.
    + split; [done|]. intros Hin. done.
Qed.

Lemma calm_settled c st st' : calm st st' → settled c st → settled c st'.
Proof.
  intros Hcalm (Hcons & Hcan & Hflag & Hown).
  pose proof (calm_consistent st st' Hcalm Hcons) as Hcons'.
  destruct Hcalm as [evs _ _ _ _ Hr Hs _ _ _ _ _ Hz _].
  split_and!; [done|by rewrite Hr|by apply Hz|].
  intros Hin. apply Hown. by eapply owners_sublist.
Qed.

Lemma calm_awaiting c st st' :
  calm st st' → awaiting c st → awaiting c st' ∨ settled c st'.
Proof.
  intros Hcalm (Hcons & Hcan & Hflag & Hown).
  pose proof (calm_consistent st st' Hcalm Hcons) as Hcons'.
  destruct Hcalm as [evs _ _ Hc Hf Hr Hs _ _ _ _ Hl _ _].
  destruct (decide (c ∈ (timers_running st').*2)) as [Hin|Hout].
  - left. split_and!; [done|by rewrite Hr| |done].
    assert (Hno : set_calls c evs = []).
    { destruct (set_calls c evs) as [|x l] eqn:E; [done|].
      destruct (Hc c x) as [_ Hout]; [rewrite E; by left|]. done. }
    unfold running_flag in *. by rewrite (Hf c Hno).
  - right. split_and!; [done|by rewrite Hr| |done].
    apply Hl; [by destruct Hcons|done|done|done].
Qed.

Lemma runAction_keeps c a c0 x st :
  awaiting c st ∨ settled c st →
  awaiting c (runAction MAX_BUTTONS getChild a c0 x st) ∨
  settled c (runAction MAX_BUTTONS getChild a c0 x st).
Proof.
  destruct (runAction_calm MAX_BUTTONS getChild a c0 x st)
    as (e & ps & _ & _ & _ & Hcalm).
  intros [Ha|Hs].
  - by apply (calm_awaiting c (called e ps st)).
  - right. by apply (calm_settled c (called e ps st)).
Qed.

(** Arming a timer for a control leaves the others as they were. *)
Lemma scheduled_keeps c c0 job st :
  c ≠ job_controlId job →
  awaiting c st ∨ settled c st →
  let st1 := set_timers_running
               (map_set (next_timer st) (job_controlId job)
                  (timers_running (setTimeout job st).2))
               (setTimeout job st).2 in
  awaiting c st1 ∨ settled c st1.
Proof.
  intros Hne Hinv st1.
  assert (Hcons : timers_consistent st) by (by destruct Hinv as [[? _]|[? _]]).
  pose proof (consistent_scheduled job st Hcons) as Hcons1. fold st1 in Hcons1.
  assert (Hfresh : next_timer st ∉ (timers_running st).*1).
  { destruct Hcons as (_ & _ & Harmed & Hlt). intros Hin.
    apply list_elem_of_fmap in Hin as ([t c'] & Heq & Hin). cbn in Heq. subst t.
    destruct (Harmed _ _ Hin) as (job' & Hjob & _). apply Hlt in Hjob. lia. }
  assert (Hown : ∀ c', c' ∈ (timers_running st1).*2 ↔
                       c' ∈ (timers_running st).*2 ∨ c' = job_controlId job).
  { intros c'. subst st1. cbn. rewrite map_set_fresh by done.
    rewrite fmap_app, elem_of_app. cbn. by rewrite list_elem_of_singleton. }
  destruct Hinv as [(_ & Hcan & Hflag & Ho)|(_ & Hcan & Hflag & Ho)].
  - left. split_and!; [done|done|done|]. apply Hown. by left.
  - right. split_and!; [done|done|done|]. rewrite Hown. tauto.
Qed.

Lemma run_loop_other tbl c0 x actions has_delayed c st :
  c ≠ c0 →
  awaiting c st ∨ settled c st →
  awaiting c (run_loop MAX_BUTTONS getChild tbl c0 x actions has_delayed st).2 ∨
  settled c (run_loop MAX_BUTTONS getChild tbl c0 x actions has_delayed st).2.
Proof.
  intros Hne. revert has_delayed st.
  induction actions as [|a actions IH]; intros has_delayed st Hinv; [done|].
  cbn [run_loop]. cbv zeta. case_decide.
  - cbn [setTimeout]. apply IH.
    by apply (scheduled_keeps c c0 (mkJob a c0 x (delay_time tbl a)) st).
  - apply IH. by apply runAction_keeps.
Qed.

(** For the control whose actions run: as long as nothing was delayed the
    invariant is kept, and once something was, the control is at least
    told that its actions stopped whenever it loses its last timer. *)
Lemma run_loop_self tbl c x actions (has_delayed : bool) st :
  timers_consistent st → can_run st c = true →
  (if has_delayed return Prop
   then c ∉ (timers_running st).*2 → running_flag st c = Some false
   else awaiting c st ∨ settled c st) →
  let r := run_loop MAX_BUTTONS getChild tbl c x actions has_delayed st in
  if r.1 return Prop
  then c ∉ (timers_running r.2).*2 → running_flag r.2 c = Some false
  else awaiting c r.2 ∨ settled c r.2.
Proof.
  revert has_delayed st.
  induction actions as [|a actions IH]; intros has_delayed st Hcons Hcan Hinv; [done|].
  cbn [run_loop]. cbv zeta. case_decide.
  - cbn [setTimeout].
    pose proof (consistent_scheduled (mkJob a c x (delay_time tbl a)) st Hcons) as Hcons1.
    cbn [setTimeout snd job_controlId] in Hcons1.
    apply (IH true); [done|done|].
    intros Hout. destruct Hout. cbn.
    assert (Hfresh : next_timer st ∉ (timers_running st).*1).
    { destruct Hcons as (_ & _ & Harmed & Hlt). intros Hin.
      apply list_elem_of_fmap in Hin as ([t c'] & Heq & Hin). cbn in Heq. subst t.
      destruct (Harmed _ _ Hin) as (job' & Hjob & _). apply Hlt in Hjob. lia. }
    rewrite map_set_fresh by done. rewrite fmap_app, elem_of_app. right.
    cbn. by apply list_elem_of_singleton.
  - destruct (runAction_calm MAX_BUTTONS getChild a c x st)
      as (e & ps & _ & _ & _ & Hcalm).
    pose proof (calm_consistent _ _ Hcalm (consistent_called e ps st Hcons)) as Hcons1.
    assert (Hcan1 : can_run (runAction MAX_BUTTONS getChild a c x st) c = true).
    { destruct Hcalm as [evs _ _ _ _ Hr _ _ _ _ _ _ _ _]. by rewrite Hr. }
    apply IH; [done|done|].
    destruct has_delayed.
    + intros Hout.
      destruct Hcalm as [evs _ _ _ _ _ _ _ _ _ _ Hl Hz _].
      destruct (decide (c ∈ (timers_running st).*2)) as [Hin|Hout0].
      * apply Hl; [by destruct Hcons|done|done|done].
      * apply Hz. by apply Hinv.
    + by apply runAction_keeps.
Qed.

Lemma sir_keeps_other c c0 r s st :
  c ≠ c0 → awaiting c st ∨ settled c st →
  awaiting c (setControlIsRunning c0 r s st) ∨ settled c (setControlIsRunning c0 r s st).
Proof.
  intros Hne. unfold awaiting, settled, timers_consistent.
  by rewrite sir_timers, sir_node, sir_next, sir_can_run, sir_flag_ne.
Qed.

Lemma runMultipleActions_keeps actions0 c0 relative dev st :
  (¬ Exists (λ a, 0 < delay_time
                    (effective_delays relative (enabled_actions actions0)) a)
       (enabled_actions actions0) ∨
   c0 ∈ (timers_running
           (runMultipleActions MAX_BUTTONS getChild actions0 c0 relative dev st)).*2) →
  running_invariant st →
  running_invariant (runMultipleActions MAX_BUTTONS getChild actions0 c0 relative dev st).
Proof.
  intros Hside. rewrite !running_invariant_cases. intros [Hcons Hinv].
  destruct (runMultipleActions_spec MAX_BUTTONS getChild actions0 c0 relative dev st)
    as (evs & ps & _ & _ & _ & _ & _ & Hcan' & Hcons' & Hrun).
  split; [by apply Hcons'|]. intros c Hcan. rewrite Hcan' in Hcan.
  specialize (Hinv c Hcan).
  destruct (decide (enabled_actions actions0 = [])) as [Hnil|Hsome].
  { by rewrite runMultipleActions_none. }
  revert Hside Hrun. rewrite runMultipleActions_some by done. cbv zeta.
  set (tbl := effective_delays relative (enabled_actions actions0)).
  set (r := run_loop MAX_BUTTONS getChild tbl c0 (make_extras c0 dev)
              (enabled_actions actions0) false st).
  intros Hside Hrun.
  destruct (run_loop_spec MAX_BUTTONS getChild tbl c0 (make_extras c0 dev)
              (enabled_actions actions0) false st)
    as (evs1 & ps1 & _ & _ & _ & _ & _ & Hcan1 & Hb & Hcons1).
  fold r in Hcan1, Hb, Hcons1. cbn [orb] in Hb.
  destruct (decide (c = c0)) as [->|Hne].
  - pose proof (run_loop_self tbl c0 (make_extras c0 dev) (enabled_actions actions0)
                  false st Hcons Hcan Hinv) as Hself.
    cbv zeta in Hself. fold r in Hself.
    destruct (r.1) eqn:E; [|done].
    symmetry in Hb. apply bool_decide_eq_true in Hb.
    destruct Hside as [Hno|Hown]; [done|].
    left. split_and!.
    + unfold timers_consistent. rewrite sir_timers, sir_node, sir_next.
      by apply Hcons1.
    + by rewrite sir_can_run, Hcan1.
    + by rewrite sir_flag, Hcan1, Hcan.
    + done.
  - pose proof (run_loop_other tbl c0 (make_extras c0 dev) (enabled_actions actions0)
                  false c st Hne Hinv) as Hother.
    fold r in Hother. destruct (r.1); [|done]. by apply sir_keeps_other.
Qed.

Lemma calm_keeps st st' : calm st st' → running_invariant st → running_invariant st'.
Proof.
  intros Hcalm. rewrite !running_invariant_cases. intros [Hcons Hinv].
  split; [by eapply calm_consistent|]. intros c Hcan.
  assert (Hcan0 : can_run st c = true).
  { destruct Hcalm as [evs _ _ _ _ Hr _ _ _ _ _ _ _ _]. by rewrite <- Hr. }
  destruct (Hinv c Hcan0) as [Ha|Hs].
  - by eapply calm_awaiting.
  - right. by eapply calm_settled.
Qed.

Lemma fire_timer_keeps t st :
  running_invariant st → running_invariant (fire_timer MAX_BUTTONS getChild t st).
Proof.
  rewrite !running_invariant_cases. intros [Hcons Hinv].
  split; [by apply fire_timer_consistent|]. intros c Hcan.
  rewrite fire_timer_can_run in Hcan.
  destruct (Hinv c Hcan) as [Ha|Hs].
  - by apply fire_timer_awaiting.
  - right. by apply fire_timer_settled.
Qed.

(** Every step keeps the invariant, and so does every sequence of steps. *)
Lemma step_keeps st st' :
  step MAX_BUTTONS getChild st st' → running_invariant st → running_invariant st'.
Proof.
  intros [actions0 c relative dev s _ Hside|t s _|c skipUp s|page skip s|s].
  - by apply runMultipleActions_keeps.
  - apply fire_timer_keeps.
  - apply calm_keeps, calm_abortControlDelayed.
  - apply calm_keeps, calm_abortPageDelayed.
  - apply calm_keeps, calm_abortAllDelayed.
Qed.

(** X6. The invariant of the running flag holds along the life of the
    scheduler, as long as the actions run are actions of connectors or
    the internal actions that abort: after any sequence of such runs, of
    expiries of such actions and of aborts of a control, of a page or of
    everything, a control that can be told has its running flag set
    exactly when it owns a pending timer.  The runs are those of [step]:
    a run that arms timers must leave the control with one of them. *)
Lemma running_invariant_reachable st st' :
  rtc (step MAX_BUTTONS getChild) st st' → running_invariant st → running_invariant st'.
Proof. induction 1 as [|s1 s2 s3 Hstep _ IH]; [done|]. intros H. by eapply IH, step_keeps. Qed.

End Invariant.

(** C4. A button whose actions are a delayed action followed by an
    immediate internal action that aborts the delayed actions of the same
    button.  Before the call the button satisfies the invariant; when
    [runMultipleActions] returns in absolute mode, the running flag of the
    button is set although no timer is pending or armed, so the invariant
    is lost. *)
Theorem C4_running_flag_without_timer :
  let st := runMultipleActions 32 failing_connector abort_self_actions
              "bank:1-1" false None one_button in
  running_invariant one_button ∧
  running_flag st "bank:1-1" = Some true ∧
  timers_running st = [] ∧
  node_timers st = [] ∧
  trace st = [ EvSetTimeout 0 100;
               EvExecuteAction (mkAction "p1" "internal" "panic_bank"
                                  (mkOptions 0 0 None None false false)
                                  (DelayNumber 0) false)
                               (mkExtras "bank:1-1" None (Some 1) (Some 1));
               EvClearTimeout 0;
               EvSetActionsRunning "bank:1-1" false false;
               EvSetActionsRunning "bank:1-1" true false ] ∧
  ¬ running_invariant st.
Proof.
  cbv zeta. split_and!.
  - split; [by apply consistent_without_timers|].
    intros c Hcan. unfold can_run, running_flag in *. cbn in *.
    destruct (decide (c = "bank:1-1")) as [->|Hne].
    + split; [done|]. intros Hin. by apply elem_of_nil in Hin.
    + by rewrite lookup_singleton_ne in Hcan.
  - vm_compute. reflexivity.
  - vm_compute. reflexivity.
  - vm_compute. reflexivity.
  - vm_compute. reflexivity.
  - intros [_ Hinv]. specialize (Hinv "bank:1-1" eq_refl).
    assert (Hin : "bank:1-1" ∈
      (timers_running (runMultipleActions 32 failing_connector abort_self_actions
                         "bank:1-1" false None one_button)).*2)
      by (apply Hinv; vm_compute; reflexivity).
    vm_compute in Hin. by apply elem_of_nil in Hin.
Qed.

(** ** Further properties of the scheduler *)

Section Scheduler.

Variable MAX_BUTTONS : nat.
Variable getChild : string → option Connection.

Implicit Types (st : State) (c : string).

Lemma map_get_None {V : Type} t (m : list (nat * V)) : t ∉ m.*1 → map_get t m = None.
Proof.
  intros Hout. unfold map_get.
  destruct (list_find (λ e, e.1 = t) m) as [[i [t' v]]|] eqn:E; [|done].
  apply list_find_Some in E as (Hi & Ht & _). cbn in Ht. subst t'.
  destruct Hout. apply (list_elem_of_fmap_2' fst _ (t, v)); [|done].
  by eapply list_elem_of_lookup_2.
Qed.

(** X1. In absolute mode, when the enabled actions have distinct ids, the
    effective delay of each of them is its own coerced delay, whatever the
    other actions are and wherever it stands in the list. *)
Theorem absolute_delay_is_own actions0 a :
  NoDup (id <$> enabled_actions actions0) →
  a ∈ enabled_actions actions0 →
  delay_time (effective_delays false (enabled_actions actions0)) a = this_delay a.
Proof.
  intros Hnd Hin. apply list_elem_of_lookup in Hin as [i Hi].
  apply (delay_time_last_occurrence false _ i a).
  - done.
  - intros k b Hk Hb Hid.
    assert (i = k); [|lia].
    eapply (NoDup_lookup (id <$> enabled_actions actions0)); [done| |].
    + by rewrite list_lookup_fmap, Hi.
    + rewrite list_lookup_fmap, Hb. cbn. by rewrite Hid.
  - rewrite delay_writes_absolute, list_lookup_fmap, Hi. done.
Qed.

Lemma runAction_external a c x st :
  instance a ≠ "internal" →
  controls (runAction MAX_BUTTONS getChild a c x st) = controls st ∧
  timers_running (runAction MAX_BUTTONS getChild a c x st) = timers_running st ∧
  node_timers (runAction MAX_BUTTONS getChild a c x st) = node_timers st ∧
  next_timer (runAction MAX_BUTTONS getChild a c x st) = next_timer st.
Proof.
  intros Hext. unfold runAction. rewrite decide_False by done.
  by destruct (getChild (instance a)).
Qed.

Lemma run_loop_external tbl c x actions has_delayed st :
  timers_consistent st →
  Forall (λ a, instance a ≠ "internal") actions →
  let r := run_loop MAX_BUTTONS getChild tbl c x actions has_delayed st in
  let delayed := filter (λ a, 0 < delay_time tbl a) actions in
  controls r.2 = controls st ∧
  timers_running r.2 =
    timers_running st ++ imap (λ i _, ((next_timer st + i)%nat, c)) delayed ∧
  node_timers r.2 =
    node_timers st ++
      imap (λ i a, ((next_timer st + i)%nat, mkJob a c x (delay_time tbl a))) delayed ∧
  next_timer r.2 = (next_timer st + length delayed)%nat.
Proof.
  revert has_delayed st.
  induction actions as [|a actions IH]; intros has_delayed st Hcons Hext; cbv zeta.
  - cbn. rewrite !app_nil_r. split_and!; [done|done|done|lia].
  - apply Forall_cons in Hext as [Ha Hext]. cbn [run_loop]. cbv zeta. case_decide as Hd.
    + cbn [setTimeout]. rewrite filter_cons_True by done.
      pose proof (consistent_scheduled (mkJob a c x (delay_time tbl a)) st Hcons) as Hcons1.
      cbn [setTimeout snd job_controlId] in Hcons1.
      match goal with |- context [run_loop _ _ _ _ _ _ true ?s] => set (st1 := s) in * end.
      assert (Hfresh : next_timer st ∉ (timers_running st).*1).
      { destruct Hcons as (_ & _ & Harmed & Hlt). intros Hin.
        apply list_elem_of_fmap in Hin as ([t c'] & Heq & Hin). cbn in Heq. subst t.
        destruct (Harmed _ _ Hin) as (job' & Hjob & _). apply Hlt in Hjob. lia. }
      assert (Hst1 : controls st1 = controls st ∧
                timers_running st1 = timers_running st ++ [(next_timer st, c)] ∧
                node_timers st1 =
                  node_timers st ++ [(next_timer st, mkJob a c x (delay_time tbl a))] ∧
                next_timer st1 = S (next_timer st)).
      { subst st1. cbn. by rewrite map_set_fresh. }
      destruct Hst1 as (E1 & E2 & E3 & E4).
      destruct (IH true st1 Hcons1 Hext) as (H1 & H2 & H3 & H4).
      rewrite E1 in H1. rewrite E2, E4 in H2. rewrite E3, E4 in H3. rewrite E4 in H4.
      split_and!.
      * done.
      * rewrite H2. cbn [imap]. rewrite <- app_assoc. cbn [app]. do 2 f_equal.
        { f_equal. lia. }
        apply imap_ext. intros i b _. cbn. f_equal. lia.
      * rewrite H3. cbn [imap]. rewrite <- app_assoc. cbn [app]. do 2 f_equal.
        { f_equal. lia. }
        apply imap_ext. intros i b _. cbn. f_equal. lia.
      * rewrite H4. cbn [length]. lia.
    + rewrite filter_cons_False by done.
      destruct (runAction_external a c x st Ha) as (E1 & E2 & E3 & E4).
      assert (Hcons1 : timers_consistent (runAction MAX_BUTTONS getChild a c x st)).
      { unfold timers_consistent. by rewrite E2, E3, E4. }
      destruct (IH has_delayed _ Hcons1 Hext) as (H1 & H2 & H3 & H4).
      by rewrite H1, H2, H3, H4, E1, E2, E3, E4.
Qed.

(** X2. A run whose enabled actions all go to connectors cancels nothing:
    the pending set and the armed timers are those of before, followed by
    one timer per delayed action, in input order, with fresh consecutive
    handles, owned by the control and armed with the action's effective
    delay. *)
Theorem run_keeps_pending_timers actions0 c relative dev st :
  timers_consistent st →
  Forall (λ a, instance a ≠ "internal") (enabled_actions actions0) →
  let tbl := effective_delays relative (enabled_actions actions0) in
  let st' := runMultipleActions MAX_BUTTONS getChild actions0 c relative dev st in
  timers_running st' =
    timers_running st ++
      imap (λ i _, ((next_timer st + i)%nat, c)) (delayed_actions relative actions0) ∧
  node_timers st' =
    node_timers st ++
      imap (λ i a, ((next_timer st + i)%nat,
                    mkJob a c (make_extras c dev) (delay_time tbl a)))
        (delayed_actions relative actions0).
Proof.
  intros Hcons Hext tbl st'. subst st'. unfold delayed_actions. fold tbl.
  destruct (decide (enabled_actions actions0 = [])) as [Hnil|Hsome].
  - rewrite runMultipleActions_none by done. rewrite Hnil. cbn.
    by rewrite !app_nil_r.
  - rewrite runMultipleActions_some by done. cbv zeta. fold tbl.
    destruct (run_loop_external tbl c (make_extras c dev) (enabled_actions actions0)
                false st Hcons Hext) as (_ & H2 & H3 & _).
    destruct (run_loop _ _ _ _ _ _ _ _).1; by rewrite ?sir_timers, ?sir_node.
Qed.

Lemma runMultipleActions_consistent actions0 c relative dev st :
  timers_consistent st →
  timers_consistent (runMultipleActions MAX_BUTTONS getChild actions0 c relative dev st).
Proof.
  destruct (runMultipleActions_spec MAX_BUTTONS getChild actions0 c relative dev st)
    as (evs & ps & _ & _ & _ & _ & _ & _ & Hcons & _).
  exact Hcons.
Qed.

(** X4. An aborted action is never dispatched: once the delayed actions of
    a control, or all delayed actions, are aborted, a timer that was
    pending for them is no longer armed and its expiry does nothing.  The
    timers of the other controls stay armed with the same job. *)
Theorem aborted_timers_do_not_fire t c skipUp st :
  timers_consistent st →
  (t, c) ∈ timers_running st →
  fire_timer MAX_BUTTONS getChild t (abortControlDelayed c skipUp st)
    = abortControlDelayed c skipUp st ∧
  fire_timer MAX_BUTTONS getChild t (abortAllDelayed st) = abortAllDelayed st ∧
  ∀ t' c', (t', c') ∈ timers_running st → c' ≠ c →
    map_get t' (node_timers (abortControlDelayed c skipUp st))
      = map_get t' (node_timers st) ∧
    is_Some (map_get t' (node_timers st)).
Proof.
  intros (Hnd1 & Hnd2 & Harmed & _) Hin. split_and!.
  - apply fire_timer_unarmed, map_get_None. rewrite acd_node.
    intros Hk. apply list_elem_of_fmap in Hk as ([t0 job] & Heq & Hk). cbn in Heq.
    subst t0. apply list_elem_of_filter in Hk as [Hout _]. cbn in Hout.
    apply Hout. by apply elem_of_timers_of.
  - apply fire_timer_unarmed, map_get_None. rewrite aad_node.
    intros Hk. apply list_elem_of_fmap in Hk as ([t0 job] & Heq & Hk). cbn in Heq.
    subst t0. apply list_elem_of_filter in Hk as [Hout _]. cbn in Hout.
    apply Hout. by apply (list_elem_of_fmap_2' fst _ (t, c)).
  - intros t' c' Hin' Hne.
    destruct (Harmed _ _ Hin') as (job & Hjob & _).
    rewrite (map_get_elem_of _ _ _ Hnd2 Hjob). split; [|by eexists].
    apply map_get_elem_of.
    + eapply sublist_keys_NoDup; [|exact Hnd2]. rewrite acd_node. apply sublist_filter.
    + rewrite acd_node. apply list_elem_of_filter. split; [|done]. cbn.
      rewrite elem_of_timers_of. intros Hc. apply Hne.
      by eapply NoDup_keys_agree.
Qed.

(** X5. A timer fires at most once: after its expiry it is no longer
    armed, and a second expiry changes nothing. *)
Theorem timer_fires_once t st :
  fire_timer MAX_BUTTONS getChild t (fire_timer MAX_BUTTONS getChild t st)
    = fire_timer MAX_BUTTONS getChild t st.
Proof.
  destruct (map_get t (node_timers st)) as [job|] eqn:Hget.
  - destruct (fire_timer_dispatch MAX_BUTTONS getChild t job st Hget)
      as (e & evs & _ & _ & _ & _ & Hnode & _).
    by apply fire_timer_unarmed, map_get_None.
  - rewrite (fire_timer_unarmed MAX_BUTTONS getChild t st Hget).
    by apply fire_timer_unarmed.
Qed.

Lemma abortAllDelayed_idle st : timers_running st = [] → abortAllDelayed st = st.
Proof.
  intros Hnil. unfold abortAllDelayed. rewrite Hnil. cbn.
  destruct st. cbn in *. by subst.
Qed.

(** X7. A second abort cancels nothing.  [abortAllDelayed] leaves a state
    without pending timers exactly as it is, so it is idempotent; a second
    [abortControlDelayed] only tells the control once more that its
    actions stopped. *)
Theorem second_abort_cancels_nothing c skipUp st :
  abortAllDelayed (abortAllDelayed st) = abortAllDelayed st ∧
  let st1 := abortControlDelayed c skipUp st in
  abortControlDelayed c skipUp st1 =
    mkState (controls st1) (timers_running st1) (node_timers st1) (next_timer st1)
      (promises st1)
      (trace st1 ++ (if can_run st c then [EvSetActionsRunning c false skipUp] else [])).
Proof.
  split; [apply abortAllDelayed_idle, aad_timers|]. cbv zeta.
  set (st1 := abortControlDelayed c skipUp st).
  assert (Hnone : timers_of c (timers_running st1) = []).
  { apply timers_of_none. apply acd_not_owner. }
  assert (Hcan1 : can_run st1 c = can_run st c).
  { destruct (calm_abortControlDelayed c skipUp st)
      as [evs _ _ _ _ Hr _ _ _ _ _ _ _ _]. apply Hr. }
  unfold abortControlDelayed at 1. rewrite abort_control_loop_spec, Hnone. cbn.
  rewrite !filter_all by (intros e; apply not_elem_of_nil). rewrite app_nil_r.
  assert (Hst1 : mkState (controls st1) (timers_running st1) (node_timers st1)
                   (next_timer st1) (promises st1) (trace st1) = st1) by by destruct st1.
  rewrite Hst1.
  assert (Hfl : can_run st c = true → running_flag st1 c = Some false).
  { intros Hc. unfold st1. by rewrite acd_flag, Hc. }
  rewrite <- Hcan1 in Hfl |- *.
  destruct (can_run st1 c) eqn:Hcan.
  - specialize (Hfl eq_refl). unfold setControlIsRunning.
    unfold can_run in Hcan. unfold running_flag in Hfl.
    destruct (controls st1 !! c) as [control|] eqn:E; [|done].
    rewrite Hcan. f_equal. apply insert_id. rewrite E. f_equal.
    destruct control. cbn in *. by simplify_eq.
  - rewrite sir_off by done. by rewrite app_nil_r.
Qed.

End Scheduler.

Section PanicPage.

Variable MAX_BUTTONS : nat.

Implicit Types (st : State) (c : string).

Lemma abort_page_fold page skip banks st :
  NoDup (timers_running st).*1 →
  let targets :=
    filter (λ controlId, controlId ∉ default [] skip)
      ((λ bank, CreateBankControlId page (Some (Z.of_nat bank))) <$> banks) in
  let st' :=
    foldl (λ s bank,
             let controlId := CreateBankControlId page (Some (Z.of_nat bank)) in
             match skip with
             | Some skip =>
                 if decide (controlId ∈ skip) then s
                 else abortControlDelayed controlId false s
             | None => abortControlDelayed controlId false s
             end) st banks in
  timers_running st' = filter (λ e, e.2 ∉ targets) (timers_running st) ∧
  (∀ c, c ∉ targets → controls st' !! c = controls st !! c) ∧
  (∀ c, c ∈ targets → can_run st c = true → running_flag st' c = Some false).
Proof.
  revert st. induction banks as [|bank banks IH]; intros st Hnd; cbv zeta.
  - cbn. split_and!.
    + by rewrite filter_all by (intros e; apply not_elem_of_nil).
    + done.
    + intros c Hin. by apply elem_of_nil in Hin.
  - cbn [foldl fmap list_fmap]. rewrite filter_cons.
    set (cid := CreateBankControlId page (Some (Z.of_nat bank))).
    assert (Hskipped : cid ∈ default [] skip →
      match skip with
      | Some skip0 => if decide (cid ∈ skip0) then st else abortControlDelayed cid false st
      | None => abortControlDelayed cid false st
      end = st).
    { destruct skip as [skip0|]; cbn; [|by intros ?%elem_of_nil].
      intros Hin. by rewrite decide_True. }
    assert (Haborted : cid ∉ default [] skip →
      match skip with
      | Some skip0 => if decide (cid ∈ skip0) then st else abortControlDelayed cid false st
      | None => abortControlDelayed cid false st
      end = abortControlDelayed cid false st).
    { destruct skip as [skip0|]; cbn; [|done].
      intros Hout. by rewrite decide_False. }
    destruct (decide (cid ∉ default [] skip)) as [Hout|Hin].
    + rewrite Haborted by done.
      assert (Hnd1 : NoDup (timers_running (abortControlDelayed cid false st)).*1).
      { eapply sublist_keys_NoDup; [|exact Hnd]. rewrite acd_timers. apply sublist_filter. }
      destruct (IH _ Hnd1) as (H1 & H2 & H3). cbv zeta in H1, H2, H3.
      split_and!.
      * rewrite H1, acd_timers, filter_keys_owner by done.
        rewrite list_filter_filter. apply list_filter_iff. intros e.
        rewrite not_elem_of_cons. tauto.
      * intros c [Hne Hc]%not_elem_of_cons. rewrite H2 by done.
        by apply acd_controls_ne.
      * intros c Hc Hcan.
        destruct (decide (c ∈ filter (λ controlId, controlId ∉ default [] skip)
                     ((λ bank, CreateBankControlId page (Some (Z.of_nat bank))) <$> banks)))
          as [Hin'|Hout'].
        -- apply H3; [done|].
           destruct (calm_abortControlDelayed cid false st)
             as [evs _ _ _ _ Hr _ _ _ _ _ _ _ _]. by rewrite Hr.
        -- apply elem_of_cons in Hc as [->|Hc]; [|done].
           assert (Hfl : running_flag (abortControlDelayed cid false st) cid = Some false)
             by (by rewrite acd_flag, Hcan).
           unfold running_flag in *. by rewrite H2.
    + apply dec_stable in Hin. rewrite Hskipped by done. by apply IH.
Qed.

(** X3. [abortPageDelayed] removes from the pending set exactly the
    entries owned by the controls of the buttons 1 to [MAX_BUTTONS] of the
    page that are not to be skipped; those controls, when they can be
    told, end with their running flag clear, and every other control, a
    skipped one included, is as it was. *)
Theorem abort_page_frame page skip st :
  NoDup (timers_running st).*1 →
  let targets := page_targets MAX_BUTTONS page skip in
  let st' := abortPageDelayed MAX_BUTTONS page skip st in
  timers_running st' = filter (λ e, e.2 ∉ targets) (timers_running st) ∧
  (∀ c, c ∉ targets → controls st' !! c = controls st !! c) ∧
  (∀ c, c ∈ targets → can_run st c = true → running_flag st' c = Some false).
Proof. intros Hnd. apply (abort_page_fold page skip (seq 1 MAX_BUTTONS) st Hnd). Qed.

Lemma pretty_N_go_defined (x : N) (s : string) :
  s ≠ "undefined" → pretty_N_go x s ≠ "undefined".
Proof.
  revert s. induction (N.lt_wf_0 x) as [x _ IH]; intros s Hs.
  destruct (decide (x = 0%N)) as [->|Hx]; [by rewrite pretty_N_go_0|].
  rewrite pretty_N_go_step by lia. apply IH; [apply N.div_lt; lia|].
  unfold pretty_N_char. by repeat case_match.
Qed.

Lemma pretty_Z_defined (z : Z) : pretty z ≠ "undefined".
Proof.
  destruct z as [|p|p]; [done| |done].
  change (pretty (Z.pos p)) with (pretty (N.pos p)). unfold pretty, pretty_N.
  rewrite decide_False by done. by apply pretty_N_go_defined.
Qed.

(** No button has the id that is made of an undefined button number. *)
Lemma bank_id_defined page (bank : Z) :
  CreateBankControlId page (Some bank) ≠ CreateBankControlId page None.
Proof.
  unfold CreateBankControlId. intros H.
  apply (inj (String.append "bank:")) in H.
  apply (inj (String.append (show_number page))) in H.
  apply (inj (String.append "-")) in H. by apply pretty_Z_defined in H.
Qed.

Lemma abort_page_skip_undefined page banks st :
  foldl (λ s bank,
           let controlId := CreateBankControlId page (Some (Z.of_nat bank)) in
           if decide (controlId ∈ [CreateBankControlId page None]) then s
           else abortControlDelayed controlId false s) st banks
  = foldl (λ s bank,
             abortControlDelayed (CreateBankControlId page (Some (Z.of_nat bank))) false s)
      st banks.
Proof.
  revert st. induction banks as [|bank banks IH]; intros st; [done|].
  cbn [foldl]. rewrite decide_False; [apply IH|].
  intros Hin%list_elem_of_singleton. by apply bank_id_defined in Hin.
Qed.

(** X8. The internal action [panic_page] as its definition makes it, with
    a page and no button among its options, addresses the control id
    made of the page and of an undefined button number, which is the id of
    no button.  So "Skip this button?" skips nothing: with the option set
    or not, the action does what [abortPageDelayed] does without a skip
    list, and no button of the page, the one the action is on included,
    owns a pending timer afterwards. *)
Theorem panic_page_skips_nothing a x st :
  action a = "panic_page" →
  opt_bank (options a) = None → opt_bank_from_variable (options a) = None →
  let thePage := (fetchPageAndButton (options a) x true).1.1 in
  (fetchPageAndButton (options a) x true).2 = CreateBankControlId thePage None ∧
  (executeAction MAX_BUTTONS a x st).2 = abortPageDelayed MAX_BUTTONS thePage None st ∧
  (NoDup (timers_running st).*1 →
   ∀ bank, (1 ≤ bank ≤ MAX_BUTTONS)%nat →
     CreateBankControlId thePage (Some (Z.of_nat bank))
       ∉ (timers_running (executeAction MAX_BUTTONS a x st).2).*2).
Proof.
  intros Hact Hbank Hvar thePage.
  assert (Hself : (fetchPageAndButton (options a) x true).2
                  = CreateBankControlId thePage None).
  { subst thePage. unfold fetchPageAndButton. rewrite Hbank, Hvar. cbn [fst snd].
    by destruct (decide (@None Z = Some 0)). }
  assert (Hrun : (executeAction MAX_BUTTONS a x st).2
                 = abortPageDelayed MAX_BUTTONS thePage None st).
  { unfold executeAction. subst thePage.
    destruct (fetchPageAndButton (options a) x true) as [[page button] self].
    cbn [fst snd] in *. subst self. rewrite Hact.
    repeat (rewrite decide_False by done). rewrite decide_True by done. cbn [snd].
    destruct (opt_ignoreSelf (options a)); [|done].
    unfold abortPageDelayed. apply abort_page_skip_undefined. }
  split; [done|]. split; [done|].
  intros Hnd bank Hbank'. rewrite Hrun.
  assert (Htimers :
    timers_running (abortPageDelayed MAX_BUTTONS thePage None st)
      = filter (λ e, e.2 ∉ page_targets MAX_BUTTONS thePage None) (timers_running st))
    by exact (proj1 (abort_page_fold thePage None (seq 1 MAX_BUTTONS) st Hnd)).
  rewrite Htimers. intros Hin.
  apply list_elem_of_fmap in Hin as ([t c'] & Heq & Hin).
  apply list_elem_of_filter in Hin as [Hout _]. cbn in Heq, Hout. subst c'.
  apply Hout. unfold page_targets. apply list_elem_of_filter. split; [cbn; apply not_elem_of_nil|].
  apply list_elem_of_fmap. exists bank. split; [done|]. apply elem_of_seq. lia.
Qed.

End PanicPage.

Lemma absolute_delay_is_own_witness :
  delay_time (effective_delays false (enabled_actions mixed_actions))
    (plain_action "m2" "conn" (DelayNumber 100) false) = 100.
Proof.
  apply (absolute_delay_is_own mixed_actions
           (plain_action "m2" "conn" (DelayNumber 100) false)).
  - apply (bool_decide_unpack _). vm_compute. exact I.
  - apply (bool_decide_unpack _). vm_compute. exact I.
Defined.

Lemma run_keeps_pending_timers_witness :
  timers_running
    (runMultipleActions 32 failing_connector sample_actions "bank:1-1" false None
       sample_run)
  = timers_running sample_run ++
      imap (λ i _, ((next_timer sample_run + i)%nat, "bank:1-1"))
        (delayed_actions false sample_actions).
Proof.
  refine (proj1 (run_keeps_pending_timers 32 failing_connector sample_actions
                   "bank:1-1" false None sample_run _ _)).
  - apply runMultipleActions_consistent. by apply consistent_without_timers.
  - apply (bool_decide_unpack _). vm_compute. exact I.
Defined.

Lemma abort_page_frame_witness :
  timers_running (abortPageDelayed 32 (Some 1) (Some ["bank:1-2"]) two_buttons_run)
  = filter (λ e, e.2 ∉ page_targets 32 (Some 1) (Some ["bank:1-2"]))
      (timers_running two_buttons_run).
Proof.
  refine (proj1 (abort_page_frame 32 (Some 1) (Some ["bank:1-2"]) two_buttons_run _)).
  apply (bool_decide_unpack _). vm_compute. exact I.
Defined.

Lemma aborted_timers_do_not_fire_witness :
  fire_timer 32 failing_connector 1 (abortControlDelayed "bank:1-1" false two_buttons_run)
  = abortControlDelayed "bank:1-1" false two_buttons_run.
Proof.
  refine (proj1 (aborted_timers_do_not_fire 32 failing_connector 1 "bank:1-1" false
                   two_buttons_run _ _)).
  - unfold two_buttons_run.
    do 2 apply runMultipleActions_consistent. by apply consistent_without_timers.
  - apply (bool_decide_unpack _). vm_compute. exact I.
Defined.

Lemma panic_page_skips_nothing_witness :
  (executeAction 32 panic_page_action
     (mkExtras "bank:1-2" None (Some 1) (Some 2)) two_buttons_run).2
  = abortPageDelayed 32 (Some 1) None two_buttons_run ∧
  "bank:1-2" ∉ (timers_running
                  (executeAction 32 panic_page_action
                     (mkExtras "bank:1-2" None (Some 1) (Some 2)) two_buttons_run).2).*2.
Proof.
  destruct (panic_page_skips_nothing 32 panic_page_action
              (mkExtras "bank:1-2" None (Some 1) (Some 2)) two_buttons_run)
    as (_ & Hrun & Hnone); [reflexivity..|].
  split; [exact Hrun|].
  assert (Hnd : NoDup (timers_running two_buttons_run).*1)
    by (apply (bool_decide_unpack _); vm_compute; exact I).
  apply (Hnone Hnd 2%nat). lia.
Defined.

Lemma running_invariant_reachable_witness :
  running_invariant (abortAllDelayed (fire_timer 32 failing_connector 0 sample_run)).
Proof.
  apply (running_invariant_reachable 32 failing_connector one_button).
  - eapply rtc_l.
    { apply (step_run 32 failing_connector sample_actions "bank:1-1" true None one_button).
      - apply (bool_decide_unpack _). vm_compute. exact I.
      - right. apply (bool_decide_unpack _). vm_compute. exact I. }
    eapply rtc_l.
    { apply (step_fire 32 failing_connector 0%nat).
      intros job Hjob. vm_compute in Hjob.
      injection Hjob as <-. left. discriminate. }
    eapply rtc_l; [apply step_abort_all|]. apply rtc_refl.
  - split; [by apply consistent_without_timers|].
    intros c Hcan. unfold can_run, running_flag in *. cbn in *.
    destruct (decide (c = "bank:1-1")) as [->|Hne].
    + split; [done|]. intros Hin. by apply elem_of_nil in Hin.
    + by rewrite lookup_singleton_ne in Hcan.
Defined.

(** ** The store of connections *)

Section StoreLabels.

Lemma append_empty_r (s : string) : s +:+ "" = s.
Proof.
  induction s as [|a s IH]; [done|].
  change (String a s +:+ "") with (String a (s +:+ "")). by rewrite IH.
Qed.

Lemma nth_label_inj (prefix : string) (j k : nat) :
  nth_label prefix j = nth_label prefix k → j = k.
Proof.
  unfold nth_label. intros H.
  destruct (decide (j = 1%nat)) as [->|Hj], (decide (k = 1%nat)) as [->|Hk]; [done|..].
  - rewrite <- (append_empty_r prefix) in H at 1.
    apply (inj (String.append prefix)) in H. discriminate.
  - symmetry in H. rewrite <- (append_empty_r prefix) in H at 1.
    apply (inj (String.append prefix)) in H. discriminate.
  - apply (inj (String.append prefix)) in H.
    apply (inj (String.append "_")) in H. by apply (inj pretty) in H.
Qed.

Lemma nth_labels_bounded (prefix : string) (known : list string) (n : nat) :
  (∀ j, (1 ≤ j ≤ n)%nat → nth_label prefix j ∈ known) → (n ≤ length known)%nat.
Proof.
  intros Hin.
  assert (Hnd : NoDup (nth_label prefix <$> seq 1 n)).
  { apply NoDup_fmap_2; [|apply NoDup_seq]. intros j k. apply nth_label_inj. }
  assert (Hsub : nth_label prefix <$> seq 1 n ⊆+ known).
  { apply NoDup_submseteq; [done|]. intros x (j & -> & Hj%elem_of_seq)%list_elem_of_fmap.
    apply Hin. lia. }
  apply submseteq_length in Hsub. by rewrite length_fmap, length_seq in Hsub.
Qed.

Lemma label_loop_spec (known : list string) (prefix : string) :
  ∀ fuel i,
    (1 ≤ i)%nat →
    (∀ j, (1 ≤ j < i)%nat → nth_label prefix j ∈ known) →
    (length known + 2 ≤ fuel + i)%nat →
    ∃ k, (i ≤ k)%nat ∧
      label_loop fuel known prefix (nth_label prefix i) i = Some (nth_label prefix k) ∧
      (nth_label prefix k ∉ known) ∧
      ∀ j, (1 ≤ j < k)%nat → nth_label prefix j ∈ known.
Proof.
  induction fuel as [|fuel IH]; intros i Hi Hbelow Hfuel.
  - pose proof (nth_labels_bounded prefix known (i - 1)) as Hb.
    assert (i - 1 ≤ length known)%nat; [|lia].
    apply Hb. intros j Hj. apply Hbelow. lia.
  - cbn. destruct (decide (nth_label prefix i ∈ known)) as [Hin|Hout].
    + destruct (IH (S i)) as (k & Hk & Hrun & Hfresh & Hall); [lia| |lia|].
      * intros j Hj. destruct (decide (j = i)) as [->|]; [done|]. apply Hbelow. lia.
      * exists k. split; [lia|]. split; [|done].
        rewrite <- Hrun. unfold nth_label.
        destruct (decide (S i = 1%nat)); [lia|done].
    + exists i. done.
Qed.

Lemma knownLabels_spec (ignoreId : option string)
    (db : list (string * option InstanceStoreConfig)) (l : string) :
  l ∈ knownLabels ignoreId db ↔
  ∃ i c, (i, Some c) ∈ db ∧ Some i ≠ ignoreId ∧ label c = l ∧ l ≠ "".
Proof.
  unfold knownLabels. rewrite list_elem_of_omap. split.
  - intros ([i [c|]] & Hin & H); cbn in H; [|done].
    destruct (decide _) as [[? ?]|]; [|done]. injection H as <-. by exists i, c.
  - intros (i & c & Hin & Hi & <- & Hne). exists (i, Some c). split; [done|]. cbn.
    by rewrite decide_True.
Qed.

Lemma getIdForLabel_Some (db : list (string * option InstanceStoreConfig))
    (l i : string) :
  getIdForLabel l db = Some i → ∃ c, (i, Some c) ∈ db ∧ label c = l.
Proof.
  induction db as [|[k [c|]] db IH]; cbn; [done|..].
  - destruct (decide (label c = l)) as [<-|].
    + intros [= ->]. exists c. split; [left|done].
    + intros (c' & ? & ?)%IH. exists c'. split; [by right|done].
  - intros (c' & ? & ?)%IH. exists c'. split; [by right|done].
Qed.

Variable makeLabelSafe : string → string.

(** X9. [makeLabelUnique] always returns, and what it returns is the first
    of the labels prefix, prefix_2, prefix_3, ... (the prefix made safe)
    that no entry other than [ignoreId] carries: every earlier one is
    taken. *)
Theorem makeLabelUnique_first_free (prefix : string) (ignoreId : option string)
    (db : list (string * option InstanceStoreConfig)) :
  ∃ k, (1 ≤ k)%nat ∧
    makeLabelUnique makeLabelSafe prefix ignoreId db
      = Some (nth_label (makeLabelSafe prefix) k) ∧
    (nth_label (makeLabelSafe prefix) k ∉ knownLabels ignoreId db) ∧
    ∀ j, (1 ≤ j < k)%nat → nth_label (makeLabelSafe prefix) j ∈ knownLabels ignoreId db.
Proof.
  unfold makeLabelUnique.
  destruct (label_loop_spec (knownLabels ignoreId db) (makeLabelSafe prefix)
              (S (length (knownLabels ignoreId db))) 1) as (k & Hk & Hrun & Hfresh & Hall);
    [lia|intros j Hj; lia|lia|].
  exists k. split; [done|]. split; [|done]. exact Hrun.
Qed.

(** X10. A label that [makeLabelUnique] returns and that is not empty
    belongs to no other connection: [getIdForLabel], by which
    [instances:set-config] looks for a clash, finds nothing but
    [ignoreId]. *)
Theorem unique_label_has_no_other_owner (prefix : string) (ignoreId : option string)
    (db : list (string * option InstanceStoreConfig)) (l : string) :
  makeLabelUnique makeLabelSafe prefix ignoreId db = Some l →
  l ≠ "" →
  ∀ i, getIdForLabel l db = Some i → ignoreId = Some i.
Proof.
  unfold makeLabelUnique. intros Hrun Hne i Hid.
  destruct (label_loop_spec (knownLabels ignoreId db) (makeLabelSafe prefix)
              (S (length (knownLabels ignoreId db))) 1) as (k & _ & Hk & Hfresh & _);
    [lia|intros j Hj; lia|lia|].
  change (nth_label (makeLabelSafe prefix) 1) with (makeLabelSafe prefix) in Hk.
  rewrite Hrun in Hk. injection Hk as ->.
  destruct (getIdForLabel_Some _ _ _ Hid) as (c & Hin & Hl).
  destruct (decide (Some i = ignoreId)) as [|Hother]; [done|].
  destruct Hfresh. apply knownLabels_spec. by exists i, c.
Qed.

End StoreLabels.

Section StoreLookups.

Lemma obj_get_elem_of {V : Type} (o : list (string * V)) k v :
  NoDup o.*1 → (k, v) ∈ o → obj_get k o = Some v.
Proof.
  induction o as [|[k' v'] o IH]; cbn; intros Hnd Hin.
  - by apply elem_of_nil in Hin.
  - apply NoDup_cons in Hnd as [Hk Hnd].
    apply elem_of_cons in Hin as [Heq|Hin].
    + injection Heq as -> ->. by rewrite decide_True.
    + rewrite decide_False; [by apply IH|].
      intros ->. destruct Hk. by apply (list_elem_of_fmap_2' fst _ (k, v)).
Qed.

Lemma obj_get_Some {V : Type} (o : list (string * V)) k v :
  obj_get k o = Some v → (k, v) ∈ o.
Proof.
  induction o as [|[k' v'] o IH]; cbn; [done|].
  destruct (decide (k' = k)) as [->|Hne].
  - intros [= ->]. by left.
  - intros H. right. by apply IH.
Qed.

Lemma getInstanceConfig_entry (db : list (string * option InstanceStoreConfig)) e :
  NoDup db.*1 → e ∈ db → getInstanceConfig e.1 db = e.2.
Proof.
  intros Hnd Hin. unfold getInstanceConfig. destruct e as [k v]. cbn [fst snd].
  by rewrite (obj_get_elem_of db k v).
Qed.

Lemma getInstanceConfig_Some (db : list (string * option InstanceStoreConfig)) i c :
  getInstanceConfig i db = Some c → (i, Some c) ∈ db.
Proof.
  unfold getInstanceConfig. destruct (obj_get i db) as [v|] eqn:E; [|done].
  cbn. intros ->. by apply obj_get_Some.
Qed.

Lemma getIdForLabel_first (db : list (string * option InstanceStoreConfig)) l i c :
  (i, Some c) ∈ db → label c = l →
  (∀ j c', (j, Some c') ∈ db → label c' = l → j = i) →
  getIdForLabel l db = Some i.
Proof.
  induction db as [|[k [c0|]] db IH]; cbn; intros Hin Hl Huniq.
  - by apply elem_of_nil in Hin.
  - destruct (decide (label c0 = l)) as [Hc0|Hc0].
    + f_equal. apply (Huniq k c0); [left|done].
    + apply IH; [|done|].
      * apply elem_of_cons in Hin as [Heq|Hin]; [|done]. by injection Heq as -> ->.
      * intros j c' Hj. apply Huniq. by right.
  - apply IH; [|done|].
    + by apply elem_of_cons in Hin as [Heq|Hin].
    + intros j c' Hj. apply Huniq. by right.
Qed.

(** X11. With distinct keys, as an object has them, the two lookups of the
    store agree: the id found for a label carries that label, and an id is
    found from its label as soon as no other entry carries the same. *)
Theorem label_lookup_round_trip (db : list (string * option InstanceStoreConfig)) :
  NoDup (getAllInstanceIds db) →
  (∀ l i, getIdForLabel l db = Some i → getLabelForInstance i db = Some l) ∧
  (∀ i l, getLabelForInstance i db = Some l →
     (∀ j c, (j, Some c) ∈ db → label c = l → j = i) →
     getIdForLabel l db = Some i).
Proof.
  intros Hnd. split.
  - intros l i (c & Hin & Hl)%getIdForLabel_Some. unfold getLabelForInstance.
    pose proof (getInstanceConfig_entry db (i, Some c) Hnd Hin) as Hget.
    cbn [fst snd] in Hget. rewrite Hget. cbn. by rewrite Hl.
  - intros i l. unfold getLabelForInstance.
    destruct (getInstanceConfig i db) as [c|] eqn:E; [|done]. cbn. intros [= Hl].
    apply getInstanceConfig_Some in E. by apply (getIdForLabel_first db l i c).
Qed.

Lemma metrics_fold (db : list (string * option InstanceStoreConfig)) (t : string) :
  ∀ l, (∀ e, e ∈ l → getInstanceConfig e.1 db = e.2) →
    foldl (count_instance db) ∅ l.*1 !! t =
      if decide (length (filter (λ e, counted t e = true) l) = 0%nat) then None
      else Some (length (filter (λ e, counted t e = true) l)).
Proof.
  induction l as [|e l IH] using rev_ind; intros Hpre; [done|].
  rewrite fmap_app. change ([e].*1) with [e.1].
  rewrite foldl_snoc, filter_app, length_app.
  unfold count_instance at 1.
  rewrite (Hpre e) by (apply elem_of_app; right; by left).
  specialize (IH (λ e' He', Hpre e' (proj2 (elem_of_app _ _ _) (or_introl He')))).
  set (acc := foldl _ ∅ l.*1) in *.
  set (n := length (filter (λ e0, counted t e0 = true) l)) in *.
  destruct e as [k [c|]]; cbn [snd fst].
  - destruct (enabled c) eqn:Hen.
    + destruct (decide (instance_type c = t)) as [Ht|Ht].
      * rewrite filter_cons_True
          by (unfold counted; cbn; by rewrite Hen, bool_decide_eq_true_2).
        cbn [length filter list_filter]. rewrite Ht, IH.
        destruct (decide (n = 0%nat)) as [->|Hn].
        -- rewrite lookup_insert_eq. by rewrite decide_False by lia.
        -- rewrite decide_False by done. rewrite lookup_insert_eq.
           rewrite decide_False by lia. f_equal. lia.
      * rewrite filter_cons_False
          by (unfold counted; cbn; by rewrite Hen, bool_decide_eq_false_2).
        cbn [length filter list_filter]. rewrite Nat.add_0_r.
        assert (Hside : ∀ v, <[instance_type c := v]> acc !! t = acc !! t)
          by (intros v; by rewrite lookup_insert_ne).
        destruct (acc !! instance_type c) as [m|]; [destruct (decide (m = 0%nat))|];
          by rewrite Hside.
    + rewrite filter_cons_False by (unfold counted; cbn; by rewrite Hen).
      cbn [length filter list_filter]. by rewrite Nat.add_0_r.
  - rewrite filter_cons_False by done. cbn [length filter list_filter].
    by rewrite Nat.add_0_r.
Qed.

(** X12. The metrics count, for each module type, the entries that have a
    configuration, are enabled and are of that type; a type with none of
    them has no key in the result. *)
Theorem metrics_count_enabled (db : list (string * option InstanceStoreConfig))
    (t : string) :
  NoDup (getAllInstanceIds db) →
  getInstancesMetrics db !! t =
    let n := length (filter (λ e, counted t e = true) db) in
    if decide (n = 0%nat) then None else Some n.
Proof.
  intros Hnd. unfold getInstancesMetrics, getAllInstanceIds.
  apply metrics_fold. intros e He. by apply getInstanceConfig_entry.
Qed.

End StoreLookups.

(** ** The order of the connections *)

Section StoreOrder.

Implicit Types (db : list (string * option InstanceStoreConfig)) (ps : list (string * Z)).

(** What a sequence of assignments with distinct keys does to one entry. *)
Lemma obj_get_fresh {V : Type} (o : list (string * V)) k :
  k ∉ o.*1 → obj_get k o = None.
Proof. apply obj_get_None. Qed.

Lemma assign_orders_cons k v ps db :
  assign_orders ((k, v) :: ps) db = assign_orders ps (set_sortOrder k v db).
Proof. done. Qed.

Lemma assign_orders_entries ps :
  NoDup ps.*1 →
  ∀ db, assign_orders ps db =
    (λ e : string * option InstanceStoreConfig,
       (e.1, match obj_get e.1 ps with
             | Some v => with_sortOrder v <$> e.2
             | None => e.2
             end)) <$> db.
Proof.
  induction ps as [|[k v] ps IH]; intros Hnd db.
  - cbn. rewrite <- (list_fmap_id db) at 1. apply list_fmap_ext.
    intros _ [i c] _. done.
  - apply NoDup_cons in Hnd as [Hk Hnd]. rewrite assign_orders_cons, (IH Hnd).
    unfold set_sortOrder. rewrite <- list_fmap_compose. apply list_fmap_ext.
    intros _ [i c] _. cbn.
    destruct (decide (i = k)) as [->|Hne]; cbn.
    + rewrite decide_True by done. by rewrite (obj_get_fresh ps k).
    + rewrite decide_False by congruence. done.
Qed.

Lemma assign_orders_keys ps db : (assign_orders ps db).*1 = db.*1.
Proof.
  revert db. induction ps as [|[k v] ps IH]; intros db; [done|].
  rewrite assign_orders_cons, IH. unfold set_sortOrder. rewrite <- list_fmap_compose.
  apply list_fmap_ext. intros _ [i c] _. cbn. by destruct (decide (i = k)).
Qed.

Lemma getInstanceConfig_set_sortOrder i k v db :
  getInstanceConfig i (set_sortOrder k v db) =
    if decide (i = k) then with_sortOrder v <$> getInstanceConfig i db
    else getInstanceConfig i db.
Proof.
  unfold getInstanceConfig, set_sortOrder.
  induction db as [|[j c] db IH]; cbn.
  - by destruct (decide (i = k)).
  - destruct (decide (j = k)) as [->|Hjk]; cbn.
    + destruct (decide (k = i)) as [->|Hki].
      * by rewrite decide_True.
      * done.
    + destruct (decide (j = i)) as [->|Hji]; [|done].
      by rewrite decide_False.
Qed.

Lemma has_config_set_sortOrder i k v db :
  is_Some (getInstanceConfig i (set_sortOrder k v db)) ↔ is_Some (getInstanceConfig i db).
Proof.
  rewrite getInstanceConfig_set_sortOrder.
  destruct (decide (i = k)); [|done]. by rewrite fmap_is_Some.
Qed.

(** The second loop numbers the ids it does not skip, one after the other. *)
Lemma order_rest_assign instanceIds :
  ∀ ids nextIndex db,
    order_rest ids instanceIds nextIndex db =
    assign_orders
      (imap (λ r i, (i, nextIndex + Z.of_nat r))
         (filter (λ i, (i ∉ instanceIds) ∧ is_Some (getInstanceConfig i db)) ids))
      db.
Proof.
  induction ids as [|i ids IH]; intros nextIndex db; [done|]. cbn [order_rest].
  destruct (decide (i ∈ instanceIds)) as [Hin|Hout].
  - rewrite filter_cons_False by (by intros [? _]). apply IH.
  - destruct (getInstanceConfig i db) as [c|] eqn:E.
    + rewrite filter_cons_True by (by rewrite E). cbn [imap].
      rewrite assign_orders_cons, Z.add_0_r, IH. f_equal.
      rewrite (list_filter_iff _
                 (λ j, (j ∉ instanceIds) ∧ is_Some (getInstanceConfig j db)))
        by (intros j; by rewrite has_config_set_sortOrder).
      apply imap_ext. intros r j _. cbn. f_equal. lia.
    + rewrite filter_cons_False by (rewrite E; by intros [_ [? ?]]). apply IH.
Qed.

Lemma sort_insert_perm x l : sort_insert x l ≡ₚ x :: l.
Proof.
  induction l as [|y l IH]; cbn; [done|].
  destruct (decide (order_key y < order_key x)); [|done].
  rewrite IH. apply Permutation_swap.
Qed.

Lemma sort_by_order_perm l : sort_by_order l ≡ₚ l.
Proof.
  induction l as [|x l IH]; cbn; [done|].
  fold (sort_by_order l). by rewrite sort_insert_perm, IH.
Qed.

Lemma imap_keys {V : Type} (f : nat → V) (l : list string) :
  (imap (λ r i, (i, f r)) l).*1 = l.
Proof.
  rewrite fmap_imap. etransitivity; [exact (imap_const Datatypes.id l)|apply list_fmap_id].
Qed.

Lemma imap_values {V : Type} (f : nat → V) (l : list string) :
  (imap (λ r i, (i, f r)) l).*2 = f <$> seq 0 (length l).
Proof.
  rewrite fmap_imap. exact (imap_seq_0 l f).
Qed.

Lemma order_plan_keys instanceIds db :
  (order_plan instanceIds db).*1 =
  instanceIds ++ unlisted_ids instanceIds (assign_orders (listed_orders instanceIds) db).
Proof.
  unfold order_plan, listed_orders. rewrite fmap_app.
  by rewrite (imap_keys (λ r, Z.of_nat r)),
             (imap_keys (λ r, Z.of_nat (length instanceIds) + Z.of_nat r)).
Qed.

Lemma order_plan_values instanceIds db :
  (order_plan instanceIds db).*2 =
  Z.of_nat <$> seq 0 (length (order_plan instanceIds db)).
Proof.
  unfold order_plan, listed_orders. rewrite fmap_app, length_app, !length_imap.
  rewrite (imap_values (λ r, Z.of_nat r)),
          (imap_values (λ r, Z.of_nat (length instanceIds) + Z.of_nat r)).
  rewrite seq_app, fmap_app. f_equal. rewrite Nat.add_0_l.
  replace (seq (length instanceIds))
    with (seq (length instanceIds + 0)) by (by rewrite Nat.add_0_r).
  rewrite <- (fmap_add_seq (length instanceIds) 0), <- list_fmap_compose.
  apply list_fmap_ext. intros _ r _. cbn. lia.
Qed.

Lemma sorted_keys_NoDup db : NoDup db.*1 → NoDup (sort_by_order db).*1.
Proof. intros Hnd. by rewrite sort_by_order_perm. Qed.

Lemma unlisted_ids_spec instanceIds db i :
  i ∈ unlisted_ids instanceIds db ↔
  (i ∉ instanceIds) ∧ is_Some (getInstanceConfig i db).
Proof.
  unfold unlisted_ids. rewrite list_elem_of_filter, sort_by_order_perm.
  split; [by intros [? _]|]. intros [Hout Hsome]. split; [done|].
  destruct Hsome as [c Hc]. apply getInstanceConfig_Some in Hc.
  by apply (list_elem_of_fmap_2' fst _ (i, Some c)).
Qed.

Lemma order_plan_NoDup instanceIds db :
  NoDup db.*1 → NoDup instanceIds → NoDup (order_plan instanceIds db).*1.
Proof.
  intros Hdb Hids. rewrite order_plan_keys. apply NoDup_app. split; [done|].
  split.
  - intros i Hin Hun. by apply unlisted_ids_spec in Hun as [? _].
  - apply NoDup_filter, sorted_keys_NoDup. by rewrite assign_orders_keys.
Qed.

(** The handler makes the assignments of the plan. *)
Lemma instances_set_order_plan instanceIds db :
  instances_set_order instanceIds db = assign_orders (order_plan instanceIds db) db.
Proof.
  unfold instances_set_order, order_plan. rewrite order_rest_assign.
  unfold assign_orders, unlisted_ids. by rewrite foldl_app.
Qed.

Lemma has_config_assign ps db i :
  is_Some (getInstanceConfig i (assign_orders ps db)) ↔ is_Some (getInstanceConfig i db).
Proof.
  revert db. induction ps as [|[k v] ps IH]; intros db; [done|].
  by rewrite assign_orders_cons, IH, has_config_set_sortOrder.
Qed.

Lemma getInstanceConfig_assign ps db i :
  NoDup ps.*1 →
  getInstanceConfig i (assign_orders ps db) =
    match obj_get i ps with
    | Some v => with_sortOrder v <$> getInstanceConfig i db
    | None => getInstanceConfig i db
    end.
Proof.
  revert db. induction ps as [|[k v] ps IH]; intros db Hnd; [done|].
  apply NoDup_cons in Hnd as [Hk Hnd].
  rewrite assign_orders_cons, (IH _ Hnd), getInstanceConfig_set_sortOrder. cbn.
  destruct (decide (k = i)) as [->|Hne].
  - rewrite decide_True by done. by rewrite (obj_get_fresh ps i).
  - rewrite decide_False by congruence. done.
Qed.

Lemma plan_listed instanceIds db index i :
  NoDup db.*1 → NoDup instanceIds →
  instanceIds !! index = Some i →
  obj_get i (order_plan instanceIds db) = Some (Z.of_nat index).
Proof.
  intros Hdb Hids Hi. apply obj_get_elem_of; [by apply order_plan_NoDup|].
  unfold order_plan. apply elem_of_app. left.
  apply (list_elem_of_lookup_2 _ index). unfold listed_orders.
  by rewrite list_lookup_imap, Hi.
Qed.

Lemma plan_unlisted instanceIds db r i :
  NoDup db.*1 → NoDup instanceIds →
  unlisted_ids instanceIds (assign_orders (listed_orders instanceIds) db) !! r = Some i →
  obj_get i (order_plan instanceIds db) = Some (Z.of_nat (length instanceIds) + Z.of_nat r).
Proof.
  intros Hdb Hids Hi. apply obj_get_elem_of; [by apply order_plan_NoDup|].
  unfold order_plan. apply elem_of_app. right.
  apply (list_elem_of_lookup_2 _ r). by rewrite list_lookup_imap, Hi.
Qed.

Lemma obj_get_own {V : Type} (o : list (string * V)) :
  NoDup o.*1 →
  ∀ l, l ⊆ o → omap (λ k, obj_get k o) l.*1 = l.*2.
Proof.
  intros Hnd. induction l as [|[k v] l IH]; intros Hsub; [done|]. cbn.
  rewrite (obj_get_elem_of o k v Hnd) by (apply Hsub; left).
  f_equal. apply IH. intros x Hx. apply Hsub. by right.
Qed.

Lemma store_orders_assign ps db :
  NoDup ps.*1 →
  (∀ e, e ∈ db → is_Some e.2 → e.1 ∈ ps.*1) →
  store_orders (assign_orders ps db) =
  omap (λ k, obj_get k ps) (filter (λ e, is_Some e.2) db).*1.
Proof.
  intros Hnd. rewrite (assign_orders_entries ps Hnd). unfold store_orders.
  induction db as [|[k c] db IH]; intros Hin; [done|].
  assert (Hrest : ∀ e, e ∈ db → is_Some e.2 → e.1 ∈ ps.*1)
    by (intros e He; apply Hin; by right).
  specialize (IH Hrest). cbn [fmap list_fmap omap list_omap fst snd] in *.
  destruct c as [c|].
  - rewrite filter_cons_True by (by eexists). cbn [fmap list_fmap omap list_omap fst].
    destruct (obj_get k ps) as [v|] eqn:E.
    + cbn. by rewrite IH.
    + apply obj_get_None in E. destruct E. by apply (Hin (k, Some c)); [left|eexists].
  - rewrite filter_cons_False by (by intros [? ?]).
    destruct (obj_get k ps); cbn; by rewrite IH.
Qed.

Lemma config_keys_NoDup db :
  NoDup db.*1 → NoDup (filter (λ e, is_Some e.2) db).*1.
Proof.
  intros Hnd. eapply sublist_NoDup; [done|]. apply fmap_sublist. apply sublist_filter.
Qed.

Lemma config_keys_spec db i :
  NoDup db.*1 →
  i ∈ (filter (λ e, is_Some e.2) db).*1 ↔ is_Some (getInstanceConfig i db).
Proof.
  intros Hnd. rewrite list_elem_of_fmap. split.
  - intros ([k c] & -> & [Hc Hin]%list_elem_of_filter). cbn in *.
    pose proof (getInstanceConfig_entry db (k, c) Hnd Hin) as Hget. cbn in Hget.
    by rewrite Hget.
  - intros [c Hc]. exists (i, Some c). split; [done|].
    apply list_elem_of_filter. split; [by eexists|]. by apply getInstanceConfig_Some.
Qed.

(** Two elements in a given order in a list, as a sublist of two. *)
Lemma pair_sublist_total {A : Type} (l : list A) x y :
  x ∈ l → y ∈ l → x ≠ y → [x; y] `sublist_of` l ∨ [y; x] `sublist_of` l.
Proof.
  induction l as [|a l IH]; intros Hx Hy Hne; [by apply elem_of_nil in Hx|].
  apply elem_of_cons in Hx as [->|Hx], Hy as [->|Hy]; [done|..].
  - left. by apply sublist_skip, singleton_sublist_l.
  - right. by apply sublist_skip, singleton_sublist_l.
  - destruct (IH Hx Hy Hne); [left|right]; by apply sublist_cons.
Qed.

Lemma pair_sublist_lookup {A : Type} (l : list A) x y p q :
  NoDup l → [x; y] `sublist_of` l → l !! p = Some x → l !! q = Some y → (p < q)%nat.
Proof.
  intros Hnd (k1 & k2 & -> & Hy%singleton_sublist_l)%sublist_cons_l Hp Hq.
  apply list_elem_of_lookup in Hy as [q' Hq'].
  assert (Hp' : (k1 ++ x :: k2) !! length k1 = Some x) by (by apply list_lookup_middle).
  assert (Hq'' : (k1 ++ x :: k2) !! (length k1 + S q')%nat = Some y)
    by (by rewrite lookup_app_r, Nat.add_comm, Nat.add_sub by lia).
  rewrite (NoDup_lookup _ _ _ _ Hnd Hp Hp'), (NoDup_lookup _ _ _ _ Hnd Hq Hq''). lia.
Qed.

Lemma filter_sublist_mono {A : Type} (P : A → Prop) `{!∀ x, Decision (P x)}
    (l1 l2 : list A) :
  l1 `sublist_of` l2 → filter P l1 `sublist_of` filter P l2.
Proof.
  induction 1 as [|x l1 l2 _ IH|x l1 l2 _ IH]; [done|..].
  - destruct (decide (P x)).
    + rewrite !filter_cons_True by done. by apply sublist_skip.
    + by rewrite !filter_cons_False by done.
  - destruct (decide (P x)).
    + rewrite filter_cons_True by done. by apply sublist_cons.
    + by rewrite filter_cons_False by done.
Qed.

Lemma sort_insert_elem a s y : y ∈ sort_insert a s ↔ y = a ∨ y ∈ s.
Proof. by rewrite sort_insert_perm, elem_of_cons. Qed.

(** The sort gives a list in which the keys do not decrease ... *)
Lemma sort_insert_sorted a s :
  (∀ x y, [x; y] `sublist_of` s → order_key x ≤ order_key y) →
  ∀ x y, [x; y] `sublist_of` sort_insert a s → order_key x ≤ order_key y.
Proof.
  induction s as [|y0 s IH]; intros Hs x y Hxy.
  - apply sublist_length in Hxy. cbn in Hxy. lia.
  - assert (Hs' : ∀ x y, [x; y] `sublist_of` s → order_key x ≤ order_key y)
      by (intros x' y' H'; apply Hs; by apply sublist_cons).
    cbn in Hxy. destruct (decide (order_key y0 < order_key a)) as [Hlt|Hge].
    + apply sublist_cons_r in Hxy as [Hxy|(l' & [= -> <-] & Hy%singleton_sublist_l)].
      * by apply (IH Hs').
      * apply sort_insert_elem in Hy as [->|Hy]; [lia|].
        apply Hs. by apply sublist_skip, singleton_sublist_l.
    + apply sublist_cons_r in Hxy as [Hxy|(l' & [= -> <-] & Hy%singleton_sublist_l)].
      * by apply Hs.
      * apply elem_of_cons in Hy as [->|Hy]; [lia|].
        assert (order_key y0 ≤ order_key y); [|lia].
        apply Hs. by apply sublist_skip, singleton_sublist_l.
Qed.

Lemma sort_by_order_sorted l :
  ∀ x y, [x; y] `sublist_of` sort_by_order l → order_key x ≤ order_key y.
Proof.
  induction l as [|a l IH]; intros x y Hxy.
  - apply sublist_length in Hxy. cbn in Hxy. lia.
  - by apply (sort_insert_sorted a (sort_by_order l) IH).
Qed.

(** ... and in which entries of the same key keep their order. *)
Lemma sort_insert_stable k a s :
  filter (λ e, order_key e = k) (sort_insert a s) =
  filter (λ e, order_key e = k) (a :: s).
Proof.
  induction s as [|y s IH]; [done|]. cbn [sort_insert].
  destruct (decide (order_key y < order_key a)) as [Hlt|Hge]; [|done].
  destruct (decide (order_key y = k)) as [Hy|Hy].
  - rewrite filter_cons_True, IH by done.
    rewrite !(filter_cons_False _ a) by lia. by rewrite filter_cons_True.
  - rewrite filter_cons_False, IH by done.
    destruct (decide (order_key a = k)).
    + rewrite !(filter_cons_True _ a) by done. by rewrite filter_cons_False.
    + rewrite !(filter_cons_False _ a) by done. by rewrite filter_cons_False.
Qed.

Lemma sort_by_order_stable k l :
  filter (λ e, order_key e = k) (sort_by_order l) = filter (λ e, order_key e = k) l.
Proof.
  induction l as [|a l IH]; [done|].
  cbn [sort_by_order foldr]. fold (sort_by_order l). rewrite sort_insert_stable.
  destruct (decide (order_key a = k)).
  - rewrite !(filter_cons_True _ a) by done. by rewrite IH.
  - rewrite !(filter_cons_False _ a) by done. by rewrite IH.
Qed.

(** An entry of lesser key, or of the same key and earlier in the store,
    comes earlier in the sorted list. *)
Lemma sort_by_order_before l x y :
  NoDup l.*1 → x ∈ l → y ∈ l → x.1 ≠ y.1 →
  order_key x < order_key y ∨
    (order_key x = order_key y ∧ [x; y] `sublist_of` l) →
  [x; y] `sublist_of` sort_by_order l.
Proof.
  intros Hnd Hx Hy Hne Hcase.
  destruct (pair_sublist_total (sort_by_order l) x y) as [|Hyx];
    [by rewrite sort_by_order_perm|by rewrite sort_by_order_perm|congruence|done|].
  pose proof (sort_by_order_sorted l y x Hyx) as Hle.
  destruct Hcase as [Hlt|[Heq Hxy]]; [lia|].
  apply (filter_sublist_mono (λ e, order_key e = order_key y)) in Hyx.
  rewrite sort_by_order_stable in Hyx.
  rewrite filter_cons_True, filter_cons_True in Hyx by done.
  assert (Hyx' : [y; x] `sublist_of` l)
    by (etransitivity; [exact Hyx|apply sublist_filter]).
  apply (fmap_sublist fst) in Hxy, Hyx'. cbn in Hxy, Hyx'.
  assert (Hx1 : x.1 ∈ l.*1) by (by apply (list_elem_of_fmap_2' fst _ x)).
  assert (Hy1 : y.1 ∈ l.*1) by (by apply (list_elem_of_fmap_2' fst _ y)).
  apply list_elem_of_lookup in Hx1 as [p Hp], Hy1 as [q Hq].
  pose proof (pair_sublist_lookup _ _ _ _ _ Hnd Hxy Hp Hq).
  pose proof (pair_sublist_lookup _ _ _ _ _ Hnd Hyx' Hq Hp). lia.
Qed.

(** X13. [instances:set-order], given distinct ids, puts every id provided
    at its index and the other connections behind them; when every id
    provided is that of a connection, the orders that result are
    0, 1, ..., n-1, each once, for the n connections of the store. *)
Theorem set_order_renumbers (instanceIds : list string)
    (db : list (string * option InstanceStoreConfig)) :
  NoDup (getAllInstanceIds db) → NoDup instanceIds →
  getAllInstanceIds (instances_set_order instanceIds db) = getAllInstanceIds db ∧
  (∀ index i, instanceIds !! index = Some i →
     getInstanceConfig i (instances_set_order instanceIds db) =
       with_sortOrder (Z.of_nat index) <$> getInstanceConfig i db) ∧
  (∀ i c, i ∉ instanceIds → getInstanceConfig i db = Some c →
     ∃ r : nat,
       getInstanceConfig i (instances_set_order instanceIds db) =
         Some (with_sortOrder (Z.of_nat (length instanceIds) + Z.of_nat r) c)) ∧
  ((∀ i, i ∈ instanceIds → is_Some (getInstanceConfig i db)) →
   store_orders (instances_set_order instanceIds db) ≡ₚ
     Z.of_nat <$> seq 0 (length (filter (λ e, is_Some e.2) db))).
Proof.
  unfold getAllInstanceIds. intros Hdb Hids.
  pose proof (order_plan_NoDup instanceIds db Hdb Hids) as Hplan.
  rewrite instances_set_order_plan. split_and!.
  - apply assign_orders_keys.
  - intros index i Hi. rewrite (getInstanceConfig_assign _ _ _ Hplan).
    by rewrite (plan_listed instanceIds db index i).
  - intros i c Hout Hc.
    assert (Hun : i ∈ unlisted_ids instanceIds
                        (assign_orders (listed_orders instanceIds) db)).
    { apply unlisted_ids_spec. split; [done|]. apply has_config_assign. by eexists. }
    apply list_elem_of_lookup in Hun as [r Hr]. exists r.
    rewrite (getInstanceConfig_assign _ _ _ Hplan).
    by rewrite (plan_unlisted instanceIds db r i), Hc.
  - intros Hknown.
    assert (Hkeys : ∀ i, i ∈ (filter (λ e, is_Some e.2) db).*1 ↔
                         i ∈ (order_plan instanceIds db).*1).
    { intros i. rewrite config_keys_spec by done.
      rewrite order_plan_keys, elem_of_app, unlisted_ids_spec, has_config_assign.
      split; [|intros [? | [_ ?]]; [by apply Hknown|done]].
      intros Hc. destruct (decide (i ∈ instanceIds)); [by left|by right]. }
    rewrite store_orders_assign; [|done|].
    + assert (Hperm : (filter (λ e, is_Some e.2) db).*1 ≡ₚ (order_plan instanceIds db).*1)
        by (apply NoDup_Permutation; [by apply config_keys_NoDup|done..]).
      rewrite Hperm, (obj_get_own _ Hplan) by done.
      rewrite order_plan_values.
      apply Permutation_length in Hperm. rewrite !length_fmap in Hperm.
      by rewrite Hperm.
    + intros e He Hc. apply Hkeys.
      apply (list_elem_of_fmap_2' fst _ e); [|done]. by apply list_elem_of_filter.
Qed.

Lemma listed_orders_keep (instanceIds : list string) i
    (c : option InstanceStoreConfig) :
  i ∉ instanceIds →
  (λ e : string * option InstanceStoreConfig,
     (e.1, match obj_get e.1 (listed_orders instanceIds) with
           | Some v => with_sortOrder v <$> e.2
           | None => e.2
           end)) (i, c) = (i, c).
Proof.
  intros Hout. cbn. rewrite obj_get_fresh; [done|].
  unfold listed_orders. by rewrite (imap_keys (λ r, Z.of_nat r)).
Qed.

(** X14. [instances:set-order] keeps the connections it was not given in
    the order they had: of two of them, the one with the lesser order, or
    with the same order and the earlier key in the store, ends before the
    other, and both end behind the ids provided. *)
Theorem set_order_keeps_rest (instanceIds : list string)
    (db : list (string * option InstanceStoreConfig))
    (i j : string) (ci cj : InstanceStoreConfig) :
  NoDup (getAllInstanceIds db) → NoDup instanceIds →
  i ∉ instanceIds → j ∉ instanceIds → i ≠ j →
  (i, Some ci) ∈ db → (j, Some cj) ∈ db →
  order_key (i, Some ci) < order_key (j, Some cj) ∨
    (order_key (i, Some ci) = order_key (j, Some cj) ∧
     [(i, Some ci); (j, Some cj)] `sublist_of` db) →
  ∃ ri rj : nat, (ri < rj)%nat ∧
    getInstanceConfig i (instances_set_order instanceIds db) =
      Some (with_sortOrder (Z.of_nat (length instanceIds) + Z.of_nat ri) ci) ∧
    getInstanceConfig j (instances_set_order instanceIds db) =
      Some (with_sortOrder (Z.of_nat (length instanceIds) + Z.of_nat rj) cj).
Proof.
  unfold getAllInstanceIds. intros Hdb Hids Hi Hj Hne Hini Hinj Hcase.
  pose proof (order_plan_NoDup instanceIds db Hdb Hids) as Hplan.
  set (db1 := assign_orders (listed_orders instanceIds) db).
  assert (Hlisted : NoDup (listed_orders instanceIds).*1)
    by (unfold listed_orders; by rewrite (imap_keys (λ r, Z.of_nat r))).
  assert (Hdb1 : NoDup db1.*1) by (unfold db1; by rewrite assign_orders_keys).
  assert (Hini1 : (i, Some ci) ∈ db1).
  { unfold db1. rewrite (assign_orders_entries _ Hlisted).
    apply list_elem_of_fmap. exists (i, Some ci).
    split; [|done]. symmetry. by apply listed_orders_keep. }
  assert (Hinj1 : (j, Some cj) ∈ db1).
  { unfold db1. rewrite (assign_orders_entries _ Hlisted).
    apply list_elem_of_fmap. exists (j, Some cj).
    split; [|done]. symmetry. by apply listed_orders_keep. }
  assert (Hcase1 : order_key (i, Some ci) < order_key (j, Some cj) ∨
            (order_key (i, Some ci) = order_key (j, Some cj) ∧
             [(i, Some ci); (j, Some cj)] `sublist_of` db1)).
  { destruct Hcase as [?|[? Hsub]]; [by left|right]. split; [done|].
    unfold db1. rewrite (assign_orders_entries _ Hlisted).
    apply (fmap_sublist
             (λ e : string * option InstanceStoreConfig,
                (e.1, match obj_get e.1 (listed_orders instanceIds) with
                      | Some v => with_sortOrder v <$> e.2
                      | None => e.2
                      end))) in Hsub.
    cbn [fmap list_fmap] in Hsub.
    by rewrite !listed_orders_keep in Hsub. }
  pose proof (sort_by_order_before db1 _ _ Hdb1 Hini1 Hinj1 Hne Hcase1) as Hsorted.
  apply (fmap_sublist fst) in Hsorted. cbn [fmap list_fmap fst] in Hsorted.
  apply (filter_sublist_mono
           (λ k, (k ∉ instanceIds) ∧ is_Some (getInstanceConfig k db1))) in Hsorted.
  fold (unlisted_ids instanceIds db1) in Hsorted.
  pose proof (getInstanceConfig_entry db1 _ Hdb1 Hini1) as Hgi.
  pose proof (getInstanceConfig_entry db1 _ Hdb1 Hinj1) as Hgj.
  cbn [fst snd] in Hgi, Hgj.
  rewrite filter_cons_True in Hsorted by (by rewrite Hgi).
  rewrite filter_cons_True in Hsorted by (by rewrite Hgj).
  rewrite filter_nil in Hsorted.
  assert (Hui : i ∈ unlisted_ids instanceIds db1)
    by (apply unlisted_ids_spec; by rewrite Hgi).
  assert (Huj : j ∈ unlisted_ids instanceIds db1)
    by (apply unlisted_ids_spec; by rewrite Hgj).
  apply list_elem_of_lookup in Hui as [ri Hri], Huj as [rj Hrj].
  exists ri, rj. split.
  - apply (pair_sublist_lookup (unlisted_ids instanceIds db1) i j); [|done..].
    apply NoDup_filter, sorted_keys_NoDup, Hdb1.
  - rewrite instances_set_order_plan, !(getInstanceConfig_assign _ _ _ Hplan).
    rewrite (plan_unlisted instanceIds db ri i), (plan_unlisted instanceIds db rj j)
      by done.
    pose proof (getInstanceConfig_entry db _ Hdb Hini) as Hci.
    pose proof (getInstanceConfig_entry db _ Hdb Hinj) as Hcj.
    cbn [fst snd] in Hci, Hcj. by rewrite Hci, Hcj.
Qed.

End StoreOrder.

(** The theorems on the store of connections at [sample_store]. *)

Lemma unique_label_has_no_other_owner_witness :
  makeLabelUnique (λ s, s) "atem" (Some "i1") sample_store = Some "atem" ∧
  getIdForLabel "atem" sample_store = Some "i1" ∧
  Some "i1" = Some "i1".
Proof.
  split; [reflexivity|]. split; [reflexivity|].
  apply (unique_label_has_no_other_owner (λ s, s) "atem" (Some "i1") sample_store "atem");
    [reflexivity|discriminate|reflexivity].
Defined.

Lemma label_lookup_round_trip_witness :
  NoDup (getAllInstanceIds sample_store) ∧
  (∀ l i, getIdForLabel l sample_store = Some i →
          getLabelForInstance i sample_store = Some l) ∧
  (∀ i l, getLabelForInstance i sample_store = Some l →
     (∀ j c, (j, Some c) ∈ sample_store → label c = l → j = i) →
     getIdForLabel l sample_store = Some i).
Proof.
  assert (Hnd : NoDup (getAllInstanceIds sample_store))
    by (apply (bool_decide_unpack _); vm_compute; exact I).
  split; [exact Hnd|]. exact (label_lookup_round_trip sample_store Hnd).
Defined.

Lemma metrics_count_enabled_witness :
  NoDup (getAllInstanceIds sample_store) ∧
  getInstancesMetrics sample_store !! "atem" = Some 2%nat ∧
  getInstancesMetrics sample_store !! "osc" = None.
Proof.
  assert (Hnd : NoDup (getAllInstanceIds sample_store))
    by (apply (bool_decide_unpack _); vm_compute; exact I).
  split; [exact Hnd|]. split.
  - exact (metrics_count_enabled sample_store "atem" Hnd).
  - exact (metrics_count_enabled sample_store "osc" Hnd).
Defined.

Lemma set_order_renumbers_witness :
  store_orders (instances_set_order ["i3"; "i1"] sample_store) ≡ₚ
    Z.of_nat <$> seq 0 (length (filter (λ e, is_Some e.2) sample_store)).
Proof.
  assert (Hnd : NoDup (getAllInstanceIds sample_store))
    by (apply (bool_decide_unpack _); vm_compute; exact I).
  assert (Hids : NoDup ["i3"; "i1"])
    by (apply (bool_decide_unpack _); vm_compute; exact I).
  destruct (set_order_renumbers ["i3"; "i1"] sample_store Hnd Hids) as (_ & _ & _ & Hperm).
  apply Hperm.
  intros i [-> | [-> | Hnil%elem_of_nil]%elem_of_cons]%elem_of_cons;
    [by eexists|by eexists|done].
Defined.

Lemma set_order_keeps_rest_witness :
  ∃ ri rj : nat, (ri < rj)%nat ∧
    getInstanceConfig "i2" (instances_set_order ["i3"] sample_store) =
      Some (with_sortOrder (Z.of_nat (length ["i3"]) + Z.of_nat ri)
              (mkInstanceConfig "atem" "atem_2" None true (Some 3) false)) ∧
    getInstanceConfig "i1" (instances_set_order ["i3"] sample_store) =
      Some (with_sortOrder (Z.of_nat (length ["i3"]) + Z.of_nat rj)
              (mkInstanceConfig "atem" "atem" None true (Some 7) false)).
Proof.
  apply (set_order_keeps_rest ["i3"] sample_store "i2" "i1").
  - apply (bool_decide_unpack _). vm_compute. exact I.
  - apply (bool_decide_unpack _). vm_compute. exact I.
  - apply (bool_decide_unpack _). vm_compute. exact I.
  - apply (bool_decide_unpack _). vm_compute. exact I.
  - discriminate.
  - apply (bool_decide_unpack _). vm_compute. exact I.
  - apply (bool_decide_unpack _). vm_compute. exact I.
  - left. reflexivity.
Defined.

(** ** The registry of controls *)

Section RegistryFacts.

Variable MAX_BUTTONS : nat.
Variable toJSON : SomeControl → bool → ControlJson.

Lemma obj_get_delete {V : Type} (k c : string) (o : list (string * V)) :
  obj_get c (obj_delete k o) = if decide (c = k) then None else obj_get c o.
Proof.
  unfold obj_delete. induction o as [|[k' v] o IH].
  - cbn. by destruct (decide (c = k)).
  - destruct (decide (k' = k)) as [->|Hne].
    + rewrite filter_cons_False by (cbn; tauto). rewrite IH. cbn [obj_get].
      destruct (decide (c = k)) as [->|Hc]; [done|]. by rewrite decide_False.
    + rewrite filter_cons_True by done. cbn [obj_get]. rewrite IH.
      destruct (decide (k' = c)) as [->|Hkc]; [|done]. by rewrite decide_False.
Qed.

Lemma getControl_set c k v r :
  getControl c (set_control k v r) = if decide (c = k) then v else getControl c r.
Proof.
  unfold getControl, set_control. cbn. destruct (decide (c = k)) as [->|Hne].
  - by rewrite obj_get_set.
  - by rewrite obj_get_set_ne.
Qed.

Lemma getControl_delete c k r calls :
  getControl c (mkStore (obj_delete k (store_controls r)) calls) =
    if decide (c = k) then None else getControl c r.
Proof.
  unfold getControl. cbn. rewrite obj_get_delete. by destruct (decide (c = k)).
Qed.

Lemma createClass_controls k cat t obj imp r :
  store_controls (createClassForControl k cat t obj imp r).2 = store_controls r.
Proof. unfold createClassForControl. by destruct (class_for cat t). Qed.

Lemma createClass_destroyed k cat t obj imp r :
  destroyed (store_calls (createClassForControl k cat t obj imp r).2)
    = destroyed (store_calls r).
Proof.
  unfold createClassForControl. destruct (class_for cat t); [done|]. cbn.
  unfold destroyed. rewrite omap_app. cbn. by rewrite app_nil_r.
Qed.

Lemma createClass_result k cat t obj imp r :
  (createClassForControl k cat t obj imp r).1 =
    (λ cls, mkSomeControl cls k obj imp) <$> class_for cat t.
Proof. unfold createClassForControl. by destruct (class_for cat t). Qed.

Lemma destroyed_log e calls :
  destroyed (calls ++ [e]) =
    destroyed calls ++ match e with CallDestroy c => [c] | _ => [] end.
Proof. unfold destroyed. rewrite omap_app. by destruct e. Qed.

Lemma drop_control_get k c r :
  getControl c (drop_control k r) = if decide (c = k) then None else getControl c r.
Proof.
  unfold drop_control. destruct (getControl k r) as [control|] eqn:E.
  - exact (getControl_delete c k r _).
  - destruct (decide (c = k)) as [->|]; done.
Qed.

Lemma drop_control_destroyed k r :
  destroyed (store_calls (drop_control k r)) =
    destroyed (store_calls r) ++ option_list (getControl k r).
Proof.
  unfold drop_control. destruct (getControl k r) as [control|]; cbn.
  - rewrite !destroyed_log. cbn. by rewrite app_nil_r.
  - by rewrite app_nil_r.
Qed.

Lemma notify_reset_get k c r : getControl c (notify_reset k r) = getControl c r.
Proof. unfold notify_reset. by destruct (ParseControlId k) as [[page bank|t]|]. Qed.

Lemma notify_reset_destroyed k r :
  destroyed (store_calls (notify_reset k r)) = destroyed (store_calls r).
Proof.
  unfold notify_reset. destruct (ParseControlId k) as [[page bank|t]|]; [|done..].
  cbn. rewrite destroyed_log. cbn. by rewrite app_nil_r.
Qed.

(** A reset without a new type takes the control away and adds none. *)
Lemma resetControl_none k c r :
  getControl c (resetControl MAX_BUTTONS k None r).2 =
    if decide (c = k) then None else getControl c r.
Proof.
  unfold resetControl. destruct (validateBankControlId MAX_BUTTONS k); cbn.
  - change (getControl c (notify_reset k (drop_control k r))
            = if decide (c = k) then None else getControl c r).
    by rewrite notify_reset_get, drop_control_get.
  - apply drop_control_get.
Qed.

Lemma resetControl_none_destroyed k r :
  destroyed (store_calls (resetControl MAX_BUTTONS k None r).2) =
    destroyed (store_calls r) ++ option_list (getControl k r).
Proof.
  unfold resetControl. destruct (validateBankControlId MAX_BUTTONS k); cbn.
  - rewrite destroyed_log. cbn.
    by rewrite app_nil_r, notify_reset_destroyed, drop_control_destroyed.
  - apply drop_control_destroyed.
Qed.

(** X15. [resetControl] always takes the old control away, and destroys
    it, also when the id is not that of a button and [false] is returned;
    it answers whether the id is valid, leaves the other controls alone,
    and installs a new control only for a valid id and a type that a
    button may have. *)
Theorem resetControl_result (controlId : string) (newType : option string)
    (r : ControlStore) :
  (resetControl MAX_BUTTONS controlId newType r).1
    = validateBankControlId MAX_BUTTONS controlId ∧
  (∀ c, c ≠ controlId →
     getControl c (resetControl MAX_BUTTONS controlId newType r).2 = getControl c r) ∧
  getControl controlId (resetControl MAX_BUTTONS controlId newType r).2 =
    (if validateBankControlId MAX_BUTTONS controlId then
       t ← newType; (λ cls, mkSomeControl cls controlId None false) <$> class_for CategoryBank t
     else None) ∧
  destroyed (store_calls (resetControl MAX_BUTTONS controlId newType r).2) =
    destroyed (store_calls r) ++ option_list (getControl controlId r).
Proof.
  assert (Hplain : ∀ nt, resetControl MAX_BUTTONS controlId nt r
                         = resetControl MAX_BUTTONS controlId None r →
            (nt ≫= λ t, (λ cls, mkSomeControl cls controlId None false)
                          <$> class_for CategoryBank t) = None →
    (resetControl MAX_BUTTONS controlId nt r).1
      = validateBankControlId MAX_BUTTONS controlId ∧
    (∀ c, c ≠ controlId →
       getControl c (resetControl MAX_BUTTONS controlId nt r).2 = getControl c r) ∧
    getControl controlId (resetControl MAX_BUTTONS controlId nt r).2 =
      (if validateBankControlId MAX_BUTTONS controlId then
         t ← nt; (λ cls, mkSomeControl cls controlId None false) <$> class_for CategoryBank t
       else None) ∧
    destroyed (store_calls (resetControl MAX_BUTTONS controlId nt r).2) =
      destroyed (store_calls r) ++ option_list (getControl controlId r)).
  { intros nt -> ->. split_and!.
    - unfold resetControl. by destruct (validateBankControlId MAX_BUTTONS controlId).
    - intros c Hc. by rewrite resetControl_none, decide_False.
    - rewrite resetControl_none, decide_True by done.
      by destruct (validateBankControlId MAX_BUTTONS controlId).
    - apply resetControl_none_destroyed. }
  destruct newType as [t|]; [|by apply Hplain].
  destruct (decide (t = "")) as [->|Ht]; [by apply Hplain|]. clear Hplain.
  unfold resetControl.
  destruct (validateBankControlId MAX_BUTTONS controlId).
  2:{ cbn. split_and!; [done| |by rewrite drop_control_get, decide_True
                              |apply drop_control_destroyed].
      intros c Hc. by rewrite drop_control_get, decide_False. }
  rewrite decide_False by done. cbn [mbind option_bind].
  unfold createClassForControl.
  destruct (class_for CategoryBank t) as [cls|]; cbn [fst snd fmap option_fmap option_map].
  - split_and!; [done| | |].
    + intros c Hc.
      by rewrite getControl_set, decide_False, notify_reset_get, drop_control_get,
                 decide_False.
    + by rewrite getControl_set, decide_True.
    + cbn. by rewrite notify_reset_destroyed, drop_control_destroyed.
  - split_and!; [done| | |].
    + intros c Hc. rewrite getControl_set, decide_False by done.
      change (getControl c (notify_reset controlId (drop_control controlId r))
              = getControl c r).
      by rewrite notify_reset_get, drop_control_get, decide_False.
    + by rewrite getControl_set, decide_True.
    + cbn. rewrite destroyed_log. cbn.
      by rewrite app_nil_r, notify_reset_destroyed, drop_control_destroyed.
Qed.

Lemma reset_fold_get (ks : list string) :
  ∀ r c,
    getControl c (foldl (λ r' k, (resetControl MAX_BUTTONS k None r').2) r ks) =
      if decide (c ∈ ks) then None else getControl c r.
Proof.
  induction ks as [|k ks IH]; intros r c; cbn [foldl].
  - rewrite decide_False; [done|apply not_elem_of_nil].
  - rewrite IH, resetControl_none.
    destruct (decide (c ∈ ks)) as [Hin|Hout].
    + rewrite decide_True; [done|by right].
    + destruct (decide (c = k)) as [->|Hne].
      * rewrite decide_True; [done|by left].
      * rewrite decide_False; [done|]. by intros [?|?]%elem_of_cons.
Qed.

Lemma reset_fold_destroyed (ks : list string) :
  NoDup ks →
  ∀ r,
    destroyed (store_calls (foldl (λ r' k, (resetControl MAX_BUTTONS k None r').2) r ks)) =
      destroyed (store_calls r) ++ omap (λ k, getControl k r) ks.
Proof.
  induction ks as [|k ks IH]; intros Hnd r; cbn [foldl].
  - cbn. by rewrite app_nil_r.
  - apply NoDup_cons in Hnd as [Hk Hnd].
    rewrite (IH Hnd), resetControl_none_destroyed, <- app_assoc. f_equal.
    cbn [omap list_omap].
    assert (Hrest : omap (λ k0, getControl k0 (resetControl MAX_BUTTONS k None r).2) ks
                    = omap (λ k0, getControl k0 r) ks).
    { apply list_omap_ext. apply Forall2_same_length_lookup_2; [done|].
      intros i x y Hx Hy. assert (x = y) by congruence. subst y.
      rewrite resetControl_none, decide_False; [done|].
      intros ->. apply Hk. by eapply list_elem_of_lookup_2. }
    rewrite Hrest. by destruct (getControl k r).
Qed.

Lemma controls_in_key_order (r : ControlStore) :
  NoDup (store_controls r).*1 →
  omap (λ k, getControl k r) (store_controls r).*1 = omap snd (store_controls r).
Proof.
  intros Hnd. unfold getControl.
  assert (Hgen : ∀ l, l ⊆ store_controls r →
            omap (λ k, mjoin (obj_get k (store_controls r))) l.*1 = omap snd l).
  { induction l as [|[k v] l IH]; intros Hsub; [done|]. cbn.
    rewrite (obj_get_elem_of (store_controls r) k v Hnd) by (apply Hsub; left).
    cbn. rewrite IH; [done|]. intros x Hx. apply Hsub. by right. }
  by apply Hgen.
Qed.

(** X16. After [resetAllControls] the registry holds no control, and every
    control it held has been destroyed once, in the order of the keys. *)
Theorem resetAllControls_empties (r : ControlStore) :
  NoDup (store_controls r).*1 →
  (∀ c, getControl c (resetAllControls MAX_BUTTONS r) = None) ∧
  destroyed (store_calls (resetAllControls MAX_BUTTONS r)) =
    destroyed (store_calls r) ++ omap snd (store_controls r).
Proof.
  intros Hnd. unfold resetAllControls. split.
  - intros c. rewrite reset_fold_get.
    destruct (decide (c ∈ (store_controls r).*1)) as [|Hout]; [done|].
    unfold getControl. by rewrite (obj_get_fresh _ c Hout).
  - by rewrite (reset_fold_destroyed _ Hnd), controls_in_key_order.
Qed.

Lemma createClass_import k json r :
  (createClassForControl k CategoryBank (json_type json) (Some json) true r).1
    = imported_control k json.
Proof. apply createClass_result. Qed.

Lemma createClass_get k cat t obj imp r c :
  getControl c (createClassForControl k cat t obj imp r).2 = getControl c r.
Proof. unfold getControl. by rewrite createClass_controls. Qed.

(** X17. [controls:move] either succeeds, and then the target holds the
    control rebuilt from the export of the source, the source is empty,
    the controls that were at the two ids are destroyed and the others are
    as before; or it answers [false], and then no control was touched. *)
Theorem controls_move_result (fromControlId toControlId : string) (r : ControlStore) :
  ((controls_move MAX_BUTTONS toJSON fromControlId toControlId r).1 = true →
   fromControlId ≠ toControlId ∧
   validateBankControlId MAX_BUTTONS toControlId = true ∧
   ∃ fromControl newControl,
     getControl fromControlId r = Some fromControl ∧
     imported_control toControlId (toJSON fromControl true) = Some newControl ∧
     getControl toControlId (controls_move MAX_BUTTONS toJSON fromControlId toControlId r).2
       = Some newControl ∧
     getControl fromControlId (controls_move MAX_BUTTONS toJSON fromControlId toControlId r).2
       = None ∧
     (∀ c, c ≠ fromControlId → c ≠ toControlId →
        getControl c (controls_move MAX_BUTTONS toJSON fromControlId toControlId r).2
          = getControl c r) ∧
     destroyed (store_calls (controls_move MAX_BUTTONS toJSON fromControlId toControlId r).2)
       = destroyed (store_calls r) ++ option_list (getControl toControlId r)
           ++ [fromControl]) ∧
  ((controls_move MAX_BUTTONS toJSON fromControlId toControlId r).1 = false →
   store_controls (controls_move MAX_BUTTONS toJSON fromControlId toControlId r).2
     = store_controls r ∧
   destroyed (store_calls (controls_move MAX_BUTTONS toJSON fromControlId toControlId r).2)
     = destroyed (store_calls r)).
Proof.
  unfold controls_move.
  destruct (validateBankControlId MAX_BUTTONS toControlId) eqn:Hvalid; [|by split].
  destruct (getControl fromControlId r) as [fromControl|] eqn:Hfrom; [|by split].
  destruct (decide (fromControlId ≠ toControlId)) as [Hne|]; [|by split].
  pose proof (createClass_import toControlId (toJSON fromControl true) r) as Hnew.
  pose proof (createClass_get toControlId CategoryBank
                (json_type (toJSON fromControl true))
                (Some (toJSON fromControl true)) true r) as Hget.
  pose proof (createClass_destroyed toControlId CategoryBank
                (json_type (toJSON fromControl true))
                (Some (toJSON fromControl true)) true r) as Hdes.
  pose proof (createClass_controls toControlId CategoryBank
                (json_type (toJSON fromControl true))
                (Some (toJSON fromControl true)) true r) as Hctl.
  destruct (createClassForControl toControlId CategoryBank _ _ true r) as [newControl r1].
  cbn [fst snd] in *. destruct newControl as [nc|]; cbn [fst snd]; [|by split].
  split; [intros _|done]. split; [done|]. split; [done|].
  exists fromControl, nc. split_and!; [done|done|..].
  - by rewrite getControl_set, decide_True.
  - by rewrite getControl_set, decide_False, resetControl_none, decide_True.
  - intros c Hc1 Hc2.
    by rewrite getControl_set, decide_False, !resetControl_none, !decide_False, Hget.
  - cbn. rewrite !resetControl_none_destroyed, resetControl_none, decide_False by done.
    by rewrite Hdes, !Hget, Hfrom, <- app_assoc.
Qed.

(** X18. [controls:copy] either succeeds, and then the target holds the
    control rebuilt from the export of the source and every other control,
    the source among them, is as before; or it answers [false], and then
    no control was touched. *)
Theorem controls_copy_result (fromControlId toControlId : string) (r : ControlStore) :
  ((controls_copy MAX_BUTTONS toJSON fromControlId toControlId r).1 = true →
   ∃ fromControl newControl,
     fromControlId ≠ toControlId ∧
     validateBankControlId MAX_BUTTONS toControlId = true ∧
     getControl fromControlId r = Some fromControl ∧
     imported_control toControlId (toJSON fromControl true) = Some newControl ∧
     (∀ c, getControl c (controls_copy MAX_BUTTONS toJSON fromControlId toControlId r).2
           = if decide (c = toControlId) then Some newControl else getControl c r) ∧
     destroyed (store_calls (controls_copy MAX_BUTTONS toJSON fromControlId toControlId r).2)
       = destroyed (store_calls r) ++ option_list (getControl toControlId r)) ∧
  ((controls_copy MAX_BUTTONS toJSON fromControlId toControlId r).1 = false →
   store_controls (controls_copy MAX_BUTTONS toJSON fromControlId toControlId r).2
     = store_controls r ∧
   destroyed (store_calls (controls_copy MAX_BUTTONS toJSON fromControlId toControlId r).2)
     = destroyed (store_calls r)).
Proof.
  unfold controls_copy.
  destruct (validateBankControlId MAX_BUTTONS toControlId); [|by split].
  destruct (getControl fromControlId r) as [fromControl|] eqn:Hfrom; [|by split].
  destruct (decide (fromControlId ≠ toControlId)) as [Hne|]; [|by split].
  pose proof (createClass_import toControlId (toJSON fromControl true) r) as Hnew.
  pose proof (createClass_get toControlId CategoryBank
                (json_type (toJSON fromControl true))
                (Some (toJSON fromControl true)) true r) as Hget.
  pose proof (createClass_destroyed toControlId CategoryBank
                (json_type (toJSON fromControl true))
                (Some (toJSON fromControl true)) true r) as Hdes.
  pose proof (createClass_controls toControlId CategoryBank
                (json_type (toJSON fromControl true))
                (Some (toJSON fromControl true)) true r) as Hctl.
  destruct (createClassForControl toControlId CategoryBank _ _ true r) as [newControl r1].
  cbn [fst snd] in *. destruct newControl as [nc|]; cbn [fst snd]; [|by split].
  split; [intros _|done]. exists fromControl, nc. split_and!; [done..| |].
  - intros c. rewrite getControl_set. destruct (decide (c = toControlId)); [done|].
    by rewrite resetControl_none, decide_False, Hget.
  - cbn. by rewrite resetControl_none_destroyed, Hdes, Hget.
Qed.

(** X19. [importControl] answers [true] exactly when the id is a valid
    button id and the type of the definition is one a button may have.
    It then installs the control made from the definition under that id
    and commits it, destroying what was there and touching nothing else;
    when it answers [false] no control was touched.  A definition of type
    trigger is always refused. *)
Theorem importControl_result (controlId : string) (definition : ControlJson)
    (r : ControlStore) :
  ((importControl MAX_BUTTONS controlId definition r).1 = true ↔
   validateBankControlId MAX_BUTTONS controlId = true ∧
   is_Some (imported_control controlId definition)) ∧
  ((importControl MAX_BUTTONS controlId definition r).1 = true →
   ∃ newControl,
     validateBankControlId MAX_BUTTONS controlId = true ∧
     imported_control controlId definition = Some newControl ∧
     last (store_calls (importControl MAX_BUTTONS controlId definition r).2)
       = Some (CallCommitChange newControl) ∧
     (∀ c, getControl c (importControl MAX_BUTTONS controlId definition r).2
           = if decide (c = controlId) then Some newControl else getControl c r) ∧
     destroyed (store_calls (importControl MAX_BUTTONS controlId definition r).2)
       = destroyed (store_calls r) ++ option_list (getControl controlId r)) ∧
  ((importControl MAX_BUTTONS controlId definition r).1 = false →
   store_controls (importControl MAX_BUTTONS controlId definition r).2
     = store_controls r ∧
   destroyed (store_calls (importControl MAX_BUTTONS controlId definition r).2)
     = destroyed (store_calls r)) ∧
  (json_type definition = "trigger" →
   (importControl MAX_BUTTONS controlId definition r).1 = false).
Proof.
  split; [|split; [|split]].
  - unfold importControl.
    destruct (validateBankControlId MAX_BUTTONS controlId).
    2:{ split; [done|]. by intros [? _]. }
    pose proof (createClass_import controlId definition r) as Hnew.
    destruct (createClassForControl controlId CategoryBank _ _ true r) as [newControl r1].
    cbn [fst] in Hnew. rewrite <- Hnew. destruct newControl as [nc|]; cbn [fst].
    + split; [|done]. intros _. split; [done|by eexists].
    + split; [done|]. intros [_ [? ?]]. done.
  - unfold importControl.
    destruct (validateBankControlId MAX_BUTTONS controlId); [|done].
    pose proof (createClass_import controlId definition r) as Hnew.
    pose proof (createClass_get controlId CategoryBank (json_type definition)
                  (Some definition) true r) as Hget.
    pose proof (createClass_destroyed controlId CategoryBank (json_type definition)
                  (Some definition) true r) as Hdes.
    destruct (createClassForControl controlId CategoryBank _ _ true r) as [newControl r1].
    cbn [fst snd] in *. destruct newControl as [nc|]; cbn [fst snd]; [|done].
    intros _. exists nc. split_and!; [done|done|..].
    + cbn. by rewrite last_snoc.
    + intros c.
      change (getControl c (set_control controlId (Some nc)
                              (resetControl MAX_BUTTONS controlId None r1).2)
              = if decide (c = controlId) then Some nc else getControl c r).
      rewrite getControl_set. destruct (decide (c = controlId)); [done|].
      by rewrite resetControl_none, decide_False, Hget.
    + cbn. rewrite destroyed_log. cbn.
      by rewrite app_nil_r, resetControl_none_destroyed, Hdes, Hget.
  - unfold importControl.
    destruct (validateBankControlId MAX_BUTTONS controlId); [|done].
    pose proof (createClass_controls controlId CategoryBank (json_type definition)
                  (Some definition) true r) as Hctl.
    pose proof (createClass_destroyed controlId CategoryBank (json_type definition)
                  (Some definition) true r) as Hdes.
    destruct (createClassForControl controlId CategoryBank _ _ true r) as [newControl r1].
    cbn [fst snd] in *. by destruct newControl.
  - intros Htype. unfold importControl.
    destruct (validateBankControlId MAX_BUTTONS controlId); [|done].
    unfold createClassForControl. by rewrite Htype.
Qed.

Lemma place_json_get k json r c :
  getControl c (place_json k json r) =
    if decide (c = k) then
      match json ≫= imported_control k with
      | Some nc => Some nc
      | None => getControl c r
      end
    else getControl c r.
Proof.
  unfold place_json. destruct json as [j|]; cbn [mbind option_bind].
  2:{ by destruct (decide (c = k)). }
  unfold imported_control, createClassForControl.
  destruct (class_for CategoryBank (json_type j)) as [cls|]; cbn.
  - apply getControl_set.
  - by destruct (decide (c = k)).
Qed.

(** X20. [controls:swap] of two valid button ids exchanges the two
    controls: each id ends with the control rebuilt from the export of
    what was at the other id, or empty when there was nothing or nothing
    of a type a button may have, and the other controls are as before. *)
Theorem controls_swap_result (controlIdA controlIdB : string) (r : ControlStore) :
  controlIdA ≠ controlIdB →
  validateBankControlId MAX_BUTTONS controlIdA = true →
  validateBankControlId MAX_BUTTONS controlIdB = true →
  (controls_swap MAX_BUTTONS toJSON controlIdA controlIdB r).1 = true ∧
  getControl controlIdB (controls_swap MAX_BUTTONS toJSON controlIdA controlIdB r).2
    = (a ← getControl controlIdA r; imported_control controlIdB (toJSON a true)) ∧
  getControl controlIdA (controls_swap MAX_BUTTONS toJSON controlIdA controlIdB r).2
    = (b ← getControl controlIdB r; imported_control controlIdA (toJSON b true)) ∧
  ∀ c, c ≠ controlIdA → c ≠ controlIdB →
    getControl c (controls_swap MAX_BUTTONS toJSON controlIdA controlIdB r).2
      = getControl c r.
Proof.
  intros Hne HA HB. unfold controls_swap. rewrite HA, HB. cbn [negb orb].
  assert (Hgen :
    let res := place_json controlIdA ((λ c, toJSON c true) <$> getControl controlIdB r)
                 (place_json controlIdB ((λ c, toJSON c true) <$> getControl controlIdA r)
                    (resetControl MAX_BUTTONS controlIdB None
                       (resetControl MAX_BUTTONS controlIdA None r).2).2) in
    getControl controlIdB res
      = (a ← getControl controlIdA r; imported_control controlIdB (toJSON a true)) ∧
    getControl controlIdA res
      = (b ← getControl controlIdB r; imported_control controlIdA (toJSON b true)) ∧
    ∀ c, c ≠ controlIdA → c ≠ controlIdB → getControl c res = getControl c r).
  { cbv zeta. split_and!.
    - rewrite place_json_get, decide_False by done.
      rewrite place_json_get, decide_True by done.
      rewrite resetControl_none, decide_True by done.
      destruct (getControl controlIdA r) as [a|];
        cbn [fmap option_fmap option_map mbind option_bind]; [|done].
      by destruct (imported_control controlIdB (toJSON a true)).
    - rewrite place_json_get, decide_True by done.
      rewrite place_json_get, decide_False by done.
      rewrite resetControl_none, decide_False by done.
      rewrite resetControl_none, decide_True by done.
      destruct (getControl controlIdB r) as [b|];
        cbn [fmap option_fmap option_map mbind option_bind]; [|done].
      by destruct (imported_control controlIdA (toJSON b true)).
    - intros c HcA HcB. rewrite !place_json_get, !decide_False by done.
      by rewrite !resetControl_none, !decide_False. }
  destruct (getControl controlIdA r) as [a|] eqn:EA;
    destruct (getControl controlIdB r) as [b|] eqn:EB; cbn [fst snd];
    try (split; [done|exact Hgen]).
  split; [done|]. by rewrite EA, EB.
Qed.

Lemma class_for_bank t cls : class_for CategoryBank t = Some cls → cls ≠ ControlTrigger.
Proof.
  unfold class_for. repeat (destruct (decide _); [by intros [= <-]|]). done.
Qed.

Lemma trigger_id_not_bank k :
  validateTriggerControlId k = true → validateBankControlId MAX_BUTTONS k = false.
Proof.
  unfold validateTriggerControlId, validateBankControlId.
  by destruct (ParseControlId k) as [[page bank|t]|].
Qed.

(** A store that only lost controls is well placed if the one before was. *)
Lemma well_placed_sub r r' :
  (∀ k, getControl k r' = None ∨ getControl k r' = getControl k r) →
  well_placed MAX_BUTTONS r → well_placed MAX_BUTTONS r'.
Proof.
  intros Hsub Hwp k c Hc. destruct (Hsub k) as [Hn|Heq]; [congruence|].
  apply Hwp. congruence.
Qed.

Lemma well_placed_set k v r :
  (∀ c, v = Some c →
     ctl_controlId c = k ∧
     (validateBankControlId MAX_BUTTONS k = true → ctl_class c ≠ ControlTrigger)) →
  well_placed MAX_BUTTONS r → well_placed MAX_BUTTONS (set_control k v r).
Proof.
  intros Hv Hwp k' c. rewrite getControl_set.
  destruct (decide (k' = k)) as [->|]; [apply Hv|apply Hwp].
Qed.

Lemma well_placed_reset_none k r :
  well_placed MAX_BUTTONS r → well_placed MAX_BUTTONS (resetControl MAX_BUTTONS k None r).2.
Proof.
  apply well_placed_sub. intros c. rewrite resetControl_none.
  destruct (decide (c = k)); [by left|by right].
Qed.

Lemma well_placed_create k cat t obj imp r :
  well_placed MAX_BUTTONS r →
  well_placed MAX_BUTTONS (createClassForControl k cat t obj imp r).2.
Proof. apply well_placed_sub. intros c. right. apply createClass_get. Qed.

Lemma created_for_bank k t obj imp r c :
  (createClassForControl k CategoryBank t obj imp r).1 = Some c →
  ctl_controlId c = k ∧
  (validateBankControlId MAX_BUTTONS k = true → ctl_class c ≠ ControlTrigger).
Proof.
  rewrite createClass_result.
  destruct (class_for CategoryBank t) as [cls|] eqn:E; [|done].
  intros [= <-]. split; [done|]. intros _. by apply (class_for_bank t).
Qed.

Lemma well_placed_place k json r :
  well_placed MAX_BUTTONS r → well_placed MAX_BUTTONS (place_json k json r).
Proof.
  intros Hwp. unfold place_json. destruct json as [j|]; [|done].
  pose proof (created_for_bank k (json_type j) (Some j) true r) as Hc.
  pose proof (well_placed_create k CategoryBank (json_type j) (Some j) true r Hwp) as Hwp1.
  destruct (createClassForControl k CategoryBank _ _ true r) as [[nc|] r1];
    cbn [fst snd] in *; [|done].
  apply well_placed_set; [|done]. intros c [= <-]. by apply Hc.
Qed.

Lemma step_well_placed r r' :
  registry_step MAX_BUTTONS toJSON r r' →
  well_placed MAX_BUTTONS r → well_placed MAX_BUTTONS r'.
Proof.
  intros [k nt s|s|k d s|k k' s|k k' s|k k' s|k s|k new s Hnew] Hwp.
  - destruct nt as [t|]; [|by apply well_placed_reset_none].
    destruct (decide (t = "")) as [->|Ht]; [by apply (well_placed_reset_none k)|].
    unfold resetControl.
    assert (Hwp1 : well_placed MAX_BUTTONS (notify_reset k (drop_control k s))).
    { revert Hwp. apply well_placed_sub. intros c.
      rewrite notify_reset_get, drop_control_get.
      destruct (decide (c = k)); [by left|by right]. }
    destruct (validateBankControlId MAX_BUTTONS k); cbn [snd].
    2:{ revert Hwp. apply well_placed_sub. intros c. rewrite drop_control_get.
        destruct (decide (c = k)); [by left|by right]. }
    rewrite decide_False by done.
    pose proof (created_for_bank k t None false
                  (notify_reset k (drop_control k s))) as Hc.
    pose proof (well_placed_create k CategoryBank t None false _ Hwp1) as Hwp2.
    destruct (createClassForControl k CategoryBank t None false _) as [inst r3].
    cbn [fst snd] in *. apply well_placed_set; [|done]. intros c ->. by apply Hc.
  - unfold resetAllControls. revert Hwp. apply well_placed_sub. intros c.
    rewrite reset_fold_get. destruct (decide (c ∈ _)); [by left|by right].
  - unfold importControl. destruct (validateBankControlId MAX_BUTTONS k); [|done].
    pose proof (created_for_bank k (json_type d) (Some d) true s) as Hc.
    pose proof (well_placed_create k CategoryBank (json_type d) (Some d) true s Hwp) as Hwp1.
    destruct (createClassForControl k CategoryBank _ _ true s) as [[nc|] r1];
      cbn [fst snd] in *; [|done].
    change (well_placed MAX_BUTTONS
              (set_control k (Some nc) (resetControl MAX_BUTTONS k None r1).2)).
    apply well_placed_set; [|by apply well_placed_reset_none].
    intros c [= <-]. by apply Hc.
  - unfold controls_copy. destruct (validateBankControlId MAX_BUTTONS k'); [|done].
    destruct (getControl k s) as [fromControl|]; [|done].
    destruct (decide (k ≠ k')); [|done].
    pose proof (created_for_bank k' (json_type (toJSON fromControl true))
                  (Some (toJSON fromControl true)) true s) as Hc.
    pose proof (well_placed_create k' CategoryBank (json_type (toJSON fromControl true))
                  (Some (toJSON fromControl true)) true s Hwp) as Hwp1.
    destruct (createClassForControl k' CategoryBank _ _ true s) as [[nc|] r1];
      cbn [fst snd] in *; [|done].
    apply well_placed_set; [|by apply well_placed_reset_none].
    intros c [= <-]. by apply Hc.
  - unfold controls_move. destruct (validateBankControlId MAX_BUTTONS k'); [|done].
    destruct (getControl k s) as [fromControl|]; [|done].
    destruct (decide (k ≠ k')); [|done].
    pose proof (created_for_bank k' (json_type (toJSON fromControl true))
                  (Some (toJSON fromControl true)) true s) as Hc.
    pose proof (well_placed_create k' CategoryBank (json_type (toJSON fromControl true))
                  (Some (toJSON fromControl true)) true s Hwp) as Hwp1.
    destruct (createClassForControl k' CategoryBank _ _ true s) as [[nc|] r1];
      cbn [fst snd] in *; [|done].
    apply well_placed_set; [|by do 2 apply well_placed_reset_none].
    intros c [= <-]. by apply Hc.
  - unfold controls_swap.
    destruct (negb (validateBankControlId MAX_BUTTONS k)
              || negb (validateBankControlId MAX_BUTTONS k')); [done|].
    assert (Hgen : well_placed MAX_BUTTONS
              (place_json k ((λ c, toJSON c true) <$> getControl k' s)
                 (place_json k' ((λ c, toJSON c true) <$> getControl k s)
                    (resetControl MAX_BUTTONS k' None
                       (resetControl MAX_BUTTONS k None s).2).2)))
      by (by do 2 apply well_placed_place; do 2 apply well_placed_reset_none).
    destruct (getControl k s), (getControl k' s); cbn [snd]; done.
  - unfold triggers_delete. destruct (validateTriggerControlId k); [|done].
    destruct (getControl k s) as [control|] eqn:E; [|done]. cbn [snd].
    revert Hwp. apply well_placed_sub. intros c.
    pose proof (drop_control_get k c s) as Hd. unfold drop_control in Hd.
    rewrite E in Hd. rewrite Hd. destruct (decide (c = k)); [by left|by right].
  - unfold triggers_clone. destruct (validateTriggerControlId k); [|done].
    destruct (getControl k s) as [fromControl|]; [|done].
    pose proof (createClass_result new CategoryTrigger
                  (json_type (toJSON fromControl true))
                  (Some (toJSON fromControl true)) true s) as Hc.
    pose proof (well_placed_create new CategoryTrigger
                  (json_type (toJSON fromControl true))
                  (Some (toJSON fromControl true)) true s Hwp) as Hwp1.
    destruct (createClassForControl new CategoryTrigger _ _ true s) as [[nc|] r1];
      cbn [fst snd] in *; [|done].
    apply well_placed_set; [|done]. intros c [= <-].
    destruct (class_for CategoryTrigger _); [|done]. injection Hc as ->.
    split; [done|]. by rewrite (trigger_id_not_bank new Hnew).
Qed.

(** X21. The registry stays well placed under its operations: after any
    sequence of resets, imports, copies, moves, swaps, deletions and
    clones of triggers, every control is kept under the id it was made
    for, and no trigger is kept under a valid button id. *)
Theorem registry_well_placed (r r' : ControlStore) :
  rtc (registry_step MAX_BUTTONS toJSON) r r' →
  well_placed MAX_BUTTONS r → well_placed MAX_BUTTONS r'.
Proof.
  induction 1 as [|r1 r2 r3 Hstep _ IH]; [done|].
  intros Hwp. by eapply IH, step_well_placed.
Qed.

Lemma init_controls_snoc config k obj :
  init_controls (config ++ [(k, obj)]) =
    match obj with
    | Some controlObj =>
        if decide (json_type controlObj = "") then init_controls config
        else
          let '(inst, r1) :=
            createClassForControl k CategoryAll (json_type controlObj)
              (Some controlObj) false (init_controls config) in
          match inst with
          | Some _ => set_control k inst r1
          | None => r1
          end
    | None => init_controls config
    end.
Proof. unfold init_controls. by rewrite foldl_snoc. Qed.

Lemma obj_get_snoc {V : Type} (o : list (string * V)) k k' v :
  obj_get k (o ++ [(k', v)]) =
    match obj_get k o with
    | Some x => Some x
    | None => if decide (k' = k) then Some v else None
    end.
Proof.
  induction o as [|[k0 v0] o IH]; cbn; [done|].
  by destruct (decide (k0 = k)).
Qed.

(** X22. The constructor builds the registry from the stored
    configuration, whose keys are distinct: under a key the registry
    holds a control exactly when the configuration has an entry with a
    type there that names a class, and the control is then of that class
    and made from that entry under that key, not as an import; an entry
    whose type names no class is warned about, in the order of the
    configuration, and nothing else is reported. *)
Theorem init_controls_placed (config : list (string * option ControlJson)) :
  NoDup config.*1 →
  (∀ k, getControl k (init_controls config) =
        match mjoin (obj_get k config) with
        | Some controlObj =>
            if decide (json_type controlObj = "") then None
            else (λ cls, mkSomeControl cls k (Some controlObj) false)
                   <$> class_for CategoryAll (json_type controlObj)
        | None => None
        end) ∧
  store_calls (init_controls config) =
    omap (λ e : string * option ControlJson,
            match e.2 with
            | Some controlObj =>
                if decide (json_type controlObj = "") then None
                else match class_for CategoryAll (json_type controlObj) with
                     | Some _ => None
                     | None => Some (CallWarnUnknownType e.1 (json_type controlObj))
                     end
            | None => None
            end) config.
Proof.
  induction config as [|[k' obj] config IH] using rev_ind; [done|].
  rewrite fmap_app. intros (Hnd & Hfresh & _)%NoDup_app.
  destruct (IH Hnd) as [IHget IHcalls]. clear IH.
  assert (Hout : obj_get k' config = None).
  { apply obj_get_fresh. intros Hin. apply (Hfresh _ Hin). cbn. by left. }
  rewrite init_controls_snoc, omap_app. cbn [omap snd fst].
  split.
  - intros k. rewrite obj_get_snoc.
    destruct (decide (k' = k)) as [->|Hne].
    + rewrite Hout. cbn [mjoin option_join].
      assert (Hnone : getControl k (init_controls config) = None)
        by (by rewrite IHget, Hout).
      destruct obj as [controlObj|]; [|done].
      destruct (decide (json_type controlObj = "")) as [|Htype]; [done|].
      unfold createClassForControl.
      destruct (class_for CategoryAll (json_type controlObj)) as [cls|] eqn:Hcls.
      * by rewrite getControl_set, decide_True.
      * exact Hnone.
    + assert (Hsame : getControl k
                (match obj with
                 | Some controlObj =>
                     if decide (json_type controlObj = "") then init_controls config
                     else
                       let '(inst, r1) :=
                         createClassForControl k' CategoryAll (json_type controlObj)
                           (Some controlObj) false (init_controls config) in
                       match inst with
                       | Some _ => set_control k' inst r1
                       | None => r1
                       end
                 | None => init_controls config
                 end) = getControl k (init_controls config)).
      { destruct obj as [controlObj|]; [|done].
        destruct (decide (json_type controlObj = "")); [done|].
        unfold createClassForControl.
        destruct (class_for CategoryAll (json_type controlObj)); [|done].
        by rewrite getControl_set, decide_False. }
      rewrite Hsame, IHget. by destruct (obj_get k config).
  - rewrite <- IHcalls.
    destruct obj as [controlObj|]; cbn [omap list_omap snd fst]; [|by rewrite app_nil_r].
    destruct (decide (json_type controlObj = "")); [by rewrite ?app_nil_r|].
    unfold createClassForControl.
    destruct (class_for CategoryAll (json_type controlObj)); cbn;
      [by rewrite app_nil_r|done].
Qed.

End RegistryFacts.

Lemma resetAllControls_empties_witness :
  (∀ c, getControl c (resetAllControls 32 sample_registry) = None) ∧
  destroyed (store_calls (resetAllControls 32 sample_registry)) =
    destroyed (store_calls sample_registry) ++ omap snd (store_controls sample_registry).
Proof.
  apply (resetAllControls_empties 32 sample_registry).
  apply (bool_decide_unpack _). vm_compute. exact I.
Defined.

Lemma controls_swap_result_witness :
  getControl "bank:1-2" (controls_swap 32 sample_toJSON "bank:1-1" "bank:1-2" sample_registry).2
    = Some (mkSomeControl ControlButtonNormal "bank:1-2" (Some (mkJson "button" "")) true) ∧
  getControl "bank:1-1" (controls_swap 32 sample_toJSON "bank:1-1" "bank:1-2" sample_registry).2
    = None.
Proof.
  destruct (controls_swap_result 32 sample_toJSON "bank:1-1" "bank:1-2" sample_registry)
    as (_ & HB & HA & _); [discriminate|reflexivity|reflexivity|].
  split; [exact HB|exact HA].
Defined.

Lemma registry_well_placed_witness :
  well_placed 32
    (controls_move 32 sample_toJSON "bank:1-1" "bank:2-1"
       (importControl 32 "bank:1-1" (mkJson "button" "") (mkStore [] [])).2).2.
Proof.
  apply (registry_well_placed 32 sample_toJSON (mkStore [] [])).
  - eapply rtc_l; [apply reg_import|]. apply rtc_once, reg_move.
  - intros k c Hc. discriminate Hc.
Defined.

Lemma init_controls_placed_witness :
  (∀ k, getControl k
          (init_controls
             [ ("bank:1-1", Some (mkJson "button" ""));
               ("bank:1-2", Some (mkJson "wrong" ""));
               ("trigger:t1", Some (mkJson "trigger" "")) ]) =
        match mjoin (obj_get k
                       [ ("bank:1-1", Some (mkJson "button" ""));
                         ("bank:1-2", Some (mkJson "wrong" ""));
                         ("trigger:t1", Some (mkJson "trigger" "")) ]) with
        | Some controlObj =>
            if decide (json_type controlObj = "") then None
            else (λ cls, mkSomeControl cls k (Some controlObj) false)
                   <$> class_for CategoryAll (json_type controlObj)
        | None => None
        end) ∧
  store_calls
    (init_controls
       [ ("bank:1-1", Some (mkJson "button" ""));
         ("bank:1-2", Some (mkJson "wrong" ""));
         ("trigger:t1", Some (mkJson "trigger" "")) ])
    = [CallWarnUnknownType "bank:1-2" "wrong"].
Proof.
  apply (init_controls_placed
           [ ("bank:1-1", Some (mkJson "button" ""));
             ("bank:1-2", Some (mkJson "wrong" ""));
             ("trigger:t1", Some (mkJson "trigger" "")) ]).
  apply (bool_decide_unpack _). vm_compute. exact I.
Defined.

(** ** Adding connections *)

Section AddConnection.

Variable makeLabelSafe : string → string.
Variable known_modules : gmap string ModuleInfo.
Variable module_renames : gmap string string.
Variable has_child : string → bool.

Lemma obj_set_fresh {V : Type} (o : list (string * V)) k v :
  k ∉ o.*1 → obj_set k v o = o ++ [(k, v)].
Proof.
  induction o as [|[k' v'] o IH]; cbn; [done|].
  intros [Hne Hout]%not_elem_of_cons. rewrite decide_False by done. by rewrite IH.
Qed.

Lemma obj_set_last {V : Type} (o : list (string * V)) k v0 v :
  k ∉ o.*1 → obj_set k v (o ++ [(k, v0)]) = o ++ [(k, v)].
Proof.
  induction o as [|[k' v'] o IH]; cbn.
  - intros _. by rewrite decide_True.
  - intros [Hne Hout]%not_elem_of_cons. rewrite decide_False by done. by rewrite IH.
Qed.

Lemma obj_get_last {V : Type} (o : list (string * V)) k v :
  k ∉ o.*1 → obj_get k (o ++ [(k, v)]) = Some v.
Proof.
  induction o as [|[k' v'] o IH]; cbn.
  - intros _. by rewrite decide_True.
  - intros [Hne Hout]%not_elem_of_cons. rewrite decide_False by done. by apply IH.
Qed.

Lemma highestRank_bound (db : list (string * option InstanceStoreConfig)) :
  0 ≤ highestRank db ∧ Forall (λ o, o ≤ highestRank db) (store_orders db).
Proof.
  unfold highestRank. induction (store_orders db) as [|o l [IH0 IH]]; cbn.
  - split; [lia|constructor].
  - split; [lia|]. constructor; [lia|].
    eapply Forall_impl; [exact IH|]. cbn. intros x Hx. lia.
Qed.

Lemma knownLabels_snoc (db : list (string * option InstanceStoreConfig)) i c :
  knownLabels None (db ++ [(i, Some c)]) =
    knownLabels None db ++ (if decide (label c = "") then [] else [label c]).
Proof.
  unfold knownLabels. rewrite omap_app. f_equal. cbn.
  destruct (decide (label c = "")) as [Hl|Hl].
  - rewrite decide_False; [done|]. by intros [_ ?].
  - by rewrite decide_True.
Qed.

(** X23. [addInstance] for a known module appends one entry under the new
    id and commits: the entry is disabled whatever [disabled] is, so that
    the module host is not asked to start it; it is marked as a first
    initialisation, gets an order above every order of the store and a
    label that no connection carries, so that labels that were pairwise
    distinct stay so.  For an unknown module nothing happens. *)
Theorem addInstance_stores_disabled (type : string) (data_product : option string)
    (disabled : bool) (i : string) (st : InstanceState) (moduleInfo : ModuleInfo) :
  known_modules !! type = Some moduleInfo →
  i ∉ getAllInstanceIds (store_db st) →
  ∃ lbl,
    addInstance makeLabelSafe known_modules module_renames has_child
      type data_product disabled i st =
      (Some i,
       mkInstances
         (store_db st ++
            [(i, Some (mkInstanceConfig (verifyInstanceTypeIsCurrent module_renames type)
                         lbl data_product false
                         (Some (highestRank (store_db st) + 1)) true))])
         (instance_calls st ++ [CallCommitChanges])) ∧
    (lbl ∉ knownLabels None (store_db st)) ∧
    Forall (λ o, o < highestRank (store_db st) + 1) (store_orders (store_db st)) ∧
    (NoDup (knownLabels None (store_db st)) →
     NoDup (knownLabels None
              (store_db (addInstance makeLabelSafe known_modules module_renames has_child
                           type data_product disabled i st).2))).
Proof.
  unfold getAllInstanceIds. intros Hknown Hfresh.
  destruct (label_loop_spec (knownLabels None (store_db st))
              (makeLabelSafe (shortname moduleInfo))
              (S (length (knownLabels None (store_db st)))) 1)
    as (k & _ & Hrun & Hnew & _); [lia|intros j Hj; lia|lia|].
  change (nth_label (makeLabelSafe (shortname moduleInfo)) 1)
    with (makeLabelSafe (shortname moduleInfo)) in Hrun.
  set (lbl := nth_label (makeLabelSafe (shortname moduleInfo)) k) in *.
  exists lbl.
  assert (Hrun' : addInstance makeLabelSafe known_modules module_renames has_child
            type data_product disabled i st =
          (Some i,
           mkInstances
             (store_db st ++
                [(i, Some (mkInstanceConfig (verifyInstanceTypeIsCurrent module_renames type)
                             lbl data_product false
                             (Some (highestRank (store_db st) + 1)) true))])
             (instance_calls st ++ [CallCommitChanges]))).
  { unfold addInstance, makeLabelUnique. rewrite Hknown, Hrun.
    assert (Hst2 : (if disabled
                    then set_entry i
                           (mkInstanceConfig type lbl data_product false
                              (Some (highestRank (store_db st) + 1)) true)
                           (set_entry i
                              (mkInstanceConfig type lbl data_product false
                                 (Some (highestRank (store_db st) + 1)) true) st)
                    else set_entry i
                           (mkInstanceConfig type lbl data_product false
                              (Some (highestRank (store_db st) + 1)) true) st)
                   = mkInstances
                       (store_db st ++
                          [(i, Some (mkInstanceConfig type lbl data_product false
                                       (Some (highestRank (store_db st) + 1)) true))])
                       (instance_calls st)).
    { unfold set_entry. cbn. rewrite (obj_set_fresh _ _ _ Hfresh).
      destruct disabled; [|done]. by rewrite (obj_set_last _ _ _ _ Hfresh). }
    cbv zeta. rewrite Hst2. unfold activate_module, getInstanceConfig. cbn [store_db].
    rewrite (obj_get_last _ _ _ Hfresh). cbn.
    unfold set_entry, instance_call. cbn. by rewrite (obj_set_last _ _ _ _ Hfresh). }
  split; [exact Hrun'|]. split; [done|]. split.
  - destruct (highestRank_bound (store_db st)) as [_ Hall].
    eapply Forall_impl; [exact Hall|]. cbn. intros x Hx. lia.
  - intros Hnd. rewrite Hrun'. cbn [snd store_db]. rewrite knownLabels_snoc. cbn [label].
    destruct (decide (lbl = "")); [by rewrite app_nil_r|].
    apply NoDup_app. split; [done|]. split; [|apply NoDup_singleton].
    intros x Hx ->%list_elem_of_singleton. done.
Qed.

Lemma config_set_entry i e st j :
  getInstanceConfig j (store_db (set_entry i e st)) =
    if decide (j = i) then Some e else getInstanceConfig j (store_db st).
Proof.
  unfold getInstanceConfig, set_entry. cbn. destruct (decide (j = i)) as [->|Hne].
  - by rewrite obj_get_set.
  - by rewrite obj_get_set_ne.
Qed.

Lemma setInstanceLabelAndConfig_entry i newLabel config skip st e :
  getInstanceConfig i (store_db st) = Some e →
  ∃ e',
    getInstanceConfig i
      (store_db (setInstanceLabelAndConfig has_child i newLabel config skip st)) = Some e' ∧
    enabled e' = enabled e ∧
    ∀ j, j ≠ i →
      getInstanceConfig j
        (store_db (setInstanceLabelAndConfig has_child i newLabel config skip st))
      = getInstanceConfig j (store_db st).
Proof.
  intros He. unfold setInstanceLabelAndConfig. rewrite He. cbn [store_db].
  eexists. split; [|split].
  - unfold getInstanceConfig. by rewrite obj_get_set.
  - done.
  - intros j Hj. unfold getInstanceConfig. by rewrite obj_get_set_ne.
Qed.

Lemma activate_module_entry i created st e :
  getInstanceConfig i (store_db st) = Some e →
  ∃ st' e',
    activate_module makeLabelSafe known_modules module_renames has_child i created st
      = Some st' ∧
    getInstanceConfig i (store_db st') = Some e' ∧
    enabled e' = enabled e ∧
    (∀ j, j ≠ i → getInstanceConfig j (store_db st') = getInstanceConfig j (store_db st)) ∧
    (enabled e = false → filter (λ c, is_restart c = true) (instance_calls st')
                         = filter (λ c, is_restart c = true) (instance_calls st)).
Proof.
  intros He. unfold activate_module. rewrite He. cbn [enabled].
  set (e1 := mkInstanceConfig _ (label e) (product e) (enabled e) (sortOrder e)
               (isFirstInit e)).
  destruct (enabled e) eqn:Hen; cbn [negb].
  2:{ exists (set_entry i e1 st), e1. split_and!; [done| |done| |done].
      - by rewrite config_set_entry, decide_True.
      - intros j Hj. by rewrite config_set_entry, decide_False. }
  set (st2 := if negb created && bool_decide (makeLabelSafe (label e) ≠ label e)
              then setInstanceLabelAndConfig has_child i
                     (Some (makeLabelSafe (label e))) None true (set_entry i e1 st)
              else set_entry i e1 st).
  assert (H2 : ∃ e2, getInstanceConfig i (store_db st2) = Some e2 ∧ enabled e2 = true ∧
                 ∀ j, j ≠ i →
                   getInstanceConfig j (store_db st2) = getInstanceConfig j (store_db st)).
  { subst st2. destruct (negb created && _).
    - destruct (setInstanceLabelAndConfig_entry i (Some (makeLabelSafe (label e))) None
                  true (set_entry i e1 st) e1) as (e2 & Hg & Hen2 & Hother);
        [by rewrite config_set_entry, decide_True|].
      exists e2. split; [done|]. split; [by rewrite Hen2; cbn|].
      intros j Hj. by rewrite Hother, config_set_entry, decide_False.
    - exists e1. split; [by rewrite config_set_entry, decide_True|]. split; [by cbn|].
      intros j Hj. by rewrite config_set_entry, decide_False. }
  destruct H2 as (e2 & Hg2 & Hen2 & Hother).
  change (label e1) with (label e). fold st2. rewrite Hg2.
  destruct (known_modules !! instance_type e2) as [info|].
  - exists (instance_call (CallQueueRestartConnection i e2 info) st2), e2.
    split_and!; [done..|]. intros [=].
  - exists st2, e2. split_and!; [done..|]. intros [=].
Qed.

(** X24. [enableDisableInstance] settles: a call changes the [enabled]
    field of the connection to the state asked for and touches no other
    connection, a second call with the same state changes nothing at all,
    and a call that disables asks for no start of a connection. *)
Theorem enableDisableInstance_settles (i : string) (state : bool) (st : InstanceState) :
  ∃ st',
    enableDisableInstance makeLabelSafe known_modules module_renames has_child i state st
      = Some st' ∧
    enableDisableInstance makeLabelSafe known_modules module_renames has_child i state st'
      = Some st' ∧
    (is_Some (getInstanceConfig i (store_db st)) →
     enabled <$> getInstanceConfig i (store_db st') = Some state) ∧
    (∀ j, j ≠ i → getInstanceConfig j (store_db st') = getInstanceConfig j (store_db st)) ∧
    (state = false →
     filter (λ c, is_restart c = true) (instance_calls st')
       = filter (λ c, is_restart c = true) (instance_calls st)).
Proof.
  unfold enableDisableInstance at 1.
  destruct (getInstanceConfig i (store_db st)) as [e|] eqn:He.
  2:{ exists st. split_and!; [done| |by intros [? ?]|done..].
      unfold enableDisableInstance. by rewrite He. }
  destruct (bool_decide (enabled e ≠ state)) eqn:Hdiff.
  2:{ exists st. split_and!; [done| | |done..].
      - unfold enableDisableInstance. by rewrite He, Hdiff.
      - intros _. apply bool_decide_eq_false in Hdiff. rewrite He. cbn. f_equal.
        destruct (enabled e), state; try done; by destruct Hdiff. }
  set (e1 := mkInstanceConfig (instance_type e) (label e) (product e) state
               (sortOrder e) (isFirstInit e)).
  destruct state.
  - destruct (activate_module_entry i false
                (instance_call (CallUpdateInstanceStatus i "Starting") (set_entry i e1 st)) e1)
      as (st2 & e2 & Hact & Hg2 & Hen2 & Hother & _).
    { change (store_db (instance_call _ (set_entry i e1 st)))
        with (store_db (set_entry i e1 st)).
      by rewrite config_set_entry, decide_True. }
    rewrite Hact. cbn [mbind option_bind].
    exists (instance_call CallCommitChanges st2).
    change (store_db (instance_call CallCommitChanges st2)) with (store_db st2).
    split_and!; [done| | | |done].
    + unfold enableDisableInstance.
      change (store_db (instance_call CallCommitChanges st2)) with (store_db st2).
      rewrite Hg2. rewrite bool_decide_eq_false_2; [done|]. rewrite Hen2. cbn. tauto.
    + intros _. rewrite Hg2. cbn. by rewrite Hen2.
    + intros j Hj. rewrite (Hother j Hj).
      change (store_db (instance_call _ (set_entry i e1 st)))
        with (store_db (set_entry i e1 st)).
      by rewrite config_set_entry, decide_False.
  - eexists. split; [done|].
    split_and!.
    + unfold enableDisableInstance. cbn [store_db instance_call].
      rewrite config_set_entry, decide_True by done.
      by rewrite bool_decide_eq_false_2 by (cbn; tauto).
    + intros _. cbn [store_db instance_call].
      by rewrite config_set_entry, decide_True.
    + intros j Hj. cbn [store_db instance_call].
      by rewrite config_set_entry, decide_False.
    + intros _. cbn [instance_calls instance_call set_entry].
      by rewrite !filter_app, !app_nil_r.
Qed.

End AddConnection.

Lemma addInstance_stores_disabled_witness :
  ∃ lbl,
    addInstance (λ s, s) {[ "atem" := mkModuleInfo "atem" ]} ∅ (λ _, false)
      "atem" None false "new" (mkInstances sample_store []) =
      (Some "new",
       mkInstances
         (sample_store ++
            [("new", Some (mkInstanceConfig (verifyInstanceTypeIsCurrent ∅ "atem")
                             lbl None false
                             (Some (highestRank sample_store + 1)) true))])
         ([] ++ [CallCommitChanges])) ∧
    (lbl ∉ knownLabels None sample_store) ∧
    Forall (λ o, o < highestRank sample_store + 1) (store_orders sample_store) ∧
    (NoDup (knownLabels None sample_store) →
     NoDup (knownLabels None
              (store_db (addInstance (λ s, s) {[ "atem" := mkModuleInfo "atem" ]} ∅
                           (λ _, false) "atem" None false "new"
                           (mkInstances sample_store [])).2))).
Proof.
  apply (addInstance_stores_disabled (λ s, s) {[ "atem" := mkModuleInfo "atem" ]} ∅
           (λ _, false) "atem" None false "new" (mkInstances sample_store [])
           (mkModuleInfo "atem")).
  - reflexivity.
  - apply (bool_decide_unpack _). vm_compute. exact I.
Defined.

Lemma controls_move_result_witness :
  getControl "bank:2-1"
    (controls_move 32 sample_toJSON "bank:1-1" "bank:2-1" sample_registry).2
    = Some (mkSomeControl ControlButtonNormal "bank:2-1" (Some (mkJson "button" "")) true) ∧
  store_controls (controls_move 32 sample_toJSON "trigger:t1" "bank:2-1" sample_registry).2
    = store_controls sample_registry.
Proof.
  split.
  - destruct (proj1 (controls_move_result 32 sample_toJSON "bank:1-1" "bank:2-1"
                       sample_registry) eq_refl)
      as (_ & _ & fromControl & newControl & Hfrom & Hnew & Hto & _).
    injection Hfrom as <-. injection Hnew as <-. exact Hto.
  - exact (proj1 (proj2 (controls_move_result 32 sample_toJSON "trigger:t1" "bank:2-1"
                           sample_registry) eq_refl)).
Defined.

Lemma controls_copy_result_witness :
  getControl "bank:1-2"
    (controls_copy 32 sample_toJSON "bank:1-1" "bank:1-2" sample_registry).2
    = Some (mkSomeControl ControlButtonNormal "bank:1-2" (Some (mkJson "button" "")) true) ∧
  getControl "bank:1-1"
    (controls_copy 32 sample_toJSON "bank:1-1" "bank:1-2" sample_registry).2
    = getControl "bank:1-1" sample_registry.
Proof.
  destruct (proj1 (controls_copy_result 32 sample_toJSON "bank:1-1" "bank:1-2"
                     sample_registry) eq_refl)
    as (fromControl & newControl & _ & _ & Hfrom & Hnew & Hget & _).
  injection Hfrom as <-. injection Hnew as <-.
  split; [exact (Hget "bank:1-2")|exact (Hget "bank:1-1")].
Defined.

Lemma importControl_result_witness :
  (importControl 32 "bank:1-1" (mkJson "pageup" "") sample_registry).1 = true ∧
  (∀ c, getControl c (importControl 32 "bank:1-1" (mkJson "pageup" "") sample_registry).2
        = if decide (c = "bank:1-1")
          then Some (mkSomeControl ControlButtonPageUp "bank:1-1"
                       (Some (mkJson "pageup" "")) true)
          else getControl c sample_registry) ∧
  destroyed (store_calls
               (importControl 32 "bank:1-1" (mkJson "pageup" "") sample_registry).2)
    = [mkSomeControl ControlButtonNormal "bank:1-1" None false] ∧
  (importControl 32 "bank:1-2" (mkJson "trigger" "") sample_registry).1 = false ∧
  store_controls (importControl 32 "bank:100-1" (mkJson "button" "") sample_registry).2
    = store_controls sample_registry.
Proof.
  destruct (importControl_result 32 "bank:1-1" (mkJson "pageup" "") sample_registry)
    as (Hiff & Hyes & _ & _).
  assert (Htrue : (importControl 32 "bank:1-1" (mkJson "pageup" "") sample_registry).1
                  = true).
  { apply Hiff. split; [reflexivity|]. by eexists. }
  destruct (Hyes Htrue) as (newControl & _ & Hnew & _ & Hget & Hdes).
  injection Hnew as <-.
  split_and!.
  - exact Htrue.
  - exact Hget.
  - exact Hdes.
  - exact (proj2 (proj2 (proj2 (importControl_result 32 "bank:1-2" (mkJson "trigger" "")
                                  sample_registry))) eq_refl).
  - exact (proj1 (proj1 (proj2 (proj2 (importControl_result 32 "bank:100-1"
                                         (mkJson "button" "") sample_registry)))
                   eq_refl)).
Defined.

(** ** Labels stay distinct *)

Section SetConfigFacts.

Variable has_child : string → bool.
Variable isLabelValid : string → bool.

Lemma getIdForLabel_None (db : list (string * option InstanceStoreConfig)) l :
  getIdForLabel l db = None → ∀ j c, (j, Some c) ∈ db → label c ≠ l.
Proof.
  induction db as [|[k [c0|]] db IH]; cbn; intros Hnone j c Hin.
  - by apply elem_of_nil in Hin.
  - destruct (decide (label c0 = l)) as [|Hne]; [done|].
    apply elem_of_cons in Hin as [[= -> ->]|Hin]; [done|by apply (IH Hnone j c)].
  - apply elem_of_cons in Hin as [[=]|Hin]. by apply (IH Hnone j c).
Qed.

(** The labels of a store in which one entry was written again. *)
Lemma knownLabels_set (db : list (string * option InstanceStoreConfig)) i c e :
  NoDup db.*1 → (i, Some c) ∈ db →
  ∃ l1 l2,
    knownLabels None db = l1 ++ (if decide (label c = "") then [] else [label c]) ++ l2 ∧
    knownLabels None (obj_set i (Some e) db)
      = l1 ++ (if decide (label e = "") then [] else [label e]) ++ l2.
Proof.
  assert (Happ : ∀ a b : list (string * option InstanceStoreConfig),
            knownLabels None (a ++ b) = knownLabels None a ++ knownLabels None b)
    by (intros a b; unfold knownLabels; by rewrite omap_app).
  assert (Hone : ∀ (x : InstanceStoreConfig) (k : string),
            knownLabels None [(k, Some x)]
            = if decide (label x = "") then [] else [label x]).
  { intros x k. unfold knownLabels. cbn. destruct (decide (label x = "")) as [Hl|Hl].
    - rewrite decide_False; [done|]. by intros [_ ?].
    - by rewrite decide_True. }
  induction db as [|[k v] db IH]; intros Hnd Hin; [by apply elem_of_nil in Hin|].
  apply NoDup_cons in Hnd as [Hk Hnd]. cbn [obj_set].
  apply elem_of_cons in Hin as [[= <- <-]|Hin].
  - destruct (decide (i = i)); [|done]. exists [], (knownLabels None db).
    change ((i, Some c) :: db) with ([(i, Some c)] ++ db).
    change ((i, Some e) :: db) with ([(i, Some e)] ++ db).
    by rewrite !Happ, !Hone.
  - destruct (decide (k = i)) as [->|_].
    { destruct Hk. by apply (list_elem_of_fmap_2' fst _ (i, Some c)). }
    destruct (IH Hnd Hin) as (l1 & l2 & H1 & H2).
    exists (knownLabels None [(k, v)] ++ l1), l2.
    change ((k, v) :: db) with ([(k, v)] ++ db).
    change ((k, v) :: obj_set i (Some e) db) with ([(k, v)] ++ obj_set i (Some e) db).
    rewrite !Happ, H1, H2. by rewrite <- !app_assoc.
Qed.

(** X25. [instances:set-config] keeps the labels of the connections
    pairwise distinct, and refuses, changing nothing, a label that another
    connection carries. *)
Theorem set_config_keeps_labels_distinct (i lbl : string)
    (config : option (option string)) (st : InstanceState) :
  NoDup (getAllInstanceIds (store_db st)) →
  ("" ∉ getAllInstanceIds (store_db st)) →
  NoDup (knownLabels None (store_db st)) →
  NoDup (knownLabels None
           (store_db (instances_set_config has_child isLabelValid i lbl config st).2)) ∧
  (∀ j, getIdForLabel lbl (store_db st) = Some j → j ≠ i →
     instances_set_config has_child isLabelValid i lbl config st
       = (Some "duplicate label", st)).
Proof.
  unfold getAllInstanceIds. intros Hkeys Hempty Hlabels.
  assert (Hid : ∀ j, getIdForLabel lbl (store_db st) = Some j → j ≠ "").
  { intros j (c & Hin & _)%getIdForLabel_Some ->. apply Hempty.
    by apply (list_elem_of_fmap_2' fst _ ("", Some c)). }
  split.
  2:{ intros j Hj Hne. unfold instances_set_config. rewrite Hj.
      rewrite bool_decide_eq_true_2; [done|]. split; [by apply Hid|done]. }
  unfold instances_set_config.
  destruct (getIdForLabel lbl (store_db st)) as [j|] eqn:Hfound.
  - destruct (bool_decide (j ≠ "" ∧ j ≠ i)) eqn:Hother; [done|].
    apply bool_decide_eq_false in Hother.
    assert (j = i) as ->.
    { destruct (decide (j = i)); [done|]. destruct Hother. split; [by apply Hid|done]. }
    destruct (isLabelValid lbl); cbn [negb snd]; [|done].
    destruct (getIdForLabel_Some _ _ _ Hfound) as (c & Hin & Hl).
    unfold setInstanceLabelAndConfig.
    pose proof (getInstanceConfig_entry _ (i, Some c) Hkeys Hin) as Hget.
    cbn [fst snd] in Hget. rewrite Hget. cbn [store_db].
    rewrite bool_decide_eq_false_2 by (rewrite Hl; tauto).
    match goal with |- context [obj_set i (Some ?x) _] => set (e1 := x) end.
    destruct (knownLabels_set (store_db st) i c e1 Hkeys Hin) as (l1 & l2 & H1 & H2).
    rewrite H2. change (label e1) with (label c). by rewrite <- H1.
  - destruct (isLabelValid lbl); cbn [negb snd]; [|done].
    unfold setInstanceLabelAndConfig.
    destruct (getInstanceConfig i (store_db st)) as [c|] eqn:Hget; [|done].
    pose proof (getInstanceConfig_Some _ _ _ Hget) as Hin. cbn [store_db].
    match goal with |- context [obj_set i (Some ?x) _] => set (e1 := x) end.
    destruct (knownLabels_set (store_db st) i c e1 Hkeys Hin) as (l1 & l2 & H1 & H2).
    rewrite H2. subst e1. cbn [label default from_option].
    destruct (bool_decide (lbl ≠ "" ∧ label c ≠ lbl)) eqn:Hren.
    + apply bool_decide_eq_true in Hren as [Hne Hdiff]. cbn [Datatypes.id].
      rewrite decide_False by done.
      assert (Hfresh : lbl ∉ knownLabels None (store_db st)).
      { intros (j & c' & Hin' & _ & Hl' & _)%knownLabels_spec.
        by apply (getIdForLabel_None _ _ Hfound j c'). }
      rewrite H1 in Hlabels, Hfresh.
      apply NoDup_app in Hlabels as (Hl1 & Hdisj & Hrest).
      apply NoDup_app in Hrest as (_ & _ & Hl2).
      apply NoDup_app. split; [done|]. split.
      * intros x Hx [->%list_elem_of_singleton|Hx2]%elem_of_app.
        -- apply Hfresh. apply elem_of_app. by left.
        -- apply (Hdisj x Hx). apply elem_of_app. by right.
      * apply NoDup_app. split; [apply NoDup_singleton|]. split; [|done].
        intros x ->%list_elem_of_singleton Hx. apply Hfresh.
        apply elem_of_app. right. apply elem_of_app. by right.
    + by rewrite <- H1.
Qed.

End SetConfigFacts.

Lemma set_config_keeps_labels_distinct_witness :
  NoDup (knownLabels None
           (store_db (instances_set_config (λ _, false) (λ _, true) "i3" "atem_2" None
                        (mkInstances sample_store [])).2)) ∧
  instances_set_config (λ _, false) (λ _, true) "i3" "atem_2" None
    (mkInstances sample_store [])
    = (Some "duplicate label", mkInstances sample_store []).
Proof.
  destruct (set_config_keeps_labels_distinct (λ _, false) (λ _, true) "i3" "atem_2" None
              (mkInstances sample_store [])) as [Hnd Hdup].
  - apply (bool_decide_unpack _). vm_compute. exact I.
  - apply (bool_decide_unpack _). vm_compute. exact I.
  - apply (bool_decide_unpack _). vm_compute. exact I.
  - split; [exact Hnd|]. apply (Hdup "i2"); [reflexivity|discriminate].
Defined.
